(** * Air-quality monitor: IDW interpolation and the PM2.5 classifier

    A shallow embedding of [interpolate.py] (the two inverse-distance
    weighting estimators), of [pm25_to_aqi] and [get_aqi_alert] from
    [app.py], and of the click handler that [app.py] embeds as JavaScript;
    then of [create_map] from [visualize.py], of [fetch_latest_pm25] from
    [fetch_data.py] as a function of the response to its request, and of
    the script of [app.py] as a function on the session state.

    The numeric code is written once, over an interface [Numeric] of the
    operations the source applies to its numbers, and read at two instances:
    - [binary64]: IEEE 754 double precision, the numbers Python, numpy and
      JavaScript really compute with (Rocq's primitive floats);
    - [exact_real]: the real numbers, the same expressions without rounding,
      overflow or NaN.
    What holds of the control flow (the three-sample gate, the grid loop) is
    proved for every instance; what holds of the arithmetic is proved over
    the reals, and for binary64 where the floats allow it; where binary64
    departs from the reals, an evaluation shows it.

    The exact reading idealises the machine: no number is rounded, none
    overflows, and no count of steps is too large for an array index. *)

From Stdlib Require Import Reals Lra Psatz ZArith Floats List Lia Bool String
  Permutation.
From stdpp Require Import base option list.
Import ListNotations.

Set Warnings "-inexact-float".

(** ** Numbers *)

(** The operations of a numpy [float64] / JavaScript [Number] that the
    source uses. *)
Class Numeric (N : Type) : Type := {
  num_zero : N;
  num_one : N;
  num_tenth : N;                    (* the literal 0.1 *)
  num_eps : N;                      (* np.finfo(float).eps, Number.EPSILON *)
  num_add : N -> N -> N;
  num_sub : N -> N -> N;
  num_mul : N -> N -> N;
  num_div : N -> N -> N;
  num_sqrt : N -> N;                (* np.sqrt, Math.sqrt *)
  num_pow : N -> N -> N;            (* dists ** power, Math.pow(dist, power) *)
  num_eqb : N -> N -> bool;         (* ==, === *)
  num_ltb : N -> N -> bool;         (* < *)
  num_of_nat : nat -> N;            (* an array index as a number *)
  num_ceil : N -> option Z          (* ceil to an integer; None when there is none *)
}.

Declare Scope num_scope.
Delimit Scope num_scope with num.
Notation "x + y" := (num_add x y) : num_scope.
Notation "x - y" := (num_sub x y) : num_scope.
Notation "x * y" := (num_mul x y) : num_scope.
Notation "x / y" := (num_div x y) : num_scope.
Notation "x ** y" := (num_pow x y) (at level 30, right associativity) : num_scope.
Notation "x =? y" := (num_eqb x y) : num_scope.
Notation "x <? y" := (num_ltb x y) : num_scope.

(** *** IEEE 754 binary64 *)

Module Binary64.

(** The integer a finite float is the ceiling of. *)
Definition ceil (x : float) : option Z :=
  match Prim2SF x with
  | S754_zero _ => Some 0%Z
  | S754_finite s m e =>
      let n := if s then Z.neg m else Z.pos m in
      let c := if (0 <=? e)%Z then (n * 2 ^ e)%Z else (- ((- n) / 2 ^ (- e)))%Z in
      (* _arange_safe_ceil_to_intp refuses what does not fit a signed 64-bit index *)
      if ((- 2 ^ 63 <=? c) && (c <? 2 ^ 63))%Z then Some c else None
  | S754_infinity _ | S754_nan => None
  end.

(** [int(x)] of Python on a finite float: truncation toward zero. *)
Definition trunc (x : float) : option Z :=
  match Prim2SF x with
  | S754_zero _ => Some 0%Z
  | S754_finite s m e =>
      let a := if (0 <=? e)%Z then (Z.pos m * 2 ^ e)%Z else (Z.pos m / 2 ^ (- e))%Z in
      Some (if s then (- a)%Z else a)
  | S754_infinity _ | S754_nan => None
  end.

(** The float of a small integer (exact below 2^53). *)
Definition of_Z (z : Z) : float :=
  let a := PrimFloat.of_uint63 (Uint63.of_Z (Z.abs z)) in
  if (z <? 0)%Z then PrimFloat.opp a else a.

(** [x ** y] with a scalar exponent, and [Math.pow(x, y)]. The exponent 2
    (the only one [app.py] and the embedded script pass) is evaluated as
    the product [x * x], and the exponent 1 returns [x]. Every other
    exponent goes to the C library's [pow], which is not part of this
    model: such a power is left undetermined here (NaN) and no statement
    below evaluates one. *)
Definition pow (x y : float) : float :=
  if PrimFloat.eqb y 2 then PrimFloat.mul x x
  else if PrimFloat.eqb y 1 then x
  else nan.

(** [np.finfo(float).eps] and [Number.EPSILON]: 2^-52, the gap between 1.0
    and the next float. *)
Definition eps : float := 0x1p-52%float.

(** The smallest positive float (the subnormal 2^-1074,
    [np.finfo(float).smallest_subnormal], [Number.MIN_VALUE]) and the
    smallest positive normal float ([np.finfo(float).tiny]). *)
Definition smallest_subnormal : float := 0x1p-1074%float.
Definition smallest_normal : float := 0x1p-1022%float.

Definition is_finite (x : float) : bool :=
  match Prim2SF x with
  | S754_zero _ | S754_finite _ _ _ => true
  | S754_infinity _ | S754_nan => false
  end.

End Binary64.

#[export] Instance binary64 : Numeric float := {|
  num_zero := 0%float;
  num_one := 1%float;
  num_tenth := 0.1%float;
  num_eps := Binary64.eps;
  num_add := PrimFloat.add;
  num_sub := PrimFloat.sub;
  num_mul := PrimFloat.mul;
  num_div := PrimFloat.div;
  num_sqrt := PrimFloat.sqrt;
  num_pow := Binary64.pow;
  num_eqb := PrimFloat.eqb;
  num_ltb := PrimFloat.ltb;
  num_of_nat := fun k => Binary64.of_Z (Z.of_nat k);
  num_ceil := Binary64.ceil
|}.

(** *** Exact real arithmetic *)

Module Exact.

Definition eqb (x y : R) : bool := if Req_dec_T x y then true else false.
Definition ltb (x y : R) : bool := if Rlt_dec x y then true else false.

(** The least integer not below [x]. Every integer is an index in this
    reading: the refusal of a length that fits no 64-bit index, which
    [Binary64.ceil] has, is an overflow of the machine. *)
Definition ceil (x : R) : Z := (1 - up (- x))%Z.

(** 2^-52. *)
Definition eps : R := (/ 2 ^ 52)%R.

End Exact.

#[export] Instance exact_real : Numeric R := {|
  num_zero := 0%R;
  num_one := 1%R;
  num_tenth := (1 / 10)%R;
  num_eps := Exact.eps;
  num_add := Rplus;
  num_sub := Rminus;
  num_mul := Rmult;
  num_div := Rdiv;
  num_sqrt := R_sqrt.sqrt;
  num_pow := Rpower;
  num_eqb := Exact.eqb;
  num_ltb := Exact.ltb;
  num_of_nat := INR;
  num_ceil := fun x => Some (Exact.ceil x)
|}.

(** ** interpolate.py *)

(** A row of the station table: the columns ['lon'], ['lat'], ['value']. *)
Record sample (N : Type) : Type := Sample { lon : N; lat : N; value : N }.
Arguments Sample {N} _ _ _.
Arguments lon {N} _.
Arguments lat {N} _.
Arguments value {N} _.

(** What [interpolate_idw_point] returns: [np.nan] when the data is
    insufficient, the interpolated value otherwise. *)
Inductive estimate (N : Type) : Type :=
  | NoEstimate
  | Estimate (v : N).
Arguments NoEstimate {N}.
Arguments Estimate {N} _.

(** What [interpolate_idw] does: it returns [(None, None, None)], or the
    three meshes, or an exception of [np.arange] or of an index leaves it.
    A cell of the value mesh is [None] while it holds the [np.nan] that
    [np.full_like] put there, and [Some v] once [v] was assigned to it. *)
Inductive grid_result (N : Type) : Type :=
  | NoGrid
  | Grid (grid_lon grid_lat : list (list N)) (grid_values : list (list (option N)))
  | Raised.
Arguments NoGrid {N}.
Arguments Grid {N} _ _ _.
Arguments Raised {N}.

(** [g[i, j]] and [g[i, j] = x] on a two-dimensional array; out of range
    both raise IndexError ([None]). *)
Definition get_cell {A : Type} (g : list (list A)) (i j : nat) : option A :=
  row ← g !! i; row !! j.

Definition set_cell {A : Type} (g : list (list A)) (i j : nat) (x : A)
    : option (list (list A)) :=
  row ← g !! i;
  if decide (j < length row) then Some (<[i := <[j := x]> row]> g) else None.

(** [for k in range(n): s = body(k, s)], where the body may raise. *)
Definition for_range {S : Type} (n : nat) (body : nat -> S -> option S) (s : S)
    : option S :=
  fold_left (fun acc k => acc ≫= body k) (seq 0 n) (Some s).

Section IDW.
Context {N : Type} {num : Numeric N}.
Local Open Scope num_scope.

(** [x ** 2] with the integer exponent 2, and [Math.pow(x, 2)]: the
    product of [x] with itself, also for a negative [x]. *)
Definition square (x : N) : N := x * x.

Definition two : N := num_one + num_one.

(** [np.sum] of a one-dimensional array of floats. numpy adds fewer than
    eight entries up from 0, one after the other. Eight entries and more
    it adds in blocks (its pairwise summation): an array of more than 128
    entries is split in two parts, the first one a multiple of 8 long,
    which are summed apart and added; a block of 8 to 128 entries is
    summed into eight running sums, the entry [i] going to the sum
    [i mod 8], which are added as a tree before the entries beyond the
    last multiple of 8 are added one after the other. The sum of the
    blocks is added to the 0 that the reduction starts from. *)
Fixpoint add_rows (r a : list N) (rows : nat) : list N * list N :=
  match rows with
  | O => (r, a)
  | S rows => add_rows (zip_with num_add r (take 8 a)) (drop 8 a) rows
  end.

Definition block_sum (a : list N) : N :=
  let '(r, rest) := add_rows (take 8 a) (drop 8 a) (length a / 8 - 1)%nat in
  match r with
  | [r0; r1; r2; r3; r4; r5; r6; r7] =>
      fold_left num_add rest (((r0 + r1) + (r2 + r3)) + ((r4 + r5) + (r6 + r7)))
  | _ => num_zero                                  (* a block has 8 entries at least *)
  end.

(** The recursion on the halves, with the length of the array as fuel:
    each half is shorter than the array. *)
Fixpoint pairwise_sum (fuel : nat) (a : list N) : N :=
  match fuel with
  | S fuel =>
      if (128 <? length a)%nat then
        let n2 := (length a / 2 - (length a / 2) mod 8)%nat in
        pairwise_sum fuel (take n2 a) + pairwise_sum fuel (drop n2 a)
      else block_sum a
  | O => block_sum a
  end.

Definition np_sum (a : list N) : N :=
  if (length a <? 8)%nat then fold_left num_add a num_zero
  else num_zero + pairwise_sum (length a) a.

(** [Series.min()] and [Series.max()] of a column with first entry [x]
    (a column without NaN: [fetch_latest_pm25] drops the rows that have
    one). *)
Definition series_min (x : N) (rest : list N) : N :=
  fold_left (fun m y => if y <? m then y else m) rest x.
Definition series_max (x : N) (rest : list N) : N :=
  fold_left (fun m y => if m <? y then y else m) rest x.

(** [np.arange(start, stop, step)] for a finite step:
    ceil((stop - start) / step) entries (none when that is not positive);
    entry 0 is [start], entry 1 is [start + step], and entry [k] is
    [start + k * delta] for the step [delta = (start + step) - start] that
    numpy reads back from the first two entries. numpy raises ValueError
    ([None]) when the quotient has no ceiling that fits an index: for a
    step of zero, where the quotient is infinite or NaN, and for a step so
    small that the number of entries is too large. (An infinite step, for
    which numpy has a rule of its own, is outside the model.) *)
Definition arange (start stop step : N) : option (list N) :=
  if step =? num_zero then None else
  len ← num_ceil ((stop - start) / step);
  let next := start + step in
  let delta := next - start in
  Some (map (fun k => match k with
                      | O => start
                      | S O => next
                      | _ => start + num_of_nat k * delta
                      end)
            (seq 0 (Z.to_nat len))).

(** [np.meshgrid(lons, lats)]: both meshes have one row per latitude and
    one column per longitude. *)
Definition meshgrid (lons lats : list N) : list (list N) * list (list N) :=
  (map (fun _ => lons) lats, map (fun la => map (fun _ => la) lons) lats).

Definition interpolate_idw (data : list (sample N)) (grid_resolution power : N)
    : grid_result N :=
  match data with
  | [] => NoGrid                                   (* data.empty *)
  | first :: rest =>
      if (length data <? 3)%nat then NoGrid
      else
        let lon_min := series_min (lon first) (map lon rest) - num_tenth in
        let lon_max := series_max (lon first) (map lon rest) + num_tenth in
        let lat_min := series_min (lat first) (map lat rest) - num_tenth in
        let lat_max := series_max (lat first) (map lat rest) + num_tenth in
        match arange lon_min lon_max grid_resolution,
              arange lat_min lat_max grid_resolution with
        | Some lons, Some lats =>
            let '(grid_lon, grid_lat) := meshgrid lons lats in
            let points := map (fun s => (lon s, lat s)) data in
            let values := map value data in
            let grid_values := map (map (fun _ => @None N)) grid_lon in
            let filled :=
              for_range (length lats) (fun i grid_values =>
                for_range (length lons) (fun j grid_values =>
                  query_lon ← get_cell grid_lon i j;
                  query_lat ← get_cell grid_lat i j;
                  let dists :=
                    map (fun p => num_sqrt (square (p.1 - query_lon)
                                            + square (p.2 - query_lat))) points in
                  let dists := map (fun d => if d =? num_zero then num_eps else d) dists in
                  let weights := map (fun d => num_one / d ** power) dists in
                  set_cell grid_values i j
                    (Some (np_sum (zip_with num_mul weights values) / np_sum weights)))
                  grid_values)
                grid_values in
            match filled with
            | Some grid_values => Grid grid_lon grid_lat grid_values
            | None => Raised
            end
        | _, _ => Raised
        end
  end.

Definition interpolate_idw_point (data : list (sample N))
    (query_lon query_lat power : N) : estimate N :=
  match data with
  | [] => NoEstimate                               (* data.empty *)
  | _ :: _ =>
      if (length data <? 3)%nat then NoEstimate
      else
        let points := map (fun s => (lon s, lat s)) data in
        let values := map value data in
        let dists :=
          map (fun p => num_sqrt (square (p.1 - query_lon)
                                  + square (p.2 - query_lat))) points in
        let dists := map (fun d => if d =? num_zero then num_eps else d) dists in
        let weights := map (fun d => num_one / d ** power) dists in
        Estimate (np_sum (zip_with num_mul weights values) / np_sum weights)
  end.

(** The click handler of the page ([js_code] in app.py): the estimate
    [pm25] at the clicked point, from the stations serialised into the
    script, with the exponent fixed to 2. *)
Definition js_pm25 (stations : list (sample N)) (lat_ lng : N) : N :=
  let power := two in
  let '(sum_weights, sum_weighted_values) :=
    fold_left (fun '(sum_weights, sum_weighted_values) s =>
                 let dist := num_sqrt (square (lon s - lng) + square (lat s - lat_)) in
                 let dist := if dist =? num_zero then num_eps else dist in
                 let weight := num_one / dist ** power in
                 (sum_weights + weight, sum_weighted_values + weight * value s))
              stations (num_zero, num_zero) in
  sum_weighted_values / sum_weights.

End IDW.

(** ** app.py: the classifier *)

(** The exceptions that the modelled builtins raise. *)
Inductive py_exn : Type := ValueError | TypeError | OverflowError | UnhashableParamError.

(** A call returns a value or an exception leaves it. *)
Inductive outcome (A : Type) : Type :=
  | Return (a : A)
  | Raise (e : py_exn).
Arguments Return {A} _.
Arguments Raise {A} _.

(** The Python objects a caller can hand to [pm25_to_aqi]. *)
Inductive py_value : Type :=
  | PyNone
  | PyFloat (x : float)              (* float and numpy.float64, NaN included *)
  | PyInt (z : Z)
  | PyStr (s : string)
  | PyOther (hashable : bool).       (* neither a number nor a string; whether Streamlit's
                                        cache can hash the object: not so for object() *)

(** The category that the message returned by [get_aqi_alert] names. *)
Inductive alert : Type :=
  | Good                             (* "Good: Air quality is satisfactory. ..." *)
  | Moderate                         (* "Moderate: Air quality acceptable. ..." *)
  | UnhealthySensitive               (* "Unhealthy for Sensitive: Reduce outdoor activity ..." *)
  | Unhealthy.                       (* "Unhealthy: Potential health effects for everyone. ..." *)

Definition is_nan (x : float) : bool := negb (PrimFloat.eqb x x).

Section Classifier.
(** Python's reading of a string as a float literal ([None] where
    [float(s)] raises ValueError); the parser is a builtin, not code of
    the repository. *)
Variable parse_float : string -> option float.

Local Open Scope float_scope.

(** [float(v)]. *)
Definition py_float (v : py_value) : outcome float :=
  match v with
  | PyFloat x => Return x
  | PyInt z =>
      let x := SF2Prim (binary_normalize prec emax z 0 false) in
      if Binary64.is_finite x then Return x else Raise OverflowError
  | PyStr s =>
      match parse_float s with
      | Some x => Return x
      | None => Raise ValueError
      end
  | PyNone | PyOther _ => Raise TypeError
  end.

(** [int(x)] of a float: truncation; NaN raises ValueError, an infinity
    OverflowError. *)
Definition py_int (x : float) : outcome Z :=
  match Binary64.trunc x with
  | Some z => Return z
  | None => if is_nan x then Raise ValueError else Raise OverflowError
  end.

(** The decorator [@st.cache_data]: before the body of the function runs,
    Streamlit hashes the argument to look the call up in its cache, and
    raises UnhashableParamError for an argument that it cannot hash. A
    call that is found returns what the body returned. *)
Definition st_cache_data {A : Type} (f : py_value -> outcome A) (v : py_value) : outcome A :=
  match v with
  | PyOther false => Raise UnhashableParamError
  | _ => f v
  end.

(** [pm25_to_aqi], decorated. *)
Definition pm25_to_aqi : py_value -> outcome Z :=
  st_cache_data (fun pm25 =>
  let try :=
    match py_float pm25 with
    | Raise e => Raise e
    | Return pm25 =>
        if pm25 <=? 12 then py_int ((50 / 12) * pm25)
        else if pm25 <=? 35.4 then py_int (50 + (50 / 23.4) * (pm25 - 12.1))
        else if pm25 <=? 55.4 then py_int (100 + (50 / 20) * (pm25 - 35.5))
        else if pm25 <=? 150.4 then py_int (150 + (50 / 95) * (pm25 - 55.5))
        else Return 201%Z
    end in
  match try with
  | Raise ValueError | Raise TypeError => Return 0%Z   (* except (ValueError, TypeError) *)
  | r => r
  end).

End Classifier.

Definition get_aqi_alert (aqi : Z) : alert :=
  if (aqi <=? 50)%Z then Good
  else if (aqi <=? 100)%Z then Moderate
  else if (aqi <=? 150)%Z then UnhealthySensitive
  else Unhealthy.

(** ** app.py: the embedded click handler *)

Module JS.
Local Open Scope float_scope.

(** [Math.round]: the closest integer, a tie going toward +infinity;
    NaN, the infinities and the zeros are returned as they are. *)
Definition Math_round (x : float) : float :=
  match Prim2SF x with
  | S754_finite s m e =>
      if (0 <=? e)%Z then x
      else
        let n := if s then Z.neg m else Z.pos m in
        let r := ((2 * n + 2 ^ (- e)) / 2 ^ (- e + 1))%Z in
        if (r =? 0)%Z then (if s then (-0) else 0) else Binary64.of_Z r
  | _ => x
  end.

Definition aqi (pm25 : float) : float :=
  if pm25 <=? 12 then Math_round ((50 / 12) * pm25)
  else if pm25 <=? 35.4 then Math_round (50 + (50 / 23.4) * (pm25 - 12.1))
  else if pm25 <=? 55.4 then Math_round (100 + (50 / 20) * (pm25 - 35.5))
  else if pm25 <=? 150.4 then Math_round (150 + (50 / 95) * (pm25 - 55.5))
  else 201.

Definition alert_of (aqi : float) : alert :=
  if aqi <=? 50 then Good
  else if aqi <=? 100 then Moderate
  else if aqi <=? 150 then UnhealthySensitive
  else Unhealthy.

(** What the popup of a click that is not on a marker shows. *)
Inductive popup : Type :=
  | NoData                                         (* isNaN(pm25) *)
  | Reading (aqi pm25 : float) (a : alert).

Definition on_click (stations : list (sample float)) (lat_ lng : float) : popup :=
  let pm25 := js_pm25 stations lat_ lng in
  let aqi := aqi pm25 in
  let alert := alert_of aqi in
  if is_nan pm25 then NoData else Reading aqi pm25 alert.

End JS.

(** ** visualize.py *)

Inductive color : Type := green | yellow | orange | red.

(** [get_color] and [get_alert]: [create_map] defines both three times,
    with the same text, before it places the station markers. The messages
    of [get_alert] are those of [get_aqi_alert], character for character. *)
Definition get_color (aqi : Z) : color :=
  if (aqi <=? 50)%Z then green
  else if (aqi <=? 100)%Z then yellow
  else if (aqi <=? 150)%Z then orange
  else red.

Definition get_alert (aqi : Z) : alert :=
  if (aqi <=? 50)%Z then Good
  else if (aqi <=? 100)%Z then Moderate
  else if (aqi <=? 150)%Z then UnhealthySensitive
  else Unhealthy.

(** A row of the station frame: the columns ['lat'], ['lon'], ['value']
    and ['datetime'] that [fetch_latest_pm25] returns, and the columns
    ['aqi'] and ['station_name'], which [create_map] reads with [row.get]
    and a default, so that a frame may lack them. *)
Record station_row : Type := StationRow {
  row_lat : float;
  row_lon : float;
  row_value : float;
  row_datetime : string;
  row_aqi : option Z;
  row_station_name : option string
}.

(** The columns ['lon'], ['lat'], ['value'] of a row. *)
Definition row_sample (row : station_row) : sample float :=
  Sample (row_lon row) (row_lat row) (row_value row).

(** The fields that the popup of a station marker prints. *)
Record station_popup : Type := StationPopup {
  popup_station : string;
  popup_aqi : Z;
  popup_pm25 : float;
  popup_alert : alert;
  popup_lat : float;
  popup_lon : float;
  popup_time : string
}.

Inductive marker : Type :=
  | Marker (location : float * float) (popup : string)
  | CircleMarker (location : float * float) (radius : Z) (c : color) (popup : station_popup).

(** The three maps that [create_map] builds: the default map centred on
    Kathmandu (line 25), the map over the grid with station markers only
    (line 84), and the map with the contour image laid over the grid. *)
Inductive layout : Type :=
  | DefaultMap
  | StationsOnly
  | Contours (levels : list float) (img_bounds : (float * float) * (float * float)).

Record folium_map : Type := FoliumMap {
  map_layout : layout;
  map_markers : list marker;
  map_fit : (float * float) * (float * float)    (* m.fit_bounds(bounds) *)
}.

(** [np.all(np.isnan(a))] and [a[~np.isnan(a)]] on a two-dimensional
    array. *)
Definition np_all_isnan (a : list (list float)) : bool := forallb (forallb is_nan) a.
Definition np_not_nan (a : list (list float)) : list float :=
  List.filter (fun v => negb (is_nan v)) (concat a).

(** [np.max] and [np.min] of an array, entry after entry: a NaN, once
    met, is kept; an empty array raises ValueError ([None]). *)
Definition np_max (a : list float) : option float :=
  match a with
  | [] => None
  | x :: rest =>
      Some (fold_left (fun acc y => if PrimFloat.leb y acc || is_nan acc then acc else y) rest x)
  end.
Definition np_min (a : list float) : option float :=
  match a with
  | [] => None
  | x :: rest =>
      Some (fold_left (fun acc y => if PrimFloat.leb acc y || is_nan acc then acc else y) rest x)
  end.

(** Python's [max(a, b)] of two numbers: [b] where [b > a], else [a]. *)
Definition py_max (a b : float) : float := if PrimFloat.ltb a b then b else a.

(** The loop [for _, row in data.iterrows(): folium.CircleMarker(...)]. *)
Definition station_markers (data : list station_row) : list marker :=
  map (fun row =>
         let aqi := default 0%Z (row_aqi row) in                      (* row.get('aqi', 0) *)
         let pm25 := row_value row in
         let station_name := default "Unknown Station"%string (row_station_name row) in
         let timestamp := row_datetime row in
         CircleMarker (row_lat row, row_lon row) 6 (get_color aqi)
           (StationPopup station_name aqi pm25 (get_alert aqi)
                         (row_lat row) (row_lon row) timestamp))
      data.

Section CreateMap.
(** Whether matplotlib draws and saves the contour image (lines 133 to
    153: [ax.contourf(grid_lon, grid_lat, grid_values, levels=levels)],
    [plt.savefig]) without an exception; matplotlib is not code of the
    repository. *)
Variable contourf_accepts :
  list (list float) -> list (list float) -> list (list float) -> list float -> bool.

(** [create_map] with [center=None], as app.py calls it. Of the map it
    records the layout, the markers and the fitted bounds; the legend it
    returns beside the map is a constant string. [None]: an exception
    leaves the function. *)
Definition create_map (grid_lon grid_lat grid_values : option (list (list float)))
    (data : list station_row) (bbox : float * float * float * float)
    : option folium_map :=
  let '(bbox0, bbox1, bbox2, bbox3) := bbox in
  let bounds := ((bbox1, bbox0), (bbox3, bbox2)) in
  let default_map :=
    match data, grid_lon, grid_values with
    | [], _, _ => true                                   (* data.empty *)
    | _, None, _ => true                                 (* grid_lon is None *)
    | _, _, None => true                                 (* grid_values is None *)
    | _, Some _, Some grid_values => np_all_isnan grid_values
    end in
  if default_map then
    Some (FoliumMap DefaultMap
            match data with
            | [] => [Marker (27.7, 85.3)%float "No data available"]
            | _ => station_markers data
            end
            bounds)
  else
    match grid_lon, grid_lat, grid_values with
    | Some grid_lon, Some grid_lat, Some grid_values =>
        let valid_values := np_not_nan grid_values in
        if (length valid_values =? 0)%nat then
          Some (FoliumMap StationsOnly (station_markers data) bounds)
        else
          max_value ←
            (if (0 <? length valid_values)%nat
             then m ← np_max valid_values; Some (py_max m 55.4 + 1)%float
             else Some 200%float);
          let levels := [0; 12; 35.4; 55.4; max_value]%float in
          if contourf_accepts grid_lon grid_lat grid_values levels then
            lon_min ← np_min (concat grid_lon);
            lon_max ← np_max (concat grid_lon);
            lat_min ← np_min (concat grid_lat);
            lat_max ← np_max (concat grid_lat);
            let img_bounds := ((lat_min, lon_min), (lat_max, lon_max)) in
            Some (FoliumMap (Contours levels img_bounds) (station_markers data) bounds)
          else None
    | _, _, _ => None                                    (* grid_lat.mean() of None *)
    end.

End CreateMap.

(** ** fetch_data.py *)

(** An entry of the ['results'] of the API, as far as the function reads
    it, for a response that follows the schema of the API: every entry has
    the three keys; ['coordinates'] is an object with the members
    ['latitude'] and ['longitude'], each a number or null, or it is not an
    object ([None]); ['datetime'] is an object with the member ['utc'], a
    string or null, or it is not an object; ['value'] is a number, read as
    the binary64 float it is used as, or it is not one. (A body outside the
    schema, such as an object without ['latitude'], makes the function
    raise KeyError; the type has no such body.) *)
Record measurement : Type := Measurement {
  m_coordinates : option (option float * option float);
  m_datetime : option (option string);
  m_value : option float
}.

(** What the request gives: an exception of [requests] (no connection, a
    timeout, an error status), or the decoded body, whose key ['results']
    may be missing. *)
Inductive response : Type :=
  | RequestException
  | Body (results : option (list measurement)).

(** A cell that [dropna] takes for missing: [None] or NaN. *)
Definition isna (x : option float) : bool :=
  match x with
  | Some v => is_nan v
  | None => true
  end.

(** [fetch_latest_pm25(bbox)], as a function of the response to its
    request. (The module reads the API key when it is imported and raises
    ValueError without one; the function is what follows.) *)
Definition fetch_latest_pm25 (bbox : option (float * float * float * float)) (r : response)
    : list station_row :=
  match r with
  | RequestException => []
  | Body None => []                                      (* 'results' not in data *)
  | Body (Some []) => []                                 (* not data['results'] *)
  | Body (Some results) =>
      let df :=
        map (fun x =>
               let lat := c ← m_coordinates x; c.1 in   (* x['latitude'] if isinstance(x, dict) else None *)
               let lon := c ← m_coordinates x; c.2 in
               let datetime := d ← m_datetime x; d in   (* x['utc'] if isinstance(x, dict) else None *)
               let value := m_value x in                (* x if isinstance(x, (int, float)) else None *)
               (lat, lon, value, datetime))
            results in
      let df :=                                          (* df[[...]].dropna() *)
        omap (fun '(lat, lon, value, datetime) =>
                if isna lat || isna lon || isna value then None
                else
                  lat ← lat; lon ← lon; value ← value; datetime ← datetime;
                  Some (StationRow lat lon value datetime None None))
             df in
      match bbox with
      | Some (min_lon, min_lat, max_lon, max_lat) =>
          List.filter (fun row =>
                         PrimFloat.leb min_lon (row_lon row) && PrimFloat.leb (row_lon row) max_lon
                         && PrimFloat.leb min_lat (row_lat row)
                         && PrimFloat.leb (row_lat row) max_lat)
                      df
      | None => df
      end
  end.

(** ** app.py: the script *)

Section Resolution.
Context {N : Type} {num : Numeric N}.
Local Open Scope num_scope.

(** A decimal literal [n/d] of the source: the quotient of the two
    integers, which in binary64 is the float the literal denotes. *)
Definition decimal (n d : nat) : N := num_of_nat n / num_of_nat d.

(** Lines 67 to 75: the grid resolution for a bounding box
    (min_lon, min_lat, max_lon, max_lat). *)
Definition grid_resolution (bbox : N * N * N * N) : N :=
  let '(bbox0, bbox1, bbox2, bbox3) := bbox in
  let lon_span := bbox2 - bbox0 in
  let lat_span := bbox3 - bbox1 in
  let area_span := if lon_span <? lat_span then lat_span else lon_span in   (* max(lon_span, lat_span) *)
  if area_span <? num_one then decimal 5 1000                              (* 0.005 *)
  else if area_span <? num_of_nat 5 then decimal 2 100                      (* 0.02 *)
  else decimal 5 100.                                                       (* 0.05 *)

End Resolution.

Definition REGIONS : list (string * (float * float * float * float)) :=
  [("London, UK"%string, (-0.5, 51.3, 0.3, 51.7)%float);
   ("Delhi, India"%string, (76.8, 28.4, 77.4, 28.9)%float);
   ("New York City, USA"%string, (-74.3, 40.5, -73.7, 40.9)%float);
   ("Houston, USA"%string, (-95.8, 29.5, -95.0, 30.0)%float)].

(** [REGIONS[name]]; [None] is the KeyError. *)
Definition region_bbox (name : string) : option (float * float * float * float) :=
  snd <$> List.find (fun entry => String.eqb (fst entry) name) REGIONS.

Definition REFRESH_INTERVAL : float := 300.

(** The map that the page shows: the one of [create_map] with the click
    handler that the script adds to it, which carries the stations. *)
Record page_map : Type := PageMap {
  base_map : folium_map;
  click_stations : option (list (sample float))
}.

(** [st.session_state], once the script has put its keys there. *)
Module SessionState.
Record t : Type := Make {
  last_update : float;
  map : option page_map;
  data : list station_row;
  selected_region : option string;
  grid_lon : option (list (list float));
  grid_lat : option (list (list float));
  grid_values : option (list (list float))
}.
End SessionState.

(** What the refresh shows: [st.error] for no data, [st.warning],
    [st.success], and the [st.error] of the [except Exception] clause. *)
Inductive message : Type :=
  | NoDataError
  | InsufficientWarning
  | InterpolatedSuccess
  | UpdateError.

(** A cell of the value mesh as the float it holds. *)
Definition cell_float (c : option float) : float := default nan c.

(** The triple that [interpolate_idw] returns, as Python values. *)
Definition grid_triple (result : grid_result float)
    : option (list (list float)) * option (list (list float)) * option (list (list float)) :=
  match result with
  | Grid grid_lon grid_lat grid_values =>
      (Some grid_lon, Some grid_lat, Some (map (map cell_float) grid_values))
  | _ => (None, None, None)
  end.

Section Script.
Variable parse_float : string -> option float.
Variable contourf_accepts :
  list (list float) -> list (list float) -> list (list float) -> list float -> bool.

(** [data['aqi'] = data['value'].apply(pm25_to_aqi)]; [None]: an
    exception leaves [pm25_to_aqi]. *)
Definition with_aqi (data : list station_row) : option (list station_row) :=
  mapM (fun row =>
          match pm25_to_aqi parse_float (PyFloat (row_value row)) with
          | Return aqi =>
              Some (StationRow (row_lat row) (row_lon row) (row_value row) (row_datetime row)
                               (Some aqi) (row_station_name row))
          | Raise _ => None
          end)
       data.

(** Lines 78 to 85: the session state of a new session. *)
Definition new_session : SessionState.t :=
  SessionState.Make 0 None [] None None None None.

(** Lines 96 to 201: the body of [if time.time() - last_update >
    REFRESH_INTERVAL], given the response to the request of
    [fetch_latest_pm25] and the time [now'] of line 198. *)
Definition refresh (st : SessionState.t) (bbox : float * float * float * float)
    (grid_resolution : float) (now' : float) (r : response)
    : SessionState.t * list message :=
  match fetch_latest_pm25 (Some bbox) r with
  | [] => (st, [NoDataError])                                 (* data.empty *)
  | data =>
      match with_aqi data with
      | None => (st, [UpdateError])
      | Some data =>
          match interpolate_idw (map row_sample data) grid_resolution 2%float with
          | Raised => (st, [UpdateError])
          | result =>
              let '(grid_lon, grid_lat, grid_pm25) := grid_triple result in
              let shown :=
                match grid_lon, grid_pm25 with
                | Some _, Some grid_pm25 =>
                    if np_all_isnan grid_pm25 then InsufficientWarning else InterpolatedSuccess
                | _, _ => InsufficientWarning
                end in
              match create_map contourf_accepts grid_lon grid_lat grid_pm25 data bbox with
              | None => (st, [shown; UpdateError])
              | Some m =>
                  let m :=
                    PageMap m match data with                 (* if not data.empty *)
                              | [] => None
                              | _ => Some (map row_sample data)
                              end in
                  (SessionState.Make now' (Some m) data (SessionState.selected_region st)
                                     grid_lon grid_lat grid_pm25,
                   [shown])
              end
          end
      end
  end.

(** One run of the script, down to the refresh: the session state it
    leaves and the messages it shows. [st] is [None] in a session that
    has no state yet; [now] is the time of line 95; [None]: the KeyError
    of [REGIONS[selected_region]]. *)
Definition run_script (st : option SessionState.t) (selected_region : string)
    (now now' : float) (r : response) : option (SessionState.t * list message) :=
  bbox ← region_bbox selected_region;
  let grid_resolution := grid_resolution bbox in
  let st := default new_session st in                    (* 'last_update' not in st.session_state *)
  let st :=
    if match SessionState.selected_region st with
       | Some name => negb (String.eqb name selected_region)
       | None => true
       end
    then SessionState.Make 0 (SessionState.map st) (SessionState.data st) (Some selected_region)
                           (SessionState.grid_lon st) (SessionState.grid_lat st)
                           (SessionState.grid_values st)
    else st in
  if PrimFloat.ltb REFRESH_INTERVAL (now - SessionState.last_update st)
  then Some (refresh st bbox grid_resolution now' r)
  else Some (st, []).

(** Lines 248 to 250: the button sets [last_update] to 0 and the script
    runs again. *)
Definition refresh_now (st : SessionState.t) : SessionState.t :=
  SessionState.Make 0 (SessionState.map st) (SessionState.data st)
                    (SessionState.selected_region st)
                    (SessionState.grid_lon st) (SessionState.grid_lat st)
                    (SessionState.grid_values st).

(** The session states that runs of the script and presses of the button
    lead to. *)
Inductive reachable : option SessionState.t -> Prop :=
  | reachable_new : reachable None
  | reachable_run st selected_region now now' r st' shown :
      reachable st ->
      run_script st selected_region now now' r = Some (st', shown) ->
      reachable (Some st')
  | reachable_button st :
      reachable (Some st) -> reachable (Some (refresh_now st)).

End Script.

(** * The vocabulary of the statements *)

(** ** Two-dimensional arrays *)

(** [g] has [rows] rows of [cols] entries each. *)
Definition has_shape {A : Type} (rows cols : nat) (g : list (list A)) : Prop :=
  length g = rows /\ forall i row, g !! i = Some row -> length row = cols.

(** The nested loop that assigns [F i j] to the cell [(i, j)], row by row. *)
Definition fill {A : Type} (rows cols : nat) (F : nat -> nat -> option A)
    (g : list (list A)) : option (list (list A)) :=
  for_range rows (fun i g =>
    for_range cols (fun j g => v ← F i j; set_cell g i j v) g) g.

(** ** The intermediate arrays of the estimators *)

Section IDWTerms.
Context {N : Type} {num : Numeric N}.
Local Open Scope num_scope.

(** The arrays [dists] (after the substitution of zero distances) and
    [weights] of both estimators, and the weighted average they return,
    for the query point [(qlon, qlat)]. *)
Definition idw_dists (data : list (sample N)) (qlon qlat : N) : list N :=
  map (fun d => if d =? num_zero then num_eps else d)
      (map (fun s => num_sqrt (square (lon s - qlon) + square (lat s - qlat))) data).

Definition idw_weights (data : list (sample N)) (qlon qlat power : N) : list N :=
  map (fun d => num_one / d ** power) (idw_dists data qlon qlat).

Definition idw_value (data : list (sample N)) (qlon qlat power : N) : N :=
  np_sum (zip_with num_mul (idw_weights data qlon qlat power) (map value data))
  / np_sum (idw_weights data qlon qlat power).

(** Sums do not depend on the order of the additions: what exact
    arithmetic has and binary64 lacks. *)
Definition exact_sums : Prop :=
  (forall x, num_zero + x = x)
  /\ (forall x y, x + y = y + x)
  /\ (forall x y z, x + (y + z) = (x + y) + z).

(** The bounding envelope of line 23 and 24: (lon_min, lon_max, lat_min,
    lat_max). *)
Definition envelope (first : sample N) (rest : list (sample N)) : N * N * N * N :=
  (series_min (lon first) (map lon rest) - num_tenth,
   series_max (lon first) (map lon rest) + num_tenth,
   series_min (lat first) (map lat rest) - num_tenth,
   series_max (lat first) (map lat rest) + num_tenth).

End IDWTerms.

(** A cell of the value mesh read as a return value of
    [interpolate_idw_point]: a cell that still holds the initial [np.nan]
    reads as the [np.nan] of insufficient data. *)
Definition cell_estimate {N : Type} (c : option N) : estimate N :=
  match c with
  | Some v => Estimate v
  | None => NoEstimate
  end.

(** The meshes of a result (empty where there is none). *)
Definition grid_lon_of {N : Type} (r : grid_result N) : list (list N) :=
  match r with Grid grid_lon _ _ => grid_lon | _ => [] end.
Definition grid_lat_of {N : Type} (r : grid_result N) : list (list N) :=
  match r with Grid _ grid_lat _ => grid_lat | _ => [] end.
Definition grid_values_of {N : Type} (r : grid_result N) : list (list (option N)) :=
  match r with Grid _ _ grid_values => grid_values | _ => [] end.

(** ** Steps and extrema over the reals *)

(** [l] steps from [start] toward [stop] at spacing [step] and ends before
    [stop]: entry [k] is [start + k * step], every entry lies in the
    half-open interval from [start] to [stop], and one more step would
    leave it. *)
Definition half_open_steps (start stop step : R) (l : list R) : Prop :=
  (forall k x, l !! k = Some x ->
     x = (start + INR k * step)%R /\ (start <= x < stop)%R)
  /\ (stop <= start + INR (length l) * step)%R.

(** [m] is the least (greatest) entry of the column [l]. *)
Definition is_min (m : R) (l : list R) : Prop := In m l /\ Forall (fun y => (m <= y)%R) l.
Definition is_max (m : R) (l : list R) : Prop := In m l /\ Forall (fun y => (y <= m)%R) l.

(** ** Comparisons of floats *)

(** [lo <= v <= hi] as floats compare. *)
Definition within (lo hi v : float) : bool :=
  (PrimFloat.leb lo v && PrimFloat.leb v hi)%bool.

(** A float, as the specification of the format reads it, is not a zero. *)
Definition not_zero (x : spec_float) : bool :=
  match x with
  | S754_zero _ => false
  | _ => true
  end.


(** The score before its conversion to an integer, as both [pm25_to_aqi]
    and the script compute it in the four bands up to 150.4; [None] above
    150.4 and for NaN, where both return the fixed 201. *)
Definition score_line (pm25 : float) : option float :=
  if PrimFloat.leb pm25 12 then Some (50 / 12 * pm25)%float
  else if PrimFloat.leb pm25 35.4 then Some (50 + 50 / 23.4 * (pm25 - 12.1))%float
  else if PrimFloat.leb pm25 55.4 then Some (100 + 50 / 20 * (pm25 - 35.5))%float
  else if PrimFloat.leb pm25 150.4 then Some (150 + 50 / 95 * (pm25 - 55.5))%float
  else None.

(** ** Scenarios *)

(** Three stations and a half-degree grid, in binary64 and over the reals
    (the end-to-end scenario of the specification). *)
Definition demo_stations : list (sample float) :=
  [Sample 0 0 10; Sample 1 0 40; Sample 0 1 60]%float.
Definition demo_stations_exact : list (sample R) :=
  [Sample 0 0 10; Sample 1 0 40; Sample 0 1 60]%R.
Definition demo_grid : grid_result float :=
  interpolate_idw demo_stations 0.5%float 2%float.
Definition demo_grid_exact : grid_result R :=
  interpolate_idw demo_stations_exact (1 / 2)%R 2%R.

(** Three stations, the second one 1e-160 degree east of the node (0, 0) of
    the half-degree grid over them. *)
Definition near_node_stations : list (sample float) :=
  [Sample (-0.4) (-0.4) 10; Sample 1e-160 0 40; Sample 0.4 0.4 60]%float.




(** Three stations whose longitudes span 1.1 to 1.2. *)
Definition narrow_stations : list (sample float) :=
  [Sample 1.1 0 10; Sample 1.15 0.1 40; Sample 1.2 0.2 60]%float.

(** ** The order of binary64

    The statements about the classifiers hold for every float. They rest
    on the order of the floats, read off the specification of the
    operations ([SpecFloat]): a float that is no NaN has a value, an
    integer in units of 2^-1074 (the infinities stand at 2^2100 and
    -2^2100, beyond every finite float), floats compare as their values
    do, and an operation returns the rounding of the exact result. *)

(** [n / 2^q] rounded to the nearest integer, ties to even. *)
Definition rne (n q : Z) : Z :=
  let m := (n / 2 ^ q)%Z in
  let r := (n mod 2 ^ q)%Z in
  if (2 * r <? 2 ^ q)%Z then m
  else if (2 ^ q <? 2 * r)%Z then (m + 1)%Z
  else if Z.even m then m else (m + 1)%Z.

(** The float nearest to [n * 2^(u - 1074)], in units of 2^-1074, for
    [n > 0]: 53 bits are kept, fewer below the normal range, and what
    reaches 2^1024 becomes infinity. *)
Definition rnd_pos (u n : Z) : Z :=
  let q := Z.max (Z.log2 n + 1 - 53) (u - 1074) in
  let v := (rne n q * 2 ^ (q - (u - 1074)))%Z in
  if (2 ^ 2098 <=? v)%Z then (2 ^ 2100)%Z else v.

(** The same for every integer: rounding is symmetric. *)
Definition rnd (u z : Z) : Z :=
  match z with
  | Z0 => 0%Z
  | Zpos _ => rnd_pos u z
  | Zneg p => (- rnd_pos u (Zpos p))%Z
  end.

(** The value of a float in units of 2^-1074; NaN has none. *)
Definition SFval (x : spec_float) : option Z :=
  match x with
  | S754_zero _ => Some 0%Z
  | S754_finite s m e => Some (cond_Zopp s (Zpos m * 2 ^ (e + 1074)))%Z
  | S754_infinity s => Some (cond_Zopp s (2 ^ 2100))%Z
  | S754_nan => None
  end.

Definition fval (x : float) : option Z := SFval (Prim2SF x).

(** The position of the bits shifted out of [m0]: [r] is the remainder,
    [p] the weight of the last bit kept. *)
Definition loc_ok (r p : Z) (br bs : bool) : Prop :=
  match br, bs with
  | false, false => r = 0%Z
  | false, true => (0 < 2 * r < p)%Z
  | true, false => (2 * r = p)%Z
  | true, true => (p < 2 * r)%Z
  end.

(** What [j] right shifts of [SpecFloat] leave of [m0]: the quotient, and
    the round and sticky bits that locate the remainder. *)
Definition shr_inv (m0 j : Z) (mrs : shr_record) : Prop :=
  shr_m mrs = (m0 / 2 ^ j)%Z /\ loc_ok (m0 mod 2 ^ j) (2 ^ j) (shr_r mrs) (shr_s mrs).

(** [l <= x <= u] as floats compare. *)
Definition between (l u x : float) : Prop :=
  PrimFloat.leb l x = true /\ PrimFloat.leb x u = true.

(** The largest finite float. *)
Definition max_float : float := 0x1.fffffffffffffp+1023%float.

(** ** The categories of a PM2.5 value *)

(** The largest floats that [pm25_to_aqi] with [get_aqi_alert] reports as
    Good, Moderate and Unhealthy for Sensitive: 12.567999999999998,
    35.89999999999999 and 57.39999999999997. *)
Definition py_good_max : float := 0x1.922d0e5604188p+3%float.
Definition py_moderate_max : float := 0x1.1f33333333332p+5%float.
Definition py_sensitive_max : float := 0x1.cb3333333332fp+5%float.

Definition py_category (pm25 : float) : alert :=
  if PrimFloat.leb pm25 py_good_max then Good
  else if PrimFloat.leb pm25 py_moderate_max then Moderate
  else if PrimFloat.leb pm25 py_sensitive_max then UnhealthySensitive
  else Unhealthy.

(** The largest float on which [pm25_to_aqi] raises OverflowError: about
    -4.31e307. *)
Definition py_overflow_max : float := (-0x1.eb851eb851eb8p+1021)%float.

(** The same three bounds for the embedded script: 12.333999999999998,
    35.699999999999996 and 56.44999999999997. *)
Definition js_good_max : float := 0x1.8ab020c49ba5dp+3%float.
Definition js_moderate_max : float := 0x1.1d99999999999p+5%float.
Definition js_sensitive_max : float := 0x1.c399999999995p+5%float.

Definition js_category (pm25 : float) : alert :=
  if PrimFloat.leb pm25 js_good_max then Good
  else if PrimFloat.leb pm25 js_moderate_max then Moderate
  else if PrimFloat.leb pm25 js_sensitive_max then UnhealthySensitive
  else Unhealthy.

(** The values on which the two classifiers name different categories. *)
Definition categories_differ (pm25 : float) : bool :=
  (PrimFloat.ltb js_good_max pm25 && PrimFloat.leb pm25 py_good_max)
  || (PrimFloat.ltb js_moderate_max pm25 && PrimFloat.leb pm25 py_moderate_max)
  || (PrimFloat.ltb js_sensitive_max pm25 && PrimFloat.leb pm25 py_sensitive_max).

(** ** Maps, frames and the session *)

(** The marker colour of a category. *)
Definition color_of_alert (a : alert) : color :=
  match a with
  | Good => green
  | Moderate => yellow
  | UnhealthySensitive => orange
  | Unhealthy => red
  end.

(** Every entry of [l] is below the next one. *)
Fixpoint strictly_increasing (l : list float) : bool :=
  match l with
  | x :: (y :: _) as rest => PrimFloat.ltb x y && strictly_increasing rest
  | _ => true
  end.

(** The row that a complete entry of the response gives. *)
Definition complete_row (x : measurement) (row : station_row) : Prop :=
  m_coordinates x = Some (Some (row_lat row), Some (row_lon row))
  /\ m_value x = Some (row_value row)
  /\ m_datetime x = Some (Some (row_datetime row))
  /\ row_aqi row = None /\ row_station_name row = None.

(** The row lies in the bounding box (min_lon, min_lat, max_lon, max_lat). *)
Definition inside (bbox : float * float * float * float) (row : station_row) : Prop :=
  let '(min_lon, min_lat, max_lon, max_lat) := bbox in
  between min_lon max_lon (row_lon row) /\ between min_lat max_lat (row_lat row).

Section SessionInvariant.
Variable parse_float : string -> option float.
Variable contourf_accepts :
  list (list float) -> list (list float) -> list (list float) -> list float -> bool.

(** A row of the stored frame: it has its score and no station name, and
    none of its numbers is NaN. *)
Definition stored_row (row : station_row) : Prop :=
  (exists aqi, row_aqi row = Some aqi
               /\ pm25_to_aqi parse_float (PyFloat (row_value row)) = Return aqi)
  /\ row_station_name row = None
  /\ is_nan (row_lat row) = false /\ is_nan (row_lon row) = false
  /\ is_nan (row_value row) = false.

(** What the session state holds between two runs of the script: no map,
    no data and no grid; or a map over the stored frame, which is not
    empty and lies in the box of one of the regions, with the grid that
    [interpolate_idw] builds from the stored frame at resolution 0.005 and
    power 2. *)
Definition session_ok (st : SessionState.t) : Prop :=
  match SessionState.map st with
  | None =>
      SessionState.data st = [] /\ SessionState.grid_lon st = None
      /\ SessionState.grid_lat st = None /\ SessionState.grid_values st = None
  | Some m =>
      SessionState.data st <> []
      /\ Forall stored_row (SessionState.data st)
      /\ click_stations m = Some (map row_sample (SessionState.data st))
      /\ map_markers (base_map m) = station_markers (SessionState.data st)
      /\ exists region bbox,
           region_bbox region = Some bbox
           /\ Forall (inside bbox) (SessionState.data st)
           /\ (SessionState.grid_lon st, SessionState.grid_lat st, SessionState.grid_values st)
              = grid_triple (interpolate_idw (map row_sample (SessionState.data st))
                                             0.005%float 2%float)
           /\ create_map contourf_accepts (SessionState.grid_lon st) (SessionState.grid_lat st)
                         (SessionState.grid_values st) (SessionState.data st) bbox
              = Some (base_map m)
  end.

End SessionInvariant.

(** ** Scenarios *)

(** A response with three complete stations in London, one in Paris, one
    without a longitude and one that is not a measurement. *)
Definition demo_time : string := "2024-05-01T12:00:00Z".
Definition demo_measurement (lat_ lon_ pm25 : float) : measurement :=
  Measurement (Some (Some lat_, Some lon_)) (Some (Some demo_time)) (Some pm25).
Definition demo_response : response :=
  Body (Some [demo_measurement 51.5 (-0.1) 8;
              demo_measurement 51.51 (-0.09) 20;
              demo_measurement 51.49 (-0.11) 40;
              demo_measurement 48.85 2.35 15;
              Measurement (Some (Some 51.52%float, None)) (Some (Some demo_time)) (Some 12%float);
              Measurement None (Some None) (Some nan)]).

(** The session after a first run for London with [demo_response], at a
    time when matplotlib draws the contours. *)
Definition demo_session : SessionState.t :=
  match run_script (fun _ => None) (fun _ _ _ _ => true) None "London, UK"
                   1714564800 1714564801 demo_response with
  | Some (st, _) => st
  | None => new_session
  end.

(** The sample with its value in another unit: [a * value + b]. *)
Definition rescale (a b : R) (s : sample R) : sample R :=
  Sample (lon s) (lat s) (a * value s + b)%R.

(** The weight of one sample for a query point. *)
Definition weight_of (qlon qlat power : R) (s : sample R) : R :=
  let d := R_sqrt.sqrt (square (lon s - qlon)%R + square (lat s - qlat)%R)%R in
  (1 / Rpower (if Exact.eqb d 0%R then Exact.eps else d) power)%R.

(** The page map of [demo_session]. *)
Definition demo_page : page_map :=
  default (PageMap (FoliumMap DefaultMap [] ((0, 0), (0, 0))%float) None)
          (SessionState.map demo_session).

(** Two stations, read exactly. *)
Definition two_stations_exact : list (sample R) := [Sample 0 0 10; Sample 1 0 40]%R.

(** A two by two grid with one cell that holds no number, and one station. *)
Definition demo_grid_lon : list (list float) := [[0; 1]; [0; 1]]%float.
Definition demo_grid_lat : list (list float) := [[0; 0]; [1; 1]]%float.
Definition demo_grid_values : list (list float) := [[10; nan]; [20; 60]]%float.
Definition demo_rows : list station_row :=
  [StationRow 0.5 0.5 20 demo_time (Some 66%Z) None].
Definition demo_bbox : float * float * float * float := (0, 0, 1, 1)%float.

(** The map that [create_map] builds for them when matplotlib draws the
    contours. *)
Definition demo_map : folium_map :=
  default (FoliumMap DefaultMap [] ((0, 0), (0, 0))%float)
    (create_map (fun _ _ _ _ => true) (Some demo_grid_lon) (Some demo_grid_lat)
                (Some demo_grid_values) demo_rows demo_bbox).

(** Four stations in a box of 0.8 by 0.4 degrees, read exactly. *)
Definition demo_box_stations : list (sample R) :=
  [Sample 0 0 10; Sample (8 / 10) 0 40; Sample 0 (4 / 10) 60; Sample (4 / 10) (2 / 10) 25]%R.

(** * Properties *)

(** Behind the gate: rewrite the test [len(data) < 3] to false. *)
Ltac pass_gate :=
  match goal with
  | |- context [(length ?d <? 3)%nat] =>
      replace (length d <? 3)%nat with false
        by (symmetry; apply Nat.ltb_ge; simpl in *; lia)
  end.

(** ** Loops over a two-dimensional array *)

Lemma for_range_S {S : Type} (n : nat) (body : nat -> S -> option S) (s : S) :
  for_range (Datatypes.S n) body s = for_range n body s ≫= body n.
Proof.
  unfold for_range. rewrite seq_S, fold_left_app. reflexivity.
Qed.

Lemma for_range_ext {S : Type} (n : nat) (body body' : nat -> S -> option S) (s : S) :
  (forall k t, k < n -> body k t = body' k t) ->
  for_range n body s = for_range n body' s.
Proof.
  induction n as [|n IH]; intros Hext; [reflexivity|].
  rewrite !for_range_S, IH by (intros; apply Hext; lia).
  destruct (for_range n body' s); simpl; [apply Hext; lia | reflexivity].
Qed.

Lemma get_cell_Some {A : Type} (g : list (list A)) (i j : nat) (x : A) :
  get_cell g i j = Some x <-> exists row, g !! i = Some row /\ row !! j = Some x.
Proof.
  unfold get_cell. destruct (g !! i) as [row|]; simpl.
  - split; [intros; eauto | intros (row' & [= <-] & ?); assumption].
  - split; [discriminate | intros (row' & [=] & _)].
Qed.

Lemma get_cell_lt {A : Type} (rows cols : nat) (g : list (list A)) (i j : nat) :
  has_shape rows cols g -> i < rows -> j < cols -> is_Some (get_cell g i j).
Proof.
  intros [Hlen Hrow] Hi Hj.
  destruct (lookup_lt_is_Some_2 g i) as [row Hr]; [lia|].
  destruct (lookup_lt_is_Some_2 row j) as [x Hx]; [rewrite (Hrow _ _ Hr); lia|].
  exists x. apply get_cell_Some. eauto.
Qed.

Lemma get_cell_bounds {A : Type} (rows cols : nat) (g : list (list A)) (i j : nat) (x : A) :
  has_shape rows cols g -> get_cell g i j = Some x -> i < rows /\ j < cols.
Proof.
  intros [Hlen Hrow] (row & Hr & Hx)%get_cell_Some. split.
  - rewrite <- Hlen. eapply lookup_lt_Some; eassumption.
  - rewrite <- (Hrow _ _ Hr). eapply lookup_lt_Some; eassumption.
Qed.

(** An assignment in range succeeds, keeps the shape, is read back, and
    leaves every other cell as it was. *)
Lemma set_cell_spec {A : Type} (rows cols : nat) (g : list (list A)) (i j : nat) (x : A) :
  has_shape rows cols g -> i < rows -> j < cols ->
  exists g', set_cell g i j x = Some g' /\ has_shape rows cols g'
             /\ get_cell g' i j = Some x
             /\ forall i' j', (i' <> i \/ j' <> j) -> get_cell g' i' j' = get_cell g i' j'.
Proof.
  intros [Hlen Hrow] Hi Hj.
  destruct (lookup_lt_is_Some_2 g i) as [row Hr]; [lia|].
  pose proof (Hrow _ _ Hr) as Hc.
  exists (<[i := <[j := x]> row]> g). unfold set_cell. rewrite Hr; simpl.
  destruct (decide (j < length row)) as [_|Hn]; [|lia].
  split; [reflexivity|]. split; [|split].
  - split; [rewrite length_insert; assumption|].
    intros i' row' Hr'. destruct (decide (i' = i)) as [->|Hne].
    + rewrite list_lookup_insert_eq in Hr' by lia. injection Hr' as <-.
      rewrite length_insert. assumption.
    + rewrite list_lookup_insert_ne in Hr' by congruence. eauto.
  - apply get_cell_Some. exists (<[j := x]> row). split.
    + apply list_lookup_insert_eq. lia.
    + apply list_lookup_insert_eq. lia.
  - intros i' j' Hne. unfold get_cell. destruct (decide (i' = i)) as [->|Hi'].
    + rewrite list_lookup_insert_eq by lia. rewrite Hr. simpl.
      apply list_lookup_insert_ne. destruct Hne; congruence.
    + rewrite list_lookup_insert_ne by congruence. reflexivity.
Qed.

Lemma fill_row_spec {A : Type} (rows cols : nat) (F : nat -> nat -> option A)
    (G : nat -> nat -> A) (i n : nat) (g : list (list A)) :
  has_shape rows cols g -> i < rows -> n <= cols ->
  (forall j, j < cols -> F i j = Some (G i j)) ->
  exists g', for_range n (fun j g => v ← F i j; set_cell g i j v) g = Some g'
             /\ has_shape rows cols g'
             /\ (forall j, j < n -> get_cell g' i j = Some (G i j))
             /\ (forall i' j', (i' <> i \/ n <= j') -> get_cell g' i' j' = get_cell g i' j').
Proof.
  intros Hshape Hi Hn HF. induction n as [|n IH].
  - exists g. repeat split; try apply Hshape; intros; lia.
  - destruct IH as (g1 & Hrun & Hshape1 & Hdone & Hrest); [lia|].
    rewrite for_range_S, Hrun. simpl. rewrite HF by lia. simpl.
    destruct (set_cell_spec rows cols g1 i n (G i n) Hshape1 Hi)
      as (g2 & Hset & Hshape2 & Hget & Hother); [lia|].
    exists g2. split; [assumption|]. split; [assumption|]. split.
    + intros j Hj. destruct (decide (j = n)) as [->|Hne]; [assumption|].
      rewrite Hother by (right; assumption). apply Hdone. lia.
    + intros i' j' Hne. rewrite Hother by (destruct Hne; [left; assumption | right; lia]).
      apply Hrest. destruct Hne; [left; assumption | right; lia].
Qed.

Lemma fill_spec_upto {A : Type} (rows cols : nat) (F : nat -> nat -> option A)
    (G : nat -> nat -> A) (m : nat) (g : list (list A)) :
  has_shape rows cols g -> m <= rows ->
  (forall i j, i < rows -> j < cols -> F i j = Some (G i j)) ->
  exists g', for_range m (fun i g =>
               for_range cols (fun j g => v ← F i j; set_cell g i j v) g) g = Some g'
             /\ has_shape rows cols g'
             /\ (forall i j, i < m -> j < cols -> get_cell g' i j = Some (G i j)).
Proof.
  intros Hshape Hm HF. induction m as [|m IH].
  - exists g. repeat split; try apply Hshape; intros; lia.
  - destruct IH as (g1 & Hrun & Hshape1 & Hdone); [lia|].
    rewrite for_range_S, Hrun. simpl.
    destruct (fill_row_spec rows cols F G m cols g1 Hshape1) as (g2 & Hrow & Hshape2 & Hnew & Hold);
      [lia | lia | intros; apply HF; lia |].
    exists g2. split; [assumption|]. split; [assumption|].
    intros i j Hi Hj. destruct (decide (i = m)) as [->|Hne].
    + apply Hnew. assumption.
    + rewrite Hold by (left; assumption). apply Hdone; lia.
Qed.

(** The loop raises nothing, keeps the shape, and leaves [G i j] in every
    cell. *)
Lemma fill_spec {A : Type} (rows cols : nat) (F : nat -> nat -> option A)
    (G : nat -> nat -> A) (g : list (list A)) :
  has_shape rows cols g ->
  (forall i j, i < rows -> j < cols -> F i j = Some (G i j)) ->
  exists g', fill rows cols F g = Some g' /\ has_shape rows cols g'
             /\ (forall i j, i < rows -> j < cols -> get_cell g' i j = Some (G i j)).
Proof.
  intros Hshape HF. apply fill_spec_upto; [assumption | lia | assumption].
Qed.

(** ** The estimators, unfolded *)

Section IDWFacts.
Context {N : Type} {num : Numeric N}.
Local Open Scope num_scope.

(** Whatever the arithmetic, provided its epsilon is not zero: no distance
    that is weighted compares equal to zero. *)
Lemma idw_dists_nonzero (data : list (sample N)) (qlon qlat : N) :
  (num_eps =? num_zero) = false ->
  Forall (fun d => (d =? num_zero) = false) (idw_dists data qlon qlat).
Proof.
  intros Heps. unfold idw_dists. apply List.Forall_forall.
  intros d (d0 & <- & _)%in_map_iff.
  destruct (d0 =? num_zero) eqn:E; assumption.
Qed.

Lemma interpolate_idw_point_eq (data : list (sample N)) (qlon qlat power : N) :
  interpolate_idw_point data qlon qlat power =
  if (length data <? 3)%nat then NoEstimate else Estimate (idw_value data qlon qlat power).
Proof.
  destruct data as [|s data]; [reflexivity|].
  unfold interpolate_idw_point, idw_value, idw_weights, idw_dists.
  destruct (length (s :: data) <? 3)%nat; [reflexivity|].
  cbv zeta. rewrite (map_map (fun s => (lon s, lat s))). reflexivity.
Qed.

Lemma meshgrid_shape (lons lats : list N) :
  has_shape (length lats) (length lons) (meshgrid lons lats).1
  /\ has_shape (length lats) (length lons) (meshgrid lons lats).2.
Proof.
  unfold meshgrid, has_shape; simpl. rewrite !length_map.
  repeat split; try reflexivity.
  - intros i row Hrow. apply list_lookup_fmap_Some in Hrow as (la & -> & _). reflexivity.
  - intros i row Hrow. apply list_lookup_fmap_Some in Hrow as (la & -> & _).
    apply length_map.
Qed.

Lemma meshgrid_lon (lons lats : list N) (i j : nat) (qlat qlon : N) :
  lats !! i = Some qlat -> lons !! j = Some qlon ->
  get_cell (meshgrid lons lats).1 i j = Some qlon.
Proof.
  intros Hi Hj. apply get_cell_Some. exists lons. split; [|assumption].
  unfold meshgrid; simpl. change (map ?f ?l) with (f <$> l).
  rewrite list_lookup_fmap, Hi. reflexivity.
Qed.

Lemma meshgrid_lat (lons lats : list N) (i j : nat) (qlat qlon : N) :
  lats !! i = Some qlat -> lons !! j = Some qlon ->
  get_cell (meshgrid lons lats).2 i j = Some qlat.
Proof.
  intros Hi Hj. apply get_cell_Some. exists (map (fun _ => qlat) lons). split.
  - unfold meshgrid; simpl. change (map ?f lats) with (f <$> lats).
    rewrite list_lookup_fmap, Hi. reflexivity.
  - change (map ?f lons) with (f <$> lons). rewrite list_lookup_fmap, Hj. reflexivity.
Qed.

(** Behind the three-sample gate, and when both calls of [np.arange]
    return, [interpolate_idw] returns the meshes of [np.meshgrid] and a
    value mesh of the same shape that holds, at every node, the weighted
    average for that node. *)
Lemma interpolate_idw_grid (first : sample N) (rest : list (sample N))
    (grid_resolution power : N) (lons lats : list N) :
  2 <= length rest ->
  arange (envelope first rest).1.1.1 (envelope first rest).1.1.2 grid_resolution = Some lons ->
  arange (envelope first rest).1.2 (envelope first rest).2 grid_resolution = Some lats ->
  exists grid_values,
    interpolate_idw (first :: rest) grid_resolution power
    = Grid (meshgrid lons lats).1 (meshgrid lons lats).2 grid_values
    /\ has_shape (length lats) (length lons) grid_values
    /\ forall i j qlat qlon, lats !! i = Some qlat -> lons !! j = Some qlon ->
         get_cell grid_values i j = Some (Some (idw_value (first :: rest) qlon qlat power)).
Proof.
  intros Hlen Hlons Hlats.
  set (data := first :: rest).
  set (G := fun i j => Some (idw_value data (nth j lons num_zero) (nth i lats num_zero) power)).
  set (g0 := map (map (fun _ => @None N)) (meshgrid lons lats).1).
  assert (Hshape0 : has_shape (length lats) (length lons) g0).
  { subst g0. unfold meshgrid; simpl. split; [rewrite !length_map; reflexivity|].
    intros i row Hrow.
    apply list_lookup_fmap_Some in Hrow as (row' & -> & Hrow').
    apply list_lookup_fmap_Some in Hrow' as (la & -> & _).
    rewrite length_map. reflexivity. }
  destruct (fill_spec (length lats) (length lons) (fun i j => Some (G i j)) G g0 Hshape0)
    as (gv & Hfill & Hshape & Hcells); [reflexivity|].
  exists gv. split; [|split; [assumption|]].
  - subst data. unfold interpolate_idw.
    pass_gate.
    unfold envelope in Hlons, Hlats; simpl in Hlons, Hlats.
    rewrite Hlons, Hlats.
    destruct (meshgrid lons lats) as [grid_lon grid_lat] eqn:Hmesh.
    fold g0 in Hfill. simpl in g0. subst g0.
    match goal with
    | |- match ?loop with _ => _ end = _ => replace loop with (Some gv); [reflexivity|]
    end.
    rewrite <- Hfill. unfold fill.
    apply for_range_ext. intros i g Hi. apply for_range_ext. intros j g' Hj.
    destruct (lookup_lt_is_Some_2 lats i Hi) as [qlat Hqlat].
    destruct (lookup_lt_is_Some_2 lons j Hj) as [qlon Hqlon].
    pose proof (meshgrid_lon lons lats i j qlat qlon Hqlat Hqlon) as Hglon.
    pose proof (meshgrid_lat lons lats i j qlat qlon Hqlat Hqlon) as Hglat.
    rewrite Hmesh in Hglon, Hglat. simpl in Hglon, Hglat.
    rewrite Hglon, Hglat. simpl. subst G. simpl.
    rewrite (nth_lookup_Some _ _ _ _ Hqlon), (nth_lookup_Some _ _ _ _ Hqlat).
    unfold idw_value, idw_weights, idw_dists.
    rewrite (map_map (fun s => (lon s, lat s))). reflexivity.
  - intros i j qlat qlon Hqlat Hqlon.
    rewrite Hcells by (eapply lookup_lt_Some; eassumption).
    subst G. simpl.
    rewrite (nth_lookup_Some _ _ _ _ Hqlon), (nth_lookup_Some _ _ _ _ Hqlat).
    reflexivity.
Qed.

End IDWFacts.

(** ** np.sum *)

Section Sums.
Context {N : Type} {num : Numeric N}.
Local Open Scope num_scope.

Lemma np_sum_short (a : list N) :
  length a < 8 -> np_sum a = fold_left num_add a num_zero.
Proof. intros H. unfold np_sum. apply Nat.ltb_lt in H. rewrite H. reflexivity. Qed.

Lemma halves_shorter (n : nat) :
  128 < n ->
  let n2 := (n / 2 - (n / 2) mod 8)%nat in
  8 <= n2 /\ n2 < n /\ 8 <= n - n2 /\ n - n2 < n.
Proof.
  intros Hn. cbv zeta.
  pose proof (Nat.div_mod_eq n 2) as E. pose proof (Nat.mod_upper_bound n 2 ltac:(lia)) as B.
  pose proof (Nat.mod_upper_bound (n / 2) 8 ltac:(lia)) as B8.
  set (q := (n / 2)%nat) in *. set (m := (q mod 8)%nat) in *. clearbody q m. lia.
Qed.

(** The length of the array is fuel enough: more fuel gives the same sum. *)
Lemma pairwise_sum_fuel (fuel fuel' : nat) (a : list N) :
  length a <= fuel -> length a <= fuel' -> pairwise_sum fuel a = pairwise_sum fuel' a.
Proof.
  revert fuel' a. induction fuel as [|fuel IH]; intros fuel' a H H'.
  - destruct fuel' as [|fuel']; [reflexivity|]. cbn [pairwise_sum].
    replace (128 <? length a)%nat with false by (symmetry; apply Nat.ltb_ge; lia).
    reflexivity.
  - destruct fuel' as [|fuel'].
    + cbn [pairwise_sum].
      replace (128 <? length a)%nat with false by (symmetry; apply Nat.ltb_ge; lia).
      reflexivity.
    + cbn [pairwise_sum]. destruct (Nat.ltb_spec 128 (length a)) as [Hn|Hn]; [|reflexivity].
      destruct (halves_shorter _ Hn) as (_ & H1 & _ & H2). cbv zeta.
      set (n2 := (length a / 2 - (length a / 2) mod 8)%nat) in *.
      f_equal; apply IH; rewrite ?length_take, ?length_drop; lia.
Qed.

Section ExactSums.
Hypothesis Hsums : exact_sums.

Local Notation "'sum_of' l" := (fold_right num_add num_zero l) (at level 10, l at level 9).

Lemma sum_add_0_r (x : N) : x + num_zero = x.
Proof. destruct Hsums as (H0 & Hc & _). rewrite Hc. apply H0. Qed.

Lemma sum_of_app (l1 l2 : list N) : sum_of (l1 ++ l2) = sum_of l1 + sum_of l2.
Proof.
  destruct Hsums as (H0 & _ & Ha).
  induction l1 as [|x l1 IH]; cbn [fold_right app]; [symmetry; apply H0|].
  rewrite IH. apply Ha.
Qed.

Lemma fold_left_sum_of (l : list N) (a : N) : fold_left num_add l a = a + sum_of l.
Proof.
  destruct Hsums as (_ & _ & Ha).
  revert a. induction l as [|x l IH]; intros a; cbn [fold_left fold_right].
  - symmetry. apply sum_add_0_r.
  - rewrite IH. symmetry. apply Ha.
Qed.

Lemma sum_add_swap (a b c d : N) : (a + b) + (c + d) = (a + c) + (b + d).
Proof.
  destruct Hsums as (_ & Hc & Ha).
  rewrite <- (Ha a b (c + d)), (Ha b c d), (Hc b c), <- (Ha c b d), (Ha a c (b + d)).
  reflexivity.
Qed.

Lemma sum_of_zip_with (r t : list N) :
  length r = length t -> sum_of (zip_with num_add r t) = sum_of r + sum_of t.
Proof.
  destruct Hsums as (H0 & _ & _).
  revert t. induction r as [|x r IH]; intros [|y t] Hlen; try discriminate.
  - cbn. symmetry. apply H0.
  - cbn [zip_with fold_right]. rewrite IH by (simpl in Hlen; lia). apply sum_add_swap.
Qed.

Lemma sum_of_take_drop (k : nat) (a : list N) :
  sum_of (take k a) + sum_of (drop k a) = sum_of a.
Proof. rewrite <- sum_of_app, take_drop. reflexivity. Qed.

Lemma add_rows_sum (rows : nat) (r a r' rest : list N) :
  add_rows r a rows = (r', rest) -> length r = 8 -> 8 * rows <= length a ->
  length r' = 8 /\ sum_of r' + sum_of rest = sum_of r + sum_of a.
Proof.
  destruct Hsums as (_ & _ & Ha).
  revert r a. induction rows as [|rows IH]; intros r a Heq Hr Hlen; cbn [add_rows] in Heq.
  - injection Heq as <- <-. auto.
  - assert (Ht : length (take 8 a) = 8) by (rewrite length_take; lia).
    apply IH in Heq as [Hr' Hsum].
    + split; [exact Hr'|]. rewrite Hsum, sum_of_zip_with by lia.
      rewrite <- Ha, sum_of_take_drop. reflexivity.
    + rewrite length_zip_with. lia.
    + rewrite length_drop. lia.
Qed.

Lemma block_sum_exact (a : list N) : 8 <= length a -> block_sum a = sum_of a.
Proof.
  intros Hlen. unfold block_sum.
  destruct (add_rows (take 8 a) (drop 8 a) (length a / 8 - 1)) as [r rest] eqn:Heq.
  apply add_rows_sum in Heq as [Hr Hsum].
  - rewrite sum_of_take_drop in Hsum. rewrite <- Hsum.
    destruct r as [|r0 [|r1 [|r2 [|r3 [|r4 [|r5 [|r6 [|r7 [|]]]]]]]]]; try discriminate.
    rewrite fold_left_sum_of. f_equal. cbn [fold_right]. rewrite sum_add_0_r.
    destruct Hsums as (_ & _ & Ha). rewrite !Ha. reflexivity.
  - rewrite length_take. lia.
  - rewrite length_drop. pose proof (Nat.div_mod_eq (length a) 8).
    set (q := (length a / 8)%nat) in *. clearbody q. lia.
Qed.

Lemma pairwise_sum_exact (fuel : nat) (a : list N) :
  8 <= length a -> pairwise_sum fuel a = sum_of a.
Proof.
  revert a. induction fuel as [|fuel IH]; intros a Hlen; cbn [pairwise_sum].
  - apply block_sum_exact. exact Hlen.
  - destruct (Nat.ltb_spec 128 (length a)) as [Hn|Hn]; [|apply block_sum_exact; exact Hlen].
    destruct (halves_shorter _ Hn) as (H1 & H2 & H3 & _). cbv zeta.
    set (n2 := (length a / 2 - (length a / 2) mod 8)%nat) in *.
    rewrite !IH by (rewrite ?length_take, ?length_drop; lia).
    apply sum_of_take_drop.
Qed.

(** Where sums do not depend on the order, [np.sum] is the sum from 0, one
    entry after the other. *)
Lemma np_sum_exact (a : list N) : np_sum a = fold_left num_add a num_zero.
Proof.
  unfold np_sum. destruct (Nat.ltb_spec (length a) 8) as [|Hlen]; [reflexivity|].
  rewrite pairwise_sum_exact, fold_left_sum_of by exact Hlen. reflexivity.
Qed.

End ExactSums.

(** [np.sum] adds in the order of a loop over the array when the array has
    fewer than eight entries, and when the order does not matter. *)
Lemma np_sum_sequential (a : list N) :
  length a < 8 \/ exact_sums -> np_sum a = fold_left num_add a num_zero.
Proof. intros [H|H]; [apply np_sum_short | apply np_sum_exact]; assumption. Qed.

End Sums.

(** ** Exact arithmetic *)

Section ExactFacts.
Local Open Scope R_scope.

Lemma exact_real_sums : exact_sums (num := exact_real).
Proof. repeat split; intros; simpl; lra. Qed.

Lemma exact_eqb_true (x y : R) : Exact.eqb x y = true <-> x = y.
Proof. unfold Exact.eqb. destruct (Req_dec_T x y); split; congruence. Qed.

Lemma exact_ltb_true (x y : R) : Exact.ltb x y = true <-> x < y.
Proof. unfold Exact.ltb. destruct (Rlt_dec x y); split; intros; congruence || lra. Qed.

Lemma exact_eps_pos : 0 < Exact.eps.
Proof. unfold Exact.eps. apply Rinv_0_lt_compat, pow_lt. lra. Qed.

Lemma fold_left_Rplus (l : list R) (a : R) :
  fold_left Rplus l a = a + fold_left Rplus l 0.
Proof.
  revert a. induction l as [|x l IH]; intros a; simpl; [lra|].
  rewrite (IH (a + x)), (IH (0 + x)). lra.
Qed.

Lemma np_sum_cons (x : R) (l : list R) :
  np_sum (num := exact_real) (x :: l) = x + np_sum (num := exact_real) l.
Proof.
  rewrite !(np_sum_exact exact_real_sums). simpl. rewrite fold_left_Rplus. lra.
Qed.

Lemma np_sum_nil : np_sum (num := exact_real) [] = 0.
Proof. reflexivity. Qed.

(** The substituted distances are positive. *)
Lemma idw_dists_pos (data : list (sample R)) (qlon qlat : R) :
  Forall (fun d => 0 < d) (idw_dists data qlon qlat).
Proof.
  unfold idw_dists. rewrite map_map. apply List.Forall_forall.
  intros d (s & <- & _)%in_map_iff. simpl.
  destruct (Exact.eqb _ 0) eqn:E; [apply exact_eps_pos|].
  match goal with |- 0 < ?d => assert (0 <= d) by apply sqrt_pos;
    assert (d <> 0) by (intros Heq; apply exact_eqb_true in Heq; congruence) end.
  lra.
Qed.

(** A zero distance is replaced by 2^-52, any other distance is kept. *)
Lemma idw_dists_lookup (data : list (sample R)) (qlon qlat : R) (k : nat) (s : sample R) :
  data !! k = Some s ->
  let d := R_sqrt.sqrt ((lon s - qlon) * (lon s - qlon) + (lat s - qlat) * (lat s - qlat)) in
  idw_dists data qlon qlat !! k = Some (if Req_dec_T d 0 then / 2 ^ 52 else d).
Proof.
  intros Hk d. unfold idw_dists. rewrite map_map.
  change (map ?f data) with (f <$> data). rewrite list_lookup_fmap, Hk. simpl.
  unfold Exact.eqb, Exact.eps, square. simpl. fold d.
  destruct (Req_dec_T d 0); reflexivity.
Qed.

Lemma idw_weights_pos (data : list (sample R)) (qlon qlat power : R) :
  Forall (fun w => 0 < w) (idw_weights data qlon qlat power).
Proof.
  unfold idw_weights. apply List.Forall_forall. intros w (d & <- & _)%in_map_iff. simpl.
  apply Rdiv_lt_0_compat; [lra | apply exp_pos].
Qed.

Lemma np_sum_pos (l : list R) :
  l <> [] -> Forall (fun w => 0 < w) l -> 0 < np_sum (num := exact_real) l.
Proof.
  intros Hne Hpos. induction Hpos as [|w l Hw Hl IH]; [congruence|].
  rewrite np_sum_cons. destruct l as [|w' l]; [rewrite np_sum_nil; lra|].
  assert (0 < np_sum (num := exact_real) (w' :: l)) by (apply IH; discriminate). lra.
Qed.

(** A weighted sum with positive weights lies between the extreme values
    times the sum of the weights. *)
Lemma weighted_sum_bounds (lo hi : R) (ws vs : list R) :
  length ws = length vs ->
  Forall (fun w => 0 < w) ws -> Forall (fun v => lo <= v <= hi) vs ->
  lo * np_sum (num := exact_real) ws
    <= np_sum (num := exact_real) (zip_with Rmult ws vs)
    <= hi * np_sum (num := exact_real) ws.
Proof.
  intros Hlen Hws. revert vs Hlen.
  induction Hws as [|w ws Hw Hws IH]; intros [|v vs] Hlen Hvs; try discriminate.
  - simpl. rewrite np_sum_nil. lra.
  - inversion Hvs as [|? ? Hv Hvs']; subst. simpl zip_with.
    rewrite !np_sum_cons. specialize (IH vs ltac:(simpl in Hlen; lia) Hvs'). nra.
Qed.

Lemma idw_value_bounds (lo hi : R) (data : list (sample R)) (qlon qlat power : R) :
  data <> [] -> Forall (fun s => lo <= value s <= hi) data ->
  lo <= idw_value data qlon qlat power <= hi.
Proof.
  intros Hne Hvs. unfold idw_value. simpl.
  pose proof (idw_weights_pos data qlon qlat power) as Hpos.
  assert (Hlen : length (idw_weights data qlon qlat power) = length (map value data)).
  { unfold idw_weights, idw_dists. rewrite !length_map. reflexivity. }
  assert (Hsum : 0 < np_sum (num := exact_real) (idw_weights data qlon qlat power)).
  { apply np_sum_pos; [|assumption]. intros Heq. apply (f_equal length) in Heq.
    rewrite Hlen, length_map in Heq. destruct data; [congruence | discriminate]. }
  assert (Hvs' : Forall (fun v => lo <= v <= hi) (map value data)).
  { apply List.Forall_forall. intros v (s & <- & Hs)%in_map_iff.
    rewrite List.Forall_forall in Hvs. apply Hvs. assumption. }
  destruct (weighted_sum_bounds lo hi _ _ Hlen Hpos Hvs') as [Hlo Hhi].
  set (sw := np_sum (num := exact_real) (idw_weights data qlon qlat power)) in *.
  set (swv := np_sum (num := exact_real) (zip_with Rmult _ _)) in *.
  assert (Hq : swv / sw * sw = swv) by (field; lra).
  split; nra.
Qed.

(** [Series.min()] and [Series.max()] return an entry of the column that
    bounds every entry. *)
Lemma fold_min_spec (x : R) (rest : list R) :
  let m := fold_left (fun m y => if Exact.ltb y m then y else m) rest x in
  In m (x :: rest) /\ Forall (fun y => m <= y) (x :: rest).
Proof.
  revert x. induction rest as [|y rest IH]; intros x.
  - simpl. split; [left; reflexivity | repeat constructor; lra].
  - specialize (IH (if Exact.ltb y x then y else x)).
    cbn [fold_left]. cbv zeta in IH |- *.
    set (m := fold_left _ rest _) in *. destruct IH as [Hin Hall].
    inversion Hall as [|? ? Hhd Htl]; subst.
    destruct (Exact.ltb y x) eqn:E.
    + apply exact_ltb_true in E. split.
      * destruct Hin as [<-|Hin]; [right; left; reflexivity | right; right; assumption].
      * constructor; [lra|]. constructor; assumption.
    + assert (~ y < x) by (intros Hlt; apply exact_ltb_true in Hlt; congruence). split.
      * destruct Hin as [<-|Hin]; [left; reflexivity | right; right; assumption].
      * constructor; [assumption|]. constructor; [lra | assumption].
Qed.

Lemma fold_max_spec (x : R) (rest : list R) :
  let m := fold_left (fun m y => if Exact.ltb m y then y else m) rest x in
  In m (x :: rest) /\ Forall (fun y => y <= m) (x :: rest).
Proof.
  revert x. induction rest as [|y rest IH]; intros x.
  - simpl. split; [left; reflexivity | repeat constructor; lra].
  - specialize (IH (if Exact.ltb x y then y else x)).
    cbn [fold_left]. cbv zeta in IH |- *.
    set (m := fold_left _ rest _) in *. destruct IH as [Hin Hall].
    inversion Hall as [|? ? Hhd Htl]; subst.
    destruct (Exact.ltb x y) eqn:E.
    + apply exact_ltb_true in E. split.
      * destruct Hin as [<-|Hin]; [right; left; reflexivity | right; right; assumption].
      * constructor; [lra|]. constructor; assumption.
    + assert (~ x < y) by (intros Hlt; apply exact_ltb_true in Hlt; congruence). split.
      * destruct Hin as [<-|Hin]; [left; reflexivity | right; right; assumption].
      * constructor; [assumption|]. constructor; [lra | assumption].
Qed.

Lemma series_min_spec (x : R) (rest : list R) :
  In (series_min (num := exact_real) x rest) (x :: rest)
  /\ Forall (fun y => series_min (num := exact_real) x rest <= y) (x :: rest).
Proof. exact (fold_min_spec x rest). Qed.

Lemma series_max_spec (x : R) (rest : list R) :
  In (series_max (num := exact_real) x rest) (x :: rest)
  /\ Forall (fun y => y <= series_max (num := exact_real) x rest) (x :: rest).
Proof. exact (fold_max_spec x rest). Qed.

End ExactFacts.

(** ** np.arange in exact arithmetic *)

Section ArangeFacts.
Local Open Scope R_scope.

Lemma exact_ceil_spec (x : R) : IZR (Exact.ceil x) - 1 < x <= IZR (Exact.ceil x).
Proof.
  unfold Exact.ceil. rewrite minus_IZR. destruct (archimed (- x)) as [H1 H2].
  simpl. lra.
Qed.

Lemma arange_exact (start stop step : R) :
  0 < step ->
  exists l, arange (num := exact_real) start stop step = Some l
            /\ half_open_steps start stop step l.
Proof.
  intros Hstep. unfold arange. simpl.
  replace (Exact.eqb step 0) with false
    by (symmetry; destruct (Exact.eqb step 0) eqn:E; [apply exact_eqb_true in E; lra | reflexivity]).
  set (c := Exact.ceil ((stop - start) / step)).
  destruct (exact_ceil_spec ((stop - start) / step)) as [Hlo Hhi]. fold c in Hlo, Hhi.
  assert (Hq : (stop - start) / step * step = stop - start) by (field; lra).
  eexists. split; [reflexivity|]. split.
  - intros k x Hk. change (map ?f ?l) with (f <$> l) in Hk.
    apply list_lookup_fmap_Some in Hk as (k' & -> & Hk').
    apply lookup_seq in Hk' as [-> Hlt]. simpl in Hlt.
    match goal with
    | |- ?x = _ /\ _ => assert (Hval : x = start + INR k * step)
    end.
    { destruct k as [|[|k]]; [simpl; lra | simpl; lra |].
      change (start + INR (S (S k)) * (start + step - start) = start + INR (S (S k)) * step).
      ring. }
    rewrite Hval. split; [reflexivity|].
    assert (Hk0 : 0 <= INR k) by apply pos_INR.
    assert (Hkc : INR k <= IZR c - 1).
    { assert (Z.of_nat k <= c - 1)%Z as Hz by lia.
      apply IZR_le in Hz. rewrite minus_IZR, <- INR_IZR_INZ in Hz. simpl in Hz. lra. }
    split; nra.
  - rewrite length_map, length_seq.
    destruct (Z_lt_le_dec c 0) as [Hneg|Hpos].
    + replace (Z.to_nat c) with 0%nat by lia. simpl.
      apply IZR_lt in Hneg. nra.
    + rewrite INR_IZR_INZ, Z2Nat.id by assumption. nra.
Qed.

End ArangeFacts.

(** ** The three-sample gate and the grid loop *)

Section GridFacts.
Context {N : Type} {num : Numeric N}.

Lemma gate_passed (data : list (sample N)) :
  3 <= length data -> exists first rest, data = first :: rest /\ 2 <= length rest.
Proof.
  destruct data as [|first rest]; simpl; intros Hlen; [lia|].
  exists first, rest. split; [reflexivity | lia].
Qed.

Lemma interpolate_idw_raised (first : sample N) (rest : list (sample N))
    (grid_resolution power : N) :
  2 <= length rest ->
  arange (envelope first rest).1.1.1 (envelope first rest).1.1.2 grid_resolution = None
  \/ arange (envelope first rest).1.2 (envelope first rest).2 grid_resolution = None ->
  interpolate_idw (first :: rest) grid_resolution power = Raised.
Proof.
  intros Hlen Hnone. unfold interpolate_idw.
  pass_gate.
  unfold envelope in Hnone; simpl in Hnone.
  destruct Hnone as [-> | ->]; [reflexivity|].
  destruct (arange _ _ _); reflexivity.
Qed.

(** A returned grid is the one of [interpolate_idw_grid]. *)
Lemma interpolate_idw_returned (data : list (sample N)) (grid_resolution power : N)
    (grid_lon grid_lat : list (list N)) (grid_values : list (list (option N))) :
  3 <= length data ->
  interpolate_idw data grid_resolution power = Grid grid_lon grid_lat grid_values ->
  exists lons lats,
    grid_lon = (meshgrid lons lats).1 /\ grid_lat = (meshgrid lons lats).2
    /\ has_shape (length lats) (length lons) grid_values
    /\ forall i j qlat qlon, lats !! i = Some qlat -> lons !! j = Some qlon ->
         get_cell grid_values i j = Some (Some (idw_value data qlon qlat power)).
Proof.
  intros (first & rest & -> & Hlen)%gate_passed Hres.
  destruct (arange (envelope first rest).1.1.1 (envelope first rest).1.1.2 grid_resolution)
    as [lons|] eqn:Hlons;
    [|rewrite interpolate_idw_raised in Hres by (assumption || (left; assumption));
      discriminate].
  destruct (arange (envelope first rest).1.2 (envelope first rest).2 grid_resolution)
    as [lats|] eqn:Hlats;
    [|rewrite interpolate_idw_raised in Hres by (assumption || (right; assumption));
      discriminate].
  destruct (interpolate_idw_grid first rest grid_resolution power lons lats Hlen Hlons Hlats)
    as (gv & Heq & Hshape & Hcells).
  rewrite Heq in Hres. injection Hres as <- <- <-.
  exists lons, lats. repeat split; try assumption; apply Hshape.
Qed.

(** Every cell of a returned value mesh holds the weighted average for its
    node. *)
Lemma grid_cells_is_value (data : list (sample N)) (grid_resolution power : N)
    (grid_lon grid_lat : list (list N)) (grid_values : list (list (option N))) :
  3 <= length data ->
  interpolate_idw data grid_resolution power = Grid grid_lon grid_lat grid_values ->
  forall i j c, get_cell grid_values i j = Some c ->
    exists query_lon query_lat,
      get_cell grid_lon i j = Some query_lon
      /\ get_cell grid_lat i j = Some query_lat
      /\ c = Some (idw_value data query_lon query_lat power).
Proof.
  intros Hlen Hres i j c Hc.
  destruct (interpolate_idw_returned data _ _ _ _ _ Hlen Hres)
    as (lons & lats & -> & -> & Hshape & Hcells).
  destruct (get_cell_bounds _ _ _ _ _ _ Hshape Hc) as [Hi Hj].
  destruct (lookup_lt_is_Some_2 lats i Hi) as [qlat Hqlat].
  destruct (lookup_lt_is_Some_2 lons j Hj) as [qlon Hqlon].
  exists qlon, qlat. split; [eapply meshgrid_lon; eassumption|].
  split; [eapply meshgrid_lat; eassumption|].
  rewrite (Hcells i j qlat qlon Hqlat Hqlon) in Hc. congruence.
Qed.

End GridFacts.

(** C4. With fewer than three samples (the empty set included) the point
    estimator returns its NaN sentinel and the grid interpolator its
    [(None, None, None)]: neither computes a number, neither raises. This
    holds whatever the arithmetic is. *)
Theorem insufficient_data_returns_sentinels {N : Type} {num : Numeric N}
    (data : list (sample N)) (query_lon query_lat grid_resolution power : N) :
  length data < 3 ->
  interpolate_idw_point data query_lon query_lat power = NoEstimate
  /\ interpolate_idw data grid_resolution power = NoGrid.
Proof.
  destruct data as [|a [|b [|c data]]]; simpl; intros Hlen;
    try (split; reflexivity); lia.
Qed.

Lemma insufficient_data_witness :
  length [Sample 0 0 10; Sample 1 0 40]%float < 3
  /\ interpolate_idw_point [Sample 0 0 10; Sample 1 0 40]%float 0.5%float 0.5%float 2%float
     = NoEstimate
  /\ interpolate_idw [Sample 0 0 10; Sample 1 0 40]%float 0.5%float 2%float = NoGrid.
Proof.
  split; [simpl; lia|].
  apply (insufficient_data_returns_sentinels (num := binary64)). simpl; lia.
Defined.

(** C5. Behind the three-sample gate, every cell [(i, j)] of the value mesh
    that [interpolate_idw] returns holds what [interpolate_idw_point]
    returns for the same samples and power at the node
    [(grid_lon[i, j], grid_lat[i, j])]. This holds whatever the arithmetic
    is: the two functions carry out the same operations. *)
Theorem grid_cell_is_point_estimate {N : Type} {num : Numeric N}
    (data : list (sample N)) (grid_resolution power : N)
    (grid_lon grid_lat : list (list N)) (grid_values : list (list (option N)))
    (i j : nat) (c : option N) :
  3 <= length data ->
  interpolate_idw data grid_resolution power = Grid grid_lon grid_lat grid_values ->
  get_cell grid_values i j = Some c ->
  exists query_lon query_lat,
    get_cell grid_lon i j = Some query_lon
    /\ get_cell grid_lat i j = Some query_lat
    /\ cell_estimate c = interpolate_idw_point data query_lon query_lat power.
Proof.
  intros Hlen Hres Hc.
  destruct (interpolate_idw_returned data _ _ _ _ _ Hlen Hres)
    as (lons & lats & -> & -> & Hshape & Hcells).
  destruct (get_cell_bounds _ _ _ _ _ _ Hshape Hc) as [Hi Hj].
  destruct (lookup_lt_is_Some_2 lats i Hi) as [qlat Hqlat].
  destruct (lookup_lt_is_Some_2 lons j Hj) as [qlon Hqlon].
  exists qlon, qlat. split; [eapply meshgrid_lon; eassumption|].
  split; [eapply meshgrid_lat; eassumption|].
  rewrite (Hcells i j qlat qlon Hqlat Hqlon) in Hc. injection Hc as <-.
  rewrite interpolate_idw_point_eq.
  pass_gate.
  reflexivity.
Qed.

Lemma grid_cell_is_point_estimate_witness :
  exists query_lon query_lat,
    get_cell (grid_lon_of demo_grid) 1 2 = Some query_lon
    /\ get_cell (grid_lat_of demo_grid) 1 2 = Some query_lat
    /\ cell_estimate (Some 38.21912324014145%float)
       = interpolate_idw_point demo_stations query_lon query_lat 2%float.
Proof.
  apply (grid_cell_is_point_estimate (num := binary64) demo_stations 0.5%float 2%float
           (grid_lon_of demo_grid) (grid_lat_of demo_grid) (grid_values_of demo_grid)).
  - simpl; lia.
  - vm_compute; reflexivity.
  - vm_compute; reflexivity.
Defined.

(** C10 (as amended). Behind the three-sample gate the value mesh has the
    shape of the coordinate meshes and every one of its cells was assigned
    a computed weighted average: the [np.nan] that [np.full_like] put
    there survives in no cell. This holds whatever the arithmetic is; in
    binary64 the number assigned is not always finite. *)
Theorem grid_cells_all_assigned {N : Type} {num : Numeric N}
    (data : list (sample N)) (grid_resolution power : N)
    (grid_lon grid_lat : list (list N)) (grid_values : list (list (option N))) :
  3 <= length data ->
  interpolate_idw data grid_resolution power = Grid grid_lon grid_lat grid_values ->
  forall i j,
    (is_Some (get_cell grid_lon i j) -> is_Some (get_cell grid_values i j))
    /\ (forall c, get_cell grid_values i j = Some c ->
          exists query_lon query_lat,
            get_cell grid_lon i j = Some query_lon
            /\ get_cell grid_lat i j = Some query_lat
            /\ c = Some (idw_value data query_lon query_lat power)).
Proof.
  intros Hlen Hres i j.
  destruct (interpolate_idw_returned data _ _ _ _ _ Hlen Hres)
    as (lons & lats & -> & -> & Hshape & Hcells).
  split.
  - intros [x Hx].
    destruct (get_cell_bounds _ _ _ _ _ _ (proj1 (meshgrid_shape lons lats)) Hx) as [Hi Hj].
    eapply get_cell_lt; eassumption.
  - intros c Hc. eapply grid_cells_is_value; eassumption.
Qed.

Lemma grid_cells_all_assigned_witness :
  (is_Some (get_cell (grid_lon_of demo_grid) 2 0) ->
   is_Some (get_cell (grid_values_of demo_grid) 2 0))
  /\ (forall c, get_cell (grid_values_of demo_grid) 2 0 = Some c ->
        exists query_lon query_lat,
          get_cell (grid_lon_of demo_grid) 2 0 = Some query_lon
          /\ get_cell (grid_lat_of demo_grid) 2 0 = Some query_lat
          /\ c = Some (idw_value demo_stations query_lon query_lat 2%float)).
Proof.
  apply (grid_cells_all_assigned (num := binary64) demo_stations 0.5%float 2%float
           (grid_lon_of demo_grid) (grid_lat_of demo_grid) (grid_values_of demo_grid)).
  - simpl; lia.
  - vm_compute; reflexivity.
Defined.

(** ** Rounding in binary64 *)

(** The operations of Rocq's primitive floats are specified by the
    functions of [SpecFloat] on a mantissa and an exponent. This part
    follows a mantissa through the rounding of a square root and of a
    product, down to: the square of a square root that is not zero is not
    zero. *)

Section Rounding.
Local Open Scope Z_scope.

Lemma digits2_size (p : positive) : digits2_pos p = Pos.size p.
Proof. induction p; simpl; congruence. Qed.

Lemma digits_log2 (z : Z) : 0 < z -> Zdigits2 z = Z.log2 z + 1.
Proof.
  destruct z as [|p|p]; try lia. intros _. simpl.
  rewrite digits2_size. destruct p; simpl; lia.
Qed.

Lemma digits_pos (z : Z) : 0 < z -> 1 <= Zdigits2 z.
Proof. intros H. rewrite digits_log2 by assumption. pose proof (Z.log2_nonneg z). lia. Qed.

Lemma digits_le (a b : Z) : 0 < a -> a <= b -> Zdigits2 a <= Zdigits2 b.
Proof. intros. rewrite !digits_log2 by lia. pose proof (Z.log2_le_mono a b). lia. Qed.

Lemma digits_shiftr (z n : Z) :
  0 < z -> 0 <= n -> n < Zdigits2 z ->
  0 < z / 2 ^ n /\ Zdigits2 (z / 2 ^ n) = Zdigits2 z - n.
Proof.
  intros Hz Hn Hlt. rewrite digits_log2 in Hlt by assumption.
  assert (Hpow : 2 ^ n <= z).
  { apply Z.le_trans with (2 ^ Z.log2 z).
    - apply Z.pow_le_mono_r; lia.
    - apply Z.log2_spec. assumption. }
  assert (0 < z / 2 ^ n) by (apply Z.div_str_pos; lia).
  split; [assumption|].
  rewrite !digits_log2 by assumption.
  rewrite <- Z.shiftr_div_pow2 by assumption.
  rewrite Z.log2_shiftr by assumption. lia.
Qed.

Lemma digits_square (p : positive) : 2 * Zdigits2 (Zpos p) - 1 <= Zdigits2 (Zpos (p * p)).
Proof.
  rewrite !digits_log2 by lia. rewrite Pos2Z.inj_mul.
  pose proof (Z.log2_mul_below (Zpos p) (Zpos p)). lia.
Qed.


Lemma shr_1_m (mrs : shr_record) :
  0 <= shr_m mrs -> shr_m (shr_1 mrs) = shr_m mrs / 2 /\ 0 <= shr_m (shr_1 mrs).
Proof.
  destruct mrs as [m r s]. change (shr_m {| shr_m := m; shr_r := r; shr_s := s |}) with m.
  intros Hm.
  assert (E : shr_m (shr_1 {| shr_m := m; shr_r := r; shr_s := s |}) = Z.div2 m)
    by (destruct m as [|[p|p|]|p]; try reflexivity; lia).
  rewrite E, Z.div2_div. split; [reflexivity|]. apply Z.div_pos; lia.
Qed.

Lemma iter_shr_1_m (p : positive) (mrs : shr_record) :
  0 <= shr_m mrs ->
  shr_m (SpecFloat.iter_pos shr_1 p mrs) = shr_m mrs / 2 ^ Zpos p
  /\ 0 <= shr_m (SpecFloat.iter_pos shr_1 p mrs).
Proof.
  revert mrs. induction p as [p IH|p IH|]; intros mrs Hm; simpl SpecFloat.iter_pos.
  - destruct (shr_1_m mrs Hm) as [E1 P1].
    destruct (IH _ P1) as [E2 P2]. destruct (IH _ P2) as [E3 P3].
    split; [|assumption]. rewrite E3, E2, E1.
    rewrite !Z.div_div by lia. f_equal.
    rewrite Pos2Z.inj_xI, Z.pow_add_r, Z.pow_mul_r by lia.
    change (2 ^ 2) with 4. change (2 ^ 1) with 2.
    replace (4 ^ Zpos p) with (2 ^ Zpos p * 2 ^ Zpos p); [lia|].
    rewrite <- Z.pow_add_r by lia. replace (Zpos p + Zpos p) with (2 * Zpos p) by lia.
    rewrite Z.pow_mul_r by lia. reflexivity.
  - destruct (IH _ Hm) as [E2 P2]. destruct (IH _ P2) as [E3 P3].
    split; [|assumption]. rewrite E3, E2.
    rewrite !Z.div_div by lia. f_equal.
    rewrite Pos2Z.inj_xO, <- Z.pow_add_r by lia. f_equal. lia.
  - destruct (shr_1_m mrs Hm) as [E1 P1]. split; [|assumption].
    rewrite E1. reflexivity.
Qed.

Lemma shr_record_of_loc_m (m : Z) (l : location) : shr_m (shr_record_of_loc m l) = m.
Proof. destruct l as [|[]]; reflexivity. Qed.

Lemma round_nearest_even_bounds (m : Z) (l : location) :
  m <= round_nearest_even m l <= m + 1.
Proof. destruct l as [|[]]; simpl; try lia. destruct (Z.even m); lia. Qed.

(** One shift to the exponent of the format keeps a mantissa of a value of
    at least 2^-1074 positive, and keeps digits plus exponent. *)
Lemma shr_fexp_spec (m e : Z) (l : location) :
  0 < m -> -1073 <= Zdigits2 m + e ->
  let '(mrs, e') := shr_fexp prec emax m e l in
  0 < shr_m mrs /\ Zdigits2 (shr_m mrs) + e' = Zdigits2 m + e /\ -1074 <= e'.
Proof.
  intros Hm Hde. unfold shr_fexp, shr, fexp, SpecFloat.emin, prec, emax.
  
  destruct (Z.max (Zdigits2 m + e - 53) (3 - 1024 - 53) - e) as [|p|p] eqn:En.
  - rewrite shr_record_of_loc_m. repeat split; lia.
  - destruct (iter_shr_1_m p (shr_record_of_loc m l)) as [E P];
      [rewrite shr_record_of_loc_m; lia|].
    rewrite shr_record_of_loc_m in E. rewrite E.
    pose proof (digits_pos m Hm).
    destruct (digits_shiftr m (Zpos p) Hm) as [Hq HD]; [lia | lia |].
    repeat split; lia.
  - rewrite shr_record_of_loc_m. repeat split; lia.
Qed.

Lemma binary_round_aux_spec (sx : bool) (mx ex : Z) (lx : location) :
  0 < mx -> -1073 <= Zdigits2 mx + ex ->
  match binary_round_aux prec emax sx mx ex lx with
  | S754_zero _ => False
  | S754_finite _ m e => Zdigits2 mx + ex <= Zdigits2 (Zpos m) + e
  | _ => True
  end.
Proof.
  intros Hm Hde. unfold binary_round_aux.
  pose proof (shr_fexp_spec mx ex lx Hm Hde) as H1.
  destruct (shr_fexp prec emax mx ex lx) as [mrs' e'].
  destruct H1 as (Hm1 & HD1 & He1).
  set (m2 := round_nearest_even (shr_m mrs') (loc_of_shr_record mrs')).
  pose proof (round_nearest_even_bounds (shr_m mrs') (loc_of_shr_record mrs')) as Hr.
  fold m2 in Hr.
  assert (Hm2 : 0 < m2) by lia.
  assert (HD2 : Zdigits2 (shr_m mrs') <= Zdigits2 m2) by (apply digits_le; lia).
  pose proof (shr_fexp_spec m2 e' loc_Exact Hm2 ltac:(lia)) as H2.
  destruct (shr_fexp prec emax m2 e' loc_Exact) as [mrs'' e''].
  destruct H2 as (Hm3 & HD3 & He3).
  destruct (shr_m mrs'') as [|m3|m3] eqn:E3; try lia.
  destruct (e'' <=? emax - prec); [|exact I]. lia.
Qed.

Lemma valid_finite_bound (s : bool) (m : positive) (e : Z) :
  valid_binary (S754_finite s m e) = true -> -1073 <= Zdigits2 (Zpos m) + e.
Proof.
  unfold SpecFloat.valid_binary, bounded, canonical_mantissa, fexp, SpecFloat.emin, prec, emax.
  intros H. apply andb_prop in H as [H _]. apply Z.eqb_eq in H.
  pose proof (digits_pos (Zpos m) ltac:(lia)) as HD. unfold Zdigits2 in *. cbn [Zdigits2] in *. lia.
Qed.

Lemma sqrt_core_spec (m : positive) (e : Z) :
  -1073 <= Zdigits2 (Zpos m) + e ->
  let '(q, e', l) := SFsqrt_core_binary prec emax (Zpos m) e in
  0 < q /\ -536 <= Zdigits2 q + e'.
Proof.
  intros Hde. unfold SFsqrt_core_binary.
  set (e' := Z.min (fexp prec emax (Z.div2 (Zdigits2 (Zpos m) + e + 1))) (Z.div2 e)).
  assert (He' : 2 * e' <= e).
  { assert (e' <= Z.div2 e) by (subst e'; lia).
    rewrite Z.div2_div in H. pose proof (Z.mul_div_le e 2 ltac:(lia)). lia. }
  set (M := match e - 2 * e' with
            | 0 => Zpos m
            | Zpos _ => Z.shiftl (Zpos m) (e - 2 * e')
            | Zneg _ => 0
            end).
  assert (HM : 0 < M /\ Zdigits2 M = Zdigits2 (Zpos m) + (e - 2 * e')).
  { subst M. destruct (e - 2 * e') as [|p|p] eqn:Es; [split; lia | | lia].
    assert (Hsh : 0 < Z.shiftl (Zpos m) (Zpos p))
      by (rewrite Z.shiftl_mul_pow2 by lia; apply Z.mul_pos_pos; [|apply Z.pow_pos_nonneg]; lia).
    split; [assumption|].
    rewrite !digits_log2 by lia. rewrite Z.log2_shiftl by lia. lia. }
  destruct HM as [HM0 HMD].
  pose proof (Z.sqrtrem_spec M ltac:(lia)) as Hs.
  destruct (Z.sqrtrem M) as [q r]. destruct Hs as [HMq Hr].
  assert (Hq : 0 < q) by nia.
  split; [assumption|].
  assert (Hq1 : q + 1 <= 2 ^ Zdigits2 q).
  { rewrite digits_log2 by assumption. pose proof (Z.log2_spec q Hq). lia. }
  assert (HMlt : M < 2 ^ (2 * Zdigits2 q)).
  { rewrite Z.pow_mul_r by (pose proof (digits_pos q Hq); lia).
    change (2 ^ 2) with 4.
    assert (Hsq : (q + 1) * (q + 1) <= 2 ^ Zdigits2 q * 2 ^ Zdigits2 q) by nia.
    replace (4 ^ Zdigits2 q) with (2 ^ Zdigits2 q * 2 ^ Zdigits2 q); [nia|].
    rewrite <- Z.pow_mul_l. reflexivity. }
  apply Z.log2_lt_pow2 in HMlt; [|assumption].
  rewrite (digits_log2 M) in HMD by assumption. lia.
Qed.

(** Over the specification: the square of a square root that is not zero
    is not zero. *)
Lemma SF_sqrt_square_not_zero (x : spec_float) :
  valid_binary x = true ->
  not_zero (SF64sqrt x) = true ->
  not_zero (SF64mul (SF64sqrt x) (SF64sqrt x)) = true.
Proof.
  intros Hvalid Hnz. destruct x as [s| [|] | | [|] m e]; try reflexivity;
    try (simpl in Hnz; discriminate).
  pose proof (valid_finite_bound false m e Hvalid) as Hde.
  unfold SF64sqrt, SFsqrt in *.
  pose proof (sqrt_core_spec m e Hde) as Hcore.
  destruct (SFsqrt_core_binary prec emax (Zpos m) e) as [[q e'] l].
  destruct Hcore as [Hq HDq].
  pose proof (binary_round_aux_spec false q e' l Hq ltac:(lia)) as Hd.
  destruct (binary_round_aux prec emax false q e' l) as [s1| s1 | | s1 m1 e1];
    try reflexivity; try contradiction.
  unfold SF64mul, SFmul.
  pose proof (digits_square m1) as Hsq.
  pose proof (binary_round_aux_spec (xorb s1 s1) (Zpos (m1 * m1)) (e1 + e1) loc_Exact
                ltac:(lia) ltac:(lia)) as Hmul.
  destruct (binary_round_aux prec emax (xorb s1 s1) (Zpos (m1 * m1)) (e1 + e1) loc_Exact);
    try reflexivity; contradiction.
Qed.

Lemma eqb_zero_spec (x : float) :
  PrimFloat.eqb x 0 = negb (not_zero (Prim2SF x)).
Proof.
  rewrite FloatAxioms.eqb_spec. change (Prim2SF 0) with (S754_zero false).
  destruct (Prim2SF x) as [[|]|[|]| |[|] m e]; reflexivity.
Qed.

Lemma sqrt_square_not_zero (s : float) :
  PrimFloat.eqb (PrimFloat.sqrt s) 0 = false ->
  PrimFloat.eqb (PrimFloat.sqrt s * PrimFloat.sqrt s) 0 = false.
Proof.
  rewrite !eqb_zero_spec, mul_spec, sqrt_spec. intros H.
  apply negb_false_iff in H. apply negb_false_iff.
  apply SF_sqrt_square_not_zero; [apply Prim2SF_valid | assumption].
Qed.

End Rounding.

(** C7 (as amended). In binary64, in both estimators, a distance that is
    exactly zero is replaced by the machine epsilon 2^-52 before weighting
    and every other distance is kept, so that no weighted distance is
    zero; and with the power 2 (the default, the one [app.py] passes and
    the script fixes) the divisor [dists ** 2] of the weights is never
    zero, for any sample set with at least three samples and any query
    point. *)
Theorem zero_distance_guard_binary64 (data : list (sample float)) :
  3 <= length data ->
  (forall query_lon query_lat,
     interpolate_idw_point data query_lon query_lat 2%float
     = Estimate (idw_value data query_lon query_lat 2%float))
  /\ (forall grid_resolution grid_lon grid_lat grid_values i j c,
        interpolate_idw data grid_resolution 2%float = Grid grid_lon grid_lat grid_values ->
        get_cell grid_values i j = Some c ->
        exists query_lon query_lat, c = Some (idw_value data query_lon query_lat 2%float))
  /\ (forall query_lon query_lat,
        (forall k s, data !! k = Some s ->
           let d := PrimFloat.sqrt ((lon s - query_lon) * (lon s - query_lon)
                                   + (lat s - query_lat) * (lat s - query_lat))%float in
           idw_dists data query_lon query_lat !! k
           = Some (if PrimFloat.eqb d 0 then 0x1p-52%float else d))
        /\ idw_weights data query_lon query_lat 2%float
           = map (fun d => (1 / (d * d))%float) (idw_dists data query_lon query_lat)
        /\ Forall (fun d => PrimFloat.eqb d 0 = false /\ PrimFloat.eqb (d * d) 0 = false)
                  (idw_dists data query_lon query_lat)).
Proof.
  intros Hlen. split; [|split].
  - intros qlon qlat. rewrite interpolate_idw_point_eq. pass_gate. reflexivity.
  - intros r glon glat gv i j c Hres Hc.
    destruct (grid_cells_is_value data r 2%float glon glat gv Hlen Hres i j c Hc)
      as (qlon & qlat & _ & _ & Heq). eauto.
  - intros qlon qlat. split; [|split].
    + intros k s Hk d. unfold idw_dists. rewrite map_map.
      change (map ?f data) with (f <$> data). rewrite list_lookup_fmap, Hk. reflexivity.
    + reflexivity.
    + unfold idw_dists. rewrite map_map. apply List.Forall_forall.
      intros d (s & <- & _)%in_map_iff. cbv beta.
      match goal with |- context [num_sqrt ?x] => set (d0 := num_sqrt x) end.
      change (num_eqb d0 num_zero) with (PrimFloat.eqb d0 0).
      destruct (PrimFloat.eqb d0 0) eqn:E.
      * split; vm_compute; reflexivity.
      * split; [assumption|]. apply sqrt_square_not_zero. assumption.
Qed.

Lemma zero_distance_guard_binary64_witness :
  3 <= length demo_stations
  /\ Forall (fun d => PrimFloat.eqb d 0 = false /\ PrimFloat.eqb (d * d) 0 = false)
            (idw_dists demo_stations 0%float 0%float).
Proof.
  assert (Hlen : 3 <= length demo_stations) by (simpl; lia).
  split; [exact Hlen|].
  exact (proj2 (proj2 (proj2 (proj2 (zero_distance_guard_binary64 demo_stations Hlen))
                         0%float 0%float))).
Defined.

(** ** The estimate in exact arithmetic *)

(** C1 (as amended). In exact real arithmetic, for every sample set with
    at least three samples, every query point and every power, the point
    estimator returns a number between the least and the greatest sample
    value. *)
Theorem idw_point_within_value_range_exact (data : list (sample R))
    (query_lon query_lat power : R) :
  3 <= length data ->
  exists v,
    interpolate_idw_point data query_lon query_lat power = Estimate v
    /\ match map value data with
       | x :: rest =>
           (series_min (num := exact_real) x rest <= v
            <= series_max (num := exact_real) x rest)%R
       | [] => False
       end.
Proof.
  intros Hlen. exists (idw_value data query_lon query_lat power). split.
  - rewrite interpolate_idw_point_eq.
    pass_gate.
    reflexivity.
  - destruct (gate_passed data Hlen) as (first & rest & -> & _).
    cbn [map]. destruct (series_min_spec (value first) (map value rest)) as [_ Hmin].
    destruct (series_max_spec (value first) (map value rest)) as [_ Hmax].
    apply idw_value_bounds; [discriminate|].
    rewrite List.Forall_forall in Hmin, Hmax |- *. intros s Hs.
    assert (In (value s) (value first :: map value rest))
      by (change (In (value s) (map value (first :: rest))); apply in_map; assumption).
    split; [apply Hmin | apply Hmax]; assumption.
Qed.

Lemma idw_point_within_value_range_witness :
  exists v,
    interpolate_idw_point demo_stations_exact (1 / 2)%R (1 / 2)%R 2%R = Estimate v
    /\ match map value demo_stations_exact with
       | x :: rest =>
           (series_min (num := exact_real) x rest <= v
            <= series_max (num := exact_real) x rest)%R
       | [] => False
       end.
Proof.
  apply (idw_point_within_value_range_exact demo_stations_exact). simpl; lia.
Defined.

(** In exact real arithmetic and for every power: in both estimators a
    distance that is exactly zero is replaced by 2^-52 before weighting,
    and every other distance is kept; every distance so obtained is
    positive, so is its power, and so is the sum of the weights: no
    division of either estimator has a zero divisor. *)
Theorem zero_distance_guard_exact (data : list (sample R)) (power : R) :
  3 <= length data ->
  (forall query_lon query_lat,
     interpolate_idw_point data query_lon query_lat power
     = Estimate (idw_value data query_lon query_lat power))
  /\ (forall grid_resolution grid_lon grid_lat grid_values i j c,
        interpolate_idw data grid_resolution power = Grid grid_lon grid_lat grid_values ->
        get_cell grid_values i j = Some c ->
        exists query_lon query_lat, c = Some (idw_value data query_lon query_lat power))
  /\ (forall query_lon query_lat,
        (forall k s, data !! k = Some s ->
           let d := R_sqrt.sqrt ((lon s - query_lon) * (lon s - query_lon)
                                 + (lat s - query_lat) * (lat s - query_lat)) in
           idw_dists data query_lon query_lat !! k
           = Some (if Req_dec_T d 0 then (/ 2 ^ 52)%R else d))
        /\ Forall (fun d => (0 < d)%R /\ Rpower d power <> 0%R)
                  (idw_dists data query_lon query_lat)
        /\ np_sum (num := exact_real) (idw_weights data query_lon query_lat power) <> 0%R).
Proof.
  intros Hlen. split; [|split].
  - intros qlon qlat. rewrite interpolate_idw_point_eq.
    pass_gate.
    reflexivity.
  - intros r glon glat gv i j c Hres Hc.
    destruct (grid_cells_is_value data r power glon glat gv Hlen Hres i j c Hc)
      as (qlon & qlat & _ & _ & Heq). eauto.
  - intros qlon qlat. split; [|split].
    + intros k s Hk. apply idw_dists_lookup. assumption.
    + pose proof (idw_dists_pos data qlon qlat) as Hpos.
      rewrite List.Forall_forall in Hpos |- *. intros d Hd. split; [apply Hpos; assumption|].
      pose proof (exp_pos (power * ln d)). unfold Rpower. lra.
    + assert (0 < np_sum (num := exact_real) (idw_weights data qlon qlat power))%R; [|lra].
      apply np_sum_pos; [|apply idw_weights_pos].
      destruct (gate_passed data Hlen) as (first & rest & -> & _). discriminate.
Qed.

Lemma zero_distance_guard_witness :
  (3 <= length demo_stations_exact)%nat
  /\ Forall (fun d => (0 < d)%R /\ Rpower d 2 <> 0%R)
            (idw_dists demo_stations_exact 0%R 0%R).
Proof.
  assert (Hlen : (3 <= length demo_stations_exact)%nat) by (simpl; lia).
  split; [exact Hlen|].
  exact (proj1 (proj2 (proj2 (proj2 (zero_distance_guard_exact demo_stations_exact 2%R Hlen))
                         0%R 0%R))).
Defined.

(** ** The click handler against the point estimator *)

Section ClickHandler.
Context {N : Type} {num : Numeric N}.
Local Open Scope num_scope.

Lemma fold_left_two_sums (f : N * N -> sample N -> N * N) (W : sample N -> N)
    (l : list (sample N)) (a b : N) :
  (forall a b s, f (a, b) s = (a + W s, b + W s * value s)) ->
  fold_left f l (a, b)
  = (fold_left num_add (map W l) a,
     fold_left num_add (zip_with num_mul (map W l) (map value l)) b).
Proof.
  intros Hf. revert a b. induction l as [|s l IH]; intros a b; [reflexivity|].
  cbn [fold_left map zip_with]. rewrite Hf. apply IH.
Qed.

(** The handler accumulates the two sums of the estimator with the
    exponent 2, one station after the other: the order in which [np.sum]
    adds fewer than eight entries. *)
Lemma js_pm25_is_idw_value (stations : list (sample N)) (lat_ lng : N) :
  length stations < 8 \/ exact_sums ->
  js_pm25 stations lat_ lng = idw_value stations lng lat_ two.
Proof.
  intros Hseq. unfold js_pm25, idw_value.
  rewrite !np_sum_sequential
    by (unfold idw_weights, idw_dists; rewrite ?length_zip_with, !length_map; destruct Hseq; auto; lia).
  unfold idw_weights, idw_dists. rewrite !map_map.
  erewrite fold_left_two_sums; [reflexivity|].
  intros a b s. reflexivity.
Qed.

End ClickHandler.



(** ** The grid builder in exact arithmetic *)

(** In the exact reading, where every count of steps is an index, a
    resolution above zero gives a grid behind the gate. *)
Lemma interpolate_idw_exact_returned (data : list (sample R)) (grid_resolution power : R) :
  3 <= length data -> (0 < grid_resolution)%R ->
  interpolate_idw data grid_resolution power
  = Grid (grid_lon_of (interpolate_idw data grid_resolution power))
         (grid_lat_of (interpolate_idw data grid_resolution power))
         (grid_values_of (interpolate_idw data grid_resolution power)).
Proof.
  intros (first & rest & -> & Hlen)%gate_passed Hres.
  destruct (arange_exact (envelope first rest).1.1.1 (envelope first rest).1.1.2
              grid_resolution Hres) as (lons & Hlons & _).
  destruct (arange_exact (envelope first rest).1.2 (envelope first rest).2
              grid_resolution Hres) as (lats & Hlats & _).
  destruct (interpolate_idw_grid first rest grid_resolution power lons lats Hlen Hlons Hlats)
    as (gv & Heq & _).
  rewrite Heq. reflexivity.
Qed.

(** C6 (as amended). In exact real arithmetic, for every sample set with at
    least three samples and every resolution [r > 0], whenever
    [interpolate_idw] returns a grid ([np.arange] may raise instead), its
    meshes are built as follows: the envelope is the least and the
    greatest longitude and latitude moved outward by 0.1; the longitudes
    and the latitudes of the nodes step from the lower bound toward the
    upper one at spacing [r], half-open; both coordinate meshes and the
    value mesh have one row per latitude step and one column per longitude
    step, the longitude mesh holding the longitude steps along its rows and
    the latitude mesh the latitude steps along its columns. The coordinate
    meshes are the same for every power: they are determined by the sample
    coordinates and the resolution. *)
Theorem grid_builder_exact (data : list (sample R)) (grid_resolution power : R)
    (grid_lon grid_lat : list (list R)) (grid_values : list (list (option R))) :
  3 <= length data -> (0 < grid_resolution)%R ->
  interpolate_idw data grid_resolution power = Grid grid_lon grid_lat grid_values ->
  exists lon_lo lon_hi lat_lo lat_hi lons lats,
    is_min lon_lo (map lon data) /\ is_max lon_hi (map lon data)
    /\ is_min lat_lo (map lat data) /\ is_max lat_hi (map lat data)
    /\ half_open_steps (lon_lo - 1 / 10) (lon_hi + 1 / 10) grid_resolution lons
    /\ half_open_steps (lat_lo - 1 / 10) (lat_hi + 1 / 10) grid_resolution lats
    /\ has_shape (length lats) (length lons) grid_lon
    /\ has_shape (length lats) (length lons) grid_lat
    /\ has_shape (length lats) (length lons) grid_values
    /\ (forall i j qlat qlon, lats !! i = Some qlat -> lons !! j = Some qlon ->
          get_cell grid_lon i j = Some qlon /\ get_cell grid_lat i j = Some qlat)
    /\ forall power' grid_lon' grid_lat' grid_values',
         interpolate_idw data grid_resolution power' = Grid grid_lon' grid_lat' grid_values' ->
         grid_lon' = grid_lon /\ grid_lat' = grid_lat
         /\ has_shape (length lats) (length lons) grid_values'.
Proof.
  intros (first & rest & -> & Hlen)%gate_passed Hres Hgrid.
  destruct (arange_exact (envelope first rest).1.1.1 (envelope first rest).1.1.2
              grid_resolution Hres) as (lons & Hlons & Hsteps_lon).
  destruct (arange_exact (envelope first rest).1.2 (envelope first rest).2
              grid_resolution Hres) as (lats & Hlats & Hsteps_lat).
  destruct (interpolate_idw_grid first rest grid_resolution power lons lats Hlen Hlons Hlats)
    as (gv & Heq & Hshape & _).
  rewrite Hgrid in Heq. injection Heq as -> -> ->.
  exists (series_min (num := exact_real) (lon first) (map lon rest)),
         (series_max (num := exact_real) (lon first) (map lon rest)),
         (series_min (num := exact_real) (lat first) (map lat rest)),
         (series_max (num := exact_real) (lat first) (map lat rest)),
         lons, lats.
  split; [apply (series_min_spec (lon first) (map lon rest))|].
  split; [apply (series_max_spec (lon first) (map lon rest))|].
  split; [apply (series_min_spec (lat first) (map lat rest))|].
  split; [apply (series_max_spec (lat first) (map lat rest))|].
  split; [exact Hsteps_lon|]. split; [exact Hsteps_lat|].
  split; [apply meshgrid_shape|]. split; [apply meshgrid_shape|].
  split; [exact Hshape|].
  split.
  - intros i j qlat qlon Hi Hj. split; [eapply meshgrid_lon | eapply meshgrid_lat]; eassumption.
  - intros power' grid_lon' grid_lat' grid_values' Hgrid'.
    destruct (interpolate_idw_grid first rest grid_resolution power' lons lats Hlen Hlons Hlats)
      as (gv' & Heq' & Hshape' & _).
    rewrite Hgrid' in Heq'. injection Heq' as -> -> ->. auto.
Qed.

Lemma grid_builder_witness :
  (3 <= length demo_stations_exact)%nat /\ (0 < 1 / 2)%R
  /\ interpolate_idw demo_stations_exact (1 / 2)%R 2%R
     = Grid (grid_lon_of demo_grid_exact) (grid_lat_of demo_grid_exact)
            (grid_values_of demo_grid_exact)
  /\ exists lon_lo lon_hi lat_lo lat_hi lons lats,
    is_min lon_lo (map lon demo_stations_exact) /\ is_max lon_hi (map lon demo_stations_exact)
    /\ is_min lat_lo (map lat demo_stations_exact) /\ is_max lat_hi (map lat demo_stations_exact)
    /\ half_open_steps (lon_lo - 1 / 10) (lon_hi + 1 / 10) (1 / 2) lons
    /\ half_open_steps (lat_lo - 1 / 10) (lat_hi + 1 / 10) (1 / 2) lats
    /\ has_shape (length lats) (length lons) (grid_lon_of demo_grid_exact)
    /\ has_shape (length lats) (length lons) (grid_lat_of demo_grid_exact)
    /\ has_shape (length lats) (length lons) (grid_values_of demo_grid_exact)
    /\ (forall i j qlat qlon, lats !! i = Some qlat -> lons !! j = Some qlon ->
          get_cell (grid_lon_of demo_grid_exact) i j = Some qlon
          /\ get_cell (grid_lat_of demo_grid_exact) i j = Some qlat)
    /\ forall power' grid_lon' grid_lat' grid_values',
         interpolate_idw demo_stations_exact (1 / 2)%R power'
         = Grid grid_lon' grid_lat' grid_values' ->
         grid_lon' = grid_lon_of demo_grid_exact /\ grid_lat' = grid_lat_of demo_grid_exact
         /\ has_shape (length lats) (length lons) grid_values'.
Proof.
  assert (Hlen : (3 <= length demo_stations_exact)%nat) by (simpl; lia).
  assert (Hres : (0 < 1 / 2)%R) by lra.
  assert (Hgrid : interpolate_idw demo_stations_exact (1 / 2)%R 2%R
                  = Grid (grid_lon_of demo_grid_exact) (grid_lat_of demo_grid_exact)
                         (grid_values_of demo_grid_exact))
    by (apply interpolate_idw_exact_returned; assumption).
  split; [exact Hlen|]. split; [exact Hres|]. split; [exact Hgrid|].
  exact (grid_builder_exact demo_stations_exact (1 / 2)%R 2%R _ _ _ Hlen Hres Hgrid).
Defined.

(** * Evaluations in binary64 *)

(** C1, counterexample. In binary64 the query point (1e-160, 0), which is
    finite, lies so close to the station at (0, 0) that the squared
    distance is subnormal and its reciprocal overflows: the weight is
    infinite and the estimate is NaN, which lies in no interval. *)
Lemma idw_point_nan_binary64 :
  Binary64.is_finite 1e-160%float = true
  /\ exists v,
       interpolate_idw_point demo_stations 1e-160%float 0%float 2%float = Estimate v
       /\ is_nan v = true
       /\ within (series_min 10%float [40; 60]%float) (series_max 10%float [40; 60]%float) v
          = false.
Proof.
  split; [vm_compute; reflexivity|].
  exists nan. repeat split; vm_compute; reflexivity.
Qed.

(** With ordinary inputs rounding alone can leave the interval: three
    stations that all report 12.3 give an estimate one unit in the last
    place above 12.3. *)
Example idw_point_rounding_binary64 :
  interpolate_idw_point [Sample 0 0 12.3; Sample 1 0 12.3; Sample 0 1 12.3]%float
    0.3%float 0.7%float 2%float = Estimate 12.300000000000002%float
  /\ within 12.3%float 12.3%float 12.300000000000002%float = false.
Proof. split; vm_compute; reflexivity. Qed.

(** C10, counterexample. In binary64 the grid over [near_node_stations] at
    resolution 0.5 has the node (0, 0), and the cell of that node is
    assigned NaN: a partially-NaN grid behind the three-sample gate. *)
Lemma grid_cell_nan_binary64 :
  Forall (fun s => (Binary64.is_finite (lon s) && Binary64.is_finite (lat s)
                    && Binary64.is_finite (value s))%bool = true) near_node_stations
  /\ exists grid_lon grid_lat grid_values v,
       interpolate_idw near_node_stations 0.5%float 2%float
       = Grid grid_lon grid_lat grid_values
       /\ get_cell grid_lon 1 1 = Some 0%float
       /\ get_cell grid_lat 1 1 = Some 0%float
       /\ get_cell grid_values 1 1 = Some (Some v)
       /\ is_nan v = true /\ Binary64.is_finite v = false.
Proof.
  split; [repeat constructor|].
  exists (grid_lon_of (interpolate_idw near_node_stations 0.5%float 2%float)),
         (grid_lat_of (interpolate_idw near_node_stations 0.5%float 2%float)),
         (grid_values_of (interpolate_idw near_node_stations 0.5%float 2%float)), nan.
  repeat split; vm_compute; reflexivity.
Qed.

(** C7, counterexample. At a query point that coincides with a station the
    zero distance is replaced by 2^-52, which is not the smallest positive
    float: 2^-1074 is positive and smaller. *)
Lemma guard_is_not_the_smallest_float :
  idw_dists demo_stations 0%float 0%float = [Binary64.eps; 1%float; 1%float]
  /\ Binary64.eps = 0x1p-52%float
  /\ PrimFloat.ltb 0 Binary64.smallest_subnormal = true
  /\ PrimFloat.ltb Binary64.smallest_subnormal Binary64.eps = true.
Proof. repeat split; vm_compute; reflexivity. Qed.

(** C6, counterexample. (1) A sample set of one or two samples is not
    empty, yet [interpolate_idw] builds no grid for it. (2) In binary64 the
    stepping is not always half-open: over [narrow_stations] the envelope
    in longitude is 1.0 to 1.3, and at resolution 0.1 the longitude steps
    end with 1.3000000000000003, beyond the upper bound. (3) Not every
    resolution above zero gives a grid: at 1e-20 the number of steps fits
    no index and [np.arange] raises, as it does for the resolution 0 in
    both readings. *)
Lemma grid_builder_failures_binary64 :
  (interpolate_idw [Sample 0 0 10]%float 0.5%float 2%float = NoGrid
   /\ interpolate_idw [Sample 0 0 10; Sample 1 0 40]%float 0.5%float 2%float = NoGrid)
  /\ (PrimFloat.add (series_max 1.1%float [1.15; 1.2]%float) 0.1 = 1.3%float
      /\ get_cell (grid_lon_of (interpolate_idw narrow_stations 0.1%float 2%float)) 0 3
         = Some 1.3000000000000003%float
      /\ PrimFloat.ltb 1.3000000000000003 1.3 = false)
  /\ (PrimFloat.ltb 0 1e-20 = true
      /\ interpolate_idw demo_stations 1e-20%float 2%float = Raised
      /\ interpolate_idw demo_stations 0%float 2%float = Raised
      /\ interpolate_idw demo_stations_exact 0%R 2%R = Raised).
Proof.
  split; [|split]; [repeat split; vm_compute; reflexivity..|].
  split; [vm_compute; reflexivity|]. split; [vm_compute; reflexivity|].
  split; [vm_compute; reflexivity|].
  apply (interpolate_idw_raised (num := exact_real) (Sample 0 0 10)%R
           [Sample 1 0 40; Sample 0 1 60]%R); [simpl; lia|].
  left. unfold arange. simpl.
  replace (Exact.eqb 0 0) with true by (symmetry; apply exact_eqb_true; reflexivity).
  reflexivity.
Qed.


(** ** The classifier at the values of the specification *)

(** C3. The scores and categories of the five values: 12 is Good, 35.4 is
    Moderate, 150.4 and 1000 are Unhealthy, and 1000 gets the fixed score
    201; but 12.0000001 is scored 49 and is Good, not Moderate. *)
Theorem classifier_boundary_values (parse_float : string -> option float) :
  (pm25_to_aqi parse_float (PyFloat 12%float) = Return 50%Z
   /\ get_aqi_alert 50 = Good)
  /\ (pm25_to_aqi parse_float (PyFloat 12.0000001%float) = Return 49%Z
      /\ get_aqi_alert 49 = Good)
  /\ (pm25_to_aqi parse_float (PyFloat 35.4%float) = Return 99%Z
      /\ get_aqi_alert 99 = Moderate)
  /\ (pm25_to_aqi parse_float (PyFloat 150.4%float) = Return 199%Z
      /\ get_aqi_alert 199 = Unhealthy)
  /\ (pm25_to_aqi parse_float (PyFloat 1000%float) = Return 201%Z
      /\ get_aqi_alert 201 = Unhealthy).
Proof. repeat split; vm_compute; reflexivity. Qed.

(** C8. At 10 the score before conversion is 41.666...; Python's [int]
    truncates it to 41, the script's [Math.round] gives the nearest
    integer 42. *)
Theorem python_truncates_where_js_rounds (parse_float : string -> option float) :
  (50 / 12 * 10)%float = 41.666666666666671%float
  /\ pm25_to_aqi parse_float (PyFloat 10%float) = Return 41%Z
  /\ JS.aqi 10%float = 42%float.
Proof. repeat split; vm_compute; reflexivity. Qed.

(** C9. A NaN, the missing value of a float column and the sentinel of
    [interpolate_idw_point], raises nothing and fails every comparison: it
    falls through to the last branch and is scored 201, Unhealthy. The
    script shows "No data" for a NaN estimate. *)
Theorem nan_is_scored_unhealthy (parse_float : string -> option float) :
  pm25_to_aqi parse_float (PyFloat nan) = Return 201%Z
  /\ get_aqi_alert 201 = Unhealthy
  /\ JS.on_click [] 0%float 0%float = JS.NoData.
Proof. repeat split; vm_compute; reflexivity. Qed.



(** For every float, the two classifiers branch on the same breakpoints and
    evaluate the same line; Python converts the score with [int] (a NaN
    score would be caught and give 0), the script with [Math.round]. *)
Theorem classifiers_share_the_score_line (parse_float : string -> option float)
    (pm25 : float) :
  match score_line pm25 with
  | Some score =>
      pm25_to_aqi parse_float (PyFloat pm25)
      = match py_int score with
        | Raise ValueError | Raise TypeError => Return 0%Z
        | r => r
        end
      /\ JS.aqi pm25 = JS.Math_round score
  | None =>
      pm25_to_aqi parse_float (PyFloat pm25) = Return 201%Z
      /\ JS.aqi pm25 = 201%float
  end.
Proof.
  unfold score_line, pm25_to_aqi, st_cache_data, JS.aqi, py_float.
  repeat (match goal with
          | |- context [PrimFloat.leb pm25 ?b] => destruct (PrimFloat.leb pm25 b)
          end).
  all: split; try reflexivity.
  all: match goal with |- context [py_int ?x] => destruct (py_int x) as [z|[| | |]] end;
    reflexivity.
Qed.

(** ** The grid in exact arithmetic *)

(** In exact real arithmetic, behind the three-sample gate, whatever the
    resolution and the power: every cell of a value mesh that
    [interpolate_idw] returns holds a number between the least and the
    greatest sample value. ([np.arange] may raise instead: no grid is
    returned then.) *)
Theorem grid_cells_within_value_range_exact (data : list (sample R))
    (grid_resolution power : R)
    (grid_lon grid_lat : list (list R)) (grid_values : list (list (option R))) :
  3 <= length data ->
  interpolate_idw data grid_resolution power = Grid grid_lon grid_lat grid_values ->
  forall i j c, get_cell grid_values i j = Some c ->
    exists v, c = Some v
      /\ match map value data with
         | x :: rest =>
             (series_min (num := exact_real) x rest <= v
              <= series_max (num := exact_real) x rest)%R
         | [] => False
         end.
Proof.
  intros Hlen Heq i j c Hc.
  destruct (gate_passed data Hlen) as (first & rest & Hdata & Hrest).
  destruct (grid_cells_is_value data _ _ _ _ _ Hlen Heq i j c Hc) as (qlon & qlat & _ & _ & ->).
  eexists. split; [reflexivity|].
  subst data. cbn [map].
  destruct (series_min_spec (value first) (map value rest)) as [_ Hmin].
  destruct (series_max_spec (value first) (map value rest)) as [_ Hmax].
  apply idw_value_bounds; [discriminate|].
  rewrite List.Forall_forall in Hmin, Hmax |- *. intros s Hs.
  assert (In (value s) (value first :: map value rest))
    by (change (In (value s) (map value (first :: rest))); apply in_map; assumption).
  split; [apply Hmin | apply Hmax]; assumption.
Qed.

Lemma grid_cells_within_value_range_witness :
  (3 <= length demo_stations_exact)%nat
  /\ interpolate_idw demo_stations_exact (1 / 2)%R 2%R
     = Grid (grid_lon_of demo_grid_exact) (grid_lat_of demo_grid_exact)
            (grid_values_of demo_grid_exact)
  /\ forall i j c, get_cell (grid_values_of demo_grid_exact) i j = Some c ->
       exists v, c = Some v
         /\ match map value demo_stations_exact with
            | x :: rest =>
                (series_min (num := exact_real) x rest <= v
                 <= series_max (num := exact_real) x rest)%R
            | [] => False
            end.
Proof.
  assert (Hlen : (3 <= length demo_stations_exact)%nat) by (simpl; lia).
  assert (Hgrid : interpolate_idw demo_stations_exact (1 / 2)%R 2%R
                  = Grid (grid_lon_of demo_grid_exact) (grid_lat_of demo_grid_exact)
                         (grid_values_of demo_grid_exact))
    by (apply interpolate_idw_exact_returned; [assumption | lra]).
  split; [exact Hlen|]. split; [exact Hgrid|].
  exact (grid_cells_within_value_range_exact demo_stations_exact (1 / 2)%R 2%R _ _ _ Hlen Hgrid).
Defined.

(** * The classifiers on every float, the map, the request and the session *)

(** ** Rounding to nearest, ties to even, and the operations of [SpecFloat] *)

Section Powers.
Local Open Scope Z_scope.

Lemma pow2_pos (q : Z) : 0 <= q -> 0 < 2 ^ q.
Proof. intros. apply Z.pow_pos_nonneg; lia. Qed.

Lemma pow2_add (a b : Z) : 0 <= a -> 0 <= b -> 2 ^ (a + b) = 2 ^ a * 2 ^ b.
Proof. intros. apply Z.pow_add_r; assumption. Qed.

Lemma pow2_le (a b : Z) : 0 <= a -> a <= b -> 2 ^ a <= 2 ^ b.
Proof. intros. apply Z.pow_le_mono_r; lia. Qed.

Lemma pow2_lt (a b : Z) : 0 <= a -> a < b -> 2 ^ a < 2 ^ b.
Proof. intros. apply Z.pow_lt_mono_r; lia. Qed.

End Powers.

(** [lia] and [nia] with the large powers of two kept abstract: their
    digits play no part in the proofs, only their order does. *)
Ltac hide_pow n :=
  let P := fresh "P" in set (P := (2 ^ n)%Z) in *; try clearbody P.
Ltac hide_pows :=
  pose proof (pow2_pos 1074 ltac:(lia));
  pose proof (pow2_lt 1074 2098 ltac:(lia) ltac:(lia));
  pose proof (pow2_lt 2098 2100 ltac:(lia) ltac:(lia));
  hide_pow 2098%Z; hide_pow 2100%Z; hide_pow 1074%Z; hide_pow 1075%Z;
  hide_pow (971 + 1074)%Z.
Ltac pow_lia := hide_pows; lia.
Ltac pow_nia := hide_pows; nia.

Section FloatOrder.
Local Open Scope Z_scope.

Lemma rne_bounds (n q : Z) : n / 2 ^ q <= rne n q <= n / 2 ^ q + 1.
Proof.
  unfold rne. destruct (2 * (n mod 2 ^ q) <? 2 ^ q); [lia|].
  destruct (2 ^ q <? 2 * (n mod 2 ^ q)); [lia|].
  destruct (Z.even (n / 2 ^ q)); lia.
Qed.

Lemma rne_exact (n q : Z) : 0 <= q -> n mod 2 ^ q = 0 -> rne n q = n / 2 ^ q.
Proof.
  intros Hq Hr. unfold rne. rewrite Hr. pose proof (pow2_pos q Hq).
  destruct (2 * 0 <? 2 ^ q) eqn:E; [reflexivity|]. apply Z.ltb_ge in E. lia.
Qed.

Lemma rne_mono (n1 n2 q : Z) : 0 <= q -> n1 <= n2 -> rne n1 q <= rne n2 q.
Proof.
  intros Hq Hle. pose proof (pow2_pos q Hq) as HP.
  pose proof (Z.div_le_mono n1 n2 (2 ^ q) HP Hle) as Hm.
  pose proof (rne_bounds n1 q) as B1. pose proof (rne_bounds n2 q) as B2.
  destruct (Z.eq_dec (n1 / 2 ^ q) (n2 / 2 ^ q)) as [E|NE]; [|lia].
  pose proof (Z.div_mod n1 (2 ^ q) ltac:(lia)) as D1.
  pose proof (Z.div_mod n2 (2 ^ q) ltac:(lia)) as D2.
  assert (Hr : n1 mod 2 ^ q <= n2 mod 2 ^ q) by (rewrite E in D1; lia).
  unfold rne. rewrite E.
  repeat match goal with
  | |- context [(?a <? ?b)] => destruct (Z.ltb_spec a b)
  end; try lia; destruct (Z.even (n2 / 2 ^ q)); lia.
Qed.


Lemma log2_bounds (n : Z) : 0 < n -> 2 ^ (Z.log2 n) <= n < 2 ^ (Z.log2 n + 1).
Proof. intros H. pose proof (Z.log2_spec n H). replace (Z.log2 n + 1) with (Z.succ (Z.log2 n)) by lia. lia. Qed.

Lemma rnd_pos_nonneg (u n : Z) : 1074 <= u -> 0 < n -> 0 <= rnd_pos u n.
Proof.
  intros Hu Hn. unfold rnd_pos.
  set (q := Z.max (Z.log2 n + 1 - 53) (u - 1074)).
  assert (Hq : 0 <= q) by (unfold q; lia).
  destruct (2 ^ 2098 <=? rne n q * 2 ^ (q - (u - 1074))); [lia|].
  pose proof (rne_bounds n q). pose proof (pow2_pos q Hq).
  assert (0 <= n / 2 ^ q) by (apply Z.div_pos; lia).
  assert (0 < 2 ^ (q - (u - 1074))) by (apply pow2_pos; lia).
  nia.
Qed.

Lemma rnd_pos_mono (u n1 n2 : Z) :
  1074 <= u -> 0 < n1 -> n1 <= n2 -> rnd_pos u n1 <= rnd_pos u n2.
Proof.
  intros Hu Hn1 Hle. unfold rnd_pos.
  set (w := u - 1074). assert (Hw : 0 <= w) by pow_lia.
  set (q1 := Z.max (Z.log2 n1 + 1 - 53) w).
  set (q2 := Z.max (Z.log2 n2 + 1 - 53) w).
  pose proof (Z.log2_le_mono n1 n2 Hle) as Hlog.
  assert (Hq1 : 0 <= q1) by (unfold q1; pow_lia). assert (Hq12 : q1 <= q2) by (unfold q1, q2; pow_lia).
  set (v1 := rne n1 q1 * 2 ^ (q1 - w)). set (v2 := rne n2 q2 * 2 ^ (q2 - w)).
  assert (Hv : v1 <= v2).
  { subst v1 v2. destruct (Z.eq_dec q1 q2) as [E|NE].
    - rewrite <- E. apply Z.mul_le_mono_nonneg_r.
      + apply Z.lt_le_incl, pow2_pos. pow_lia.
      + apply rne_mono; assumption.
    - assert (Hq2 : q2 = Z.log2 n2 + 1 - 53) by (unfold q1, q2 in *; pow_lia).
      assert (Hq1' : Z.log2 n1 + 1 - 53 <= q1) by (unfold q1; pow_lia).
      pose proof (log2_bounds n1 Hn1) as [_ B1]. pose proof (log2_bounds n2 ltac:(pow_lia)) as [B2 _].
      pose proof (pow2_pos q1 Hq1) as P1. pose proof (pow2_pos q2 ltac:(pow_lia)) as P2.
      pose proof (Z.log2_nonneg n1) as L1. pose proof (Z.log2_nonneg n2) as L2.
      assert (H1 : rne n1 q1 <= 2 ^ 53).
      { pose proof (rne_bounds n1 q1) as [_ Hb].
        assert (n1 / 2 ^ q1 < 2 ^ 53); [|pow_lia].
        apply Z.div_lt_upper_bound; [pow_lia|].
        rewrite <- pow2_add by pow_lia.
        eapply Z.lt_le_trans; [exact B1|]. apply pow2_le; pow_lia. }
      assert (H2 : 2 ^ 52 <= rne n2 q2).
      { pose proof (rne_bounds n2 q2) as [Hb _].
        assert (2 ^ 52 <= n2 / 2 ^ q2); [|pow_lia].
        apply Z.div_le_lower_bound; [pow_lia|].
        rewrite <- pow2_add by pow_lia.
        eapply Z.le_trans; [|exact B2]. apply pow2_le; pow_lia. }
      apply Z.le_trans with (2 ^ 53 * 2 ^ (q1 - w)).
      { apply Z.mul_le_mono_nonneg_r; [apply Z.lt_le_incl, pow2_pos; pow_lia | exact H1]. }
      apply Z.le_trans with (2 ^ 52 * 2 ^ (q2 - w)).
      { rewrite <- !pow2_add by pow_lia. apply pow2_le; pow_lia. }
      apply Z.mul_le_mono_nonneg_r; [apply Z.lt_le_incl, pow2_pos; pow_lia | exact H2]. }
  clearbody v1 v2.
  destruct (Z.leb_spec (2 ^ 2098) v1), (Z.leb_spec (2 ^ 2098) v2); pow_lia.
Qed.

Lemma rnd_mono (u z1 z2 : Z) : 1074 <= u -> z1 <= z2 -> rnd u z1 <= rnd u z2.
Proof.
  intros Hu Hle. destruct z1 as [|p1|p1], z2 as [|p2|p2]; cbn [rnd]; try lia.
  - apply rnd_pos_nonneg; lia.
  - apply rnd_pos_mono; lia.
  - pose proof (rnd_pos_nonneg u (Zpos p1) Hu). lia.
  - pose proof (rnd_pos_nonneg u (Zpos p1) Hu). pose proof (rnd_pos_nonneg u (Zpos p2) Hu). lia.
  - pose proof (rnd_pos_mono u (Zpos p2) (Zpos p1) Hu). lia.
Qed.

Lemma rnd_opp (u z : Z) : rnd u (- z) = - rnd u z.
Proof.
  destruct z as [|p|p]; [reflexivity | reflexivity |].
  change (- Z.neg p) with (Z.pos p). cbn [rnd]. lia.
Qed.

(** ** Shifting a mantissa to the right *)

Lemma shr_1_eq (m : Z) (r s : bool) :
  0 <= m ->
  shr_1 {| shr_m := m; shr_r := r; shr_s := s |}
  = {| shr_m := Z.div2 m; shr_r := Z.odd m; shr_s := r || s |}.
Proof. destruct m as [|[p|p|]|p]; try reflexivity; lia. Qed.

Lemma loc_ok_sticky (r p : Z) (br bs : bool) :
  0 < p -> 0 <= r -> loc_ok r p br bs -> (br || bs = false <-> r = 0).
Proof. destruct br, bs; simpl; intros; split; intros; try discriminate; lia. Qed.

Lemma shr_1_inv (m0 j : Z) (mrs : shr_record) :
  0 <= m0 -> 0 <= j -> shr_inv m0 j mrs -> shr_inv m0 (j + 1) (shr_1 mrs).
Proof.
  intros Hm Hj [Em Hloc]. destruct mrs as [a r s]. simpl in Em, Hloc.
  pose proof (pow2_pos j Hj) as HP.
  assert (Ha : 0 <= a) by (subst a; apply Z.div_pos; lia).
  rewrite shr_1_eq by assumption. unfold shr_inv. simpl.
  pose proof (Z.div_mod m0 (2 ^ j) ltac:(lia)) as D.
  pose proof (Z.mod_pos_bound m0 (2 ^ j) HP) as Br.
  pose proof (Z.div2_odd a) as Da.
  set (b := Z.b2z (Z.odd a)) in *.
  assert (Hb : b = 0 \/ b = 1) by (subst b; destruct (Z.odd a); simpl; lia).
  assert (HP' : 2 ^ (j + 1) = 2 * 2 ^ j) by (rewrite pow2_add by lia; change (2 ^ 1) with 2; lia).
  assert (E : m0 = 2 ^ (j + 1) * Z.div2 a + (b * 2 ^ j + m0 mod 2 ^ j)).
  { rewrite HP'. rewrite <- Em in D. nia. }
  assert (Bnd : 0 <= b * 2 ^ j + m0 mod 2 ^ j < 2 ^ (j + 1)) by nia.
  pose proof (Z.div_mod_unique (2 ^ (j + 1)) (m0 / 2 ^ (j + 1)) (Z.div2 a)
                (m0 mod 2 ^ (j + 1)) (b * 2 ^ j + m0 mod 2 ^ j)) as U.
  destruct U as [Uq Ur].
  { left. apply Z.mod_pos_bound. lia. }
  { left. exact Bnd. }
  { rewrite <- E. symmetry. apply Z.div_mod. lia. }
  split; [symmetry; exact Uq|].
  rewrite Ur. pose proof (loc_ok_sticky _ _ _ _ HP (proj1 Br) Hloc) as Hs.
  subst b. destruct (Z.odd a), (r || s) eqn:Ers; simpl in *.
  - assert (m0 mod 2 ^ j <> 0) by (intros H0; apply Hs in H0; discriminate). lia.
  - assert (m0 mod 2 ^ j = 0) by (apply Hs; reflexivity). lia.
  - assert (m0 mod 2 ^ j <> 0) by (intros H0; apply Hs in H0; discriminate). lia.
  - assert (m0 mod 2 ^ j = 0) by (apply Hs; reflexivity). lia.
Qed.

Lemma iter_shr_1_inv (m0 : Z) (p : positive) (j : Z) (mrs : shr_record) :
  0 <= m0 -> 0 <= j -> shr_inv m0 j mrs ->
  shr_inv m0 (j + Zpos p) (SpecFloat.iter_pos shr_1 p mrs).
Proof.
  intros Hm. revert j mrs. induction p as [p IH|p IH|]; intros j mrs Hj Hinv;
    simpl SpecFloat.iter_pos.
  - apply shr_1_inv in Hinv; [|assumption..].
    apply IH in Hinv; [|lia]. apply IH in Hinv; [|lia].
    replace (j + Zpos p~1) with (j + 1 + Zpos p + Zpos p) by lia. exact Hinv.
  - apply IH in Hinv; [|lia]. apply IH in Hinv; [|lia].
    replace (j + Zpos p~0) with (j + Zpos p + Zpos p) by lia. exact Hinv.
  - apply shr_1_inv; assumption.
Qed.

Lemma shr_inv_round (m0 j : Z) (mrs : shr_record) :
  0 <= j -> shr_inv m0 j mrs ->
  round_nearest_even (shr_m mrs) (loc_of_shr_record mrs) = rne m0 j.
Proof.
  intros Hj [Em Hloc]. destruct mrs as [a r s]. simpl in *. subst a.
  pose proof (pow2_pos j Hj) as HP.
  unfold rne. destruct r, s; simpl in Hloc |- *;
  repeat match goal with
  | |- context [(?a <? ?b)] => destruct (Z.ltb_spec a b)
  end; try lia; reflexivity.
Qed.

(** The first shift of [binary_round_aux] on an exact mantissa. *)
Lemma shr_exact_spec (m e k : Z) :
  0 <= m ->
  let '(mrs, e') := shr (shr_record_of_loc m loc_Exact) e k in
  e' = e + Z.max 0 k
  /\ shr_m mrs = m / 2 ^ Z.max 0 k
  /\ round_nearest_even (shr_m mrs) (loc_of_shr_record mrs) = rne m (Z.max 0 k).
Proof.
  intros Hm.
  assert (Hinv0 : shr_inv m 0 (shr_record_of_loc m loc_Exact)).
  { split; simpl; [rewrite Z.div_1_r; reflexivity | apply Z.mod_1_r]. }
  destruct k as [|p|p]; simpl shr.
  - split; [lia|]. split; [apply Hinv0|]. apply (shr_inv_round m 0); [lia | exact Hinv0].
  - split; [lia|]. replace (Z.max 0 (Zpos p)) with (0 + Zpos p) by lia.
    pose proof (iter_shr_1_inv m p 0 _ Hm ltac:(lia) Hinv0) as Hinv.
    split; [apply Hinv|]. apply shr_inv_round; [lia | exact Hinv].
  - split; [lia|]. split; [apply Hinv0|]. apply (shr_inv_round m 0); [lia | exact Hinv0].
Qed.


(** ** The rounding of [binary_round_aux] *)

Lemma fexp64 (x : Z) : fexp prec emax x = Z.max (x - 53) (-1074).
Proof. reflexivity. Qed.

Lemma digits_bounds (z : Z) : 0 < z -> 2 ^ (Zdigits2 z - 1) <= z < 2 ^ Zdigits2 z.
Proof.
  intros Hz. rewrite digits_log2 by assumption.
  replace (Z.log2 z + 1 - 1) with (Z.log2 z) by lia. apply log2_bounds. assumption.
Qed.

Lemma digits_unique (z n : Z) : 0 < z -> 2 ^ (n - 1) <= z < 2 ^ n -> Zdigits2 z = n.
Proof.
  intros Hz [Hlo Hhi]. rewrite digits_log2 by assumption.
  assert (Hn : 0 < n).
  { destruct (Z_lt_le_dec 0 n) as [|Hn]; [assumption|].
    rewrite (Z.pow_neg_r 2 n) in Hhi by (destruct (Z.eq_dec n 0); [subst; simpl in Hhi|]; lia). lia. }
  assert (Z.log2 z = n - 1); [|lia].
  apply Z.log2_unique; [lia|]. replace (Z.succ (n - 1)) with n by lia. lia.
Qed.

Lemma binary_round_aux_eq (s : bool) (m e : Z) :
  0 < m -> e <= fexp prec emax (Zdigits2 m + e) ->
  binary_round_aux prec emax s m e loc_Exact
  = let E := fexp prec emax (Zdigits2 m + e) in
    let m2 := rne m (E - e) in
    let k2 := Z.max 0 (fexp prec emax (Zdigits2 m2 + E) - E) in
    match m2 / 2 ^ k2 with
    | 0 => S754_zero s
    | Zpos m3 => if E + k2 <=? 971 then S754_finite s m3 (E + k2) else S754_infinity s
    | Zneg _ => S754_nan
    end.
Proof.
  intros Hm Hal. unfold binary_round_aux, shr_fexp.
  set (E := fexp prec emax (Zdigits2 m + e)) in *.
  pose proof (shr_exact_spec m e (E - e) ltac:(lia)) as H1.
  destruct (shr (shr_record_of_loc m loc_Exact) e (E - e)) as [mrs' e'].
  destruct H1 as (He' & _ & Hr). rewrite Hr.
  replace (Z.max 0 (E - e)) with (E - e) in * by lia.
  replace e' with E by lia.
  set (m2 := rne m (E - e)).
  assert (Hm2 : 0 <= m2).
  { pose proof (rne_bounds m (E - e)). pose proof (pow2_pos (E - e) ltac:(lia)).
    assert (0 <= m / 2 ^ (E - e)) by (apply Z.div_pos; lia). lia. }
  pose proof (shr_exact_spec m2 E (fexp prec emax (Zdigits2 m2 + E) - E) Hm2) as H2.
  destruct (shr (shr_record_of_loc m2 loc_Exact) E (fexp prec emax (Zdigits2 m2 + E) - E))
    as [mrs'' e''].
  destruct H2 as (He'' & Hm'' & _). rewrite Hm'', He''. reflexivity.
Qed.

Lemma rne_scale (m k t : Z) : 0 <= k -> 0 <= t -> rne (m * 2 ^ t) (k + t) = rne m k.
Proof.
  intros Hk Ht. unfold rne.
  pose proof (pow2_pos k Hk) as Pk. pose proof (pow2_pos t Ht) as Pt.
  rewrite pow2_add by assumption.
  rewrite Z.div_mul_cancel_r by lia.
  rewrite Z.mul_mod_distr_r by lia.
  set (r := m mod 2 ^ k). set (a := m / 2 ^ k).
  repeat match goal with
  | |- context [(?a <? ?b)] => destruct (Z.ltb_spec a b)
  end; try reflexivity; nia.
Qed.

Lemma log2_mul_pow2 (m t : Z) : 0 < m -> 0 <= t -> Z.log2 (m * 2 ^ t) = Z.log2 m + t.
Proof. intros. rewrite Z.log2_mul_pow2 by lia. lia. Qed.


Lemma binary_round_aux_val (s : bool) (m e u : Z) :
  0 < m -> 1074 <= u -> 0 <= e + u -> e <= fexp prec emax (Zdigits2 m + e) ->
  SFval (binary_round_aux prec emax s m e loc_Exact)
  = Some (cond_Zopp s (rnd_pos u (m * 2 ^ (e + u)))).
Proof.
  intros Hm Hu Ht Hal. rewrite binary_round_aux_eq by assumption.
  cbv zeta. rewrite !fexp64 in *.
  set (d := Zdigits2 m) in *.
  set (E := Z.max (d + e - 53) (-1074)) in *.
  pose proof (digits_pos m Hm) as Hd. fold d in Hd.
  pose proof (digits_bounds m Hm) as Bm. fold d in Bm.
  (* the right-hand side *)
  unfold rnd_pos.
  rewrite log2_mul_pow2 by pow_lia.
  replace (Z.log2 m + (e + u) + 1 - 53) with (d + e - 53 + u)
    by (unfold d; rewrite digits_log2 by assumption; pow_lia).
  replace (Z.max (d + e - 53 + u) (u - 1074)) with (E - e + (e + u)) by (unfold E; pow_lia).
  rewrite rne_scale by pow_lia.
  replace (E - e + (e + u) - (u - 1074)) with (E + 1074) by pow_lia.
  set (m2 := rne m (E - e)).
  pose proof (rne_bounds m (E - e)) as Bm2. fold m2 in Bm2.
  pose proof (pow2_pos (E - e) ltac:(pow_lia)) as Pk.
  assert (Hm' : 0 <= m / 2 ^ (E - e)) by (apply Z.div_pos; pow_lia).
  destruct (Z_le_gt_dec (-1074) (d + e - 53)) as [Hn|Hs].
  - (* a normal result *)
    assert (HE : E = d + e - 53) by (unfold E; pow_lia).
    assert (Hlo : 2 ^ 52 <= m / 2 ^ (E - e)).
    { apply Z.div_le_lower_bound; [pow_lia|]. rewrite <- pow2_add by pow_lia.
      replace (E - e + 52) with (d - 1) by pow_lia. apply Bm. }
    assert (Hhi : m / 2 ^ (E - e) < 2 ^ 53).
    { apply Z.div_lt_upper_bound; [pow_lia|]. rewrite <- pow2_add by pow_lia.
      replace (E - e + 53) with d by pow_lia. apply Bm. }
    destruct (Z.eq_dec m2 (2 ^ 53)) as [Ec|Nc].
    + (* the mantissa rounds up to 2^53 *)
      rewrite Ec. change (Zdigits2 (2 ^ 53)) with 54.
      replace (Z.max 0 (Z.max (54 + E - 53) (-1074) - E)) with 1 by pow_lia.
      change (2 ^ 53 / 2 ^ 1) with (2 ^ 52). change (2 ^ 52) with (Zpos (2 ^ 52)%positive).
      assert (Hv : 2 ^ 53 * 2 ^ (E + 1074) = Zpos (2 ^ 52) * 2 ^ (E + 1 + 1074)).
      { replace (E + 1 + 1074) with (1 + (E + 1074)) by pow_lia.
        rewrite (pow2_add 1) by pow_lia. change (2 ^ 1) with 2. change (2 ^ 53) with (2 * Zpos (2 ^ 52)). pow_lia. }
      destruct (Z.leb_spec (E + 1) 971) as [Hf|Hf]; simpl SFval.
      * destruct (Z.leb_spec (2 ^ 2098) (2 ^ 53 * 2 ^ (E + 1074))) as [Hc|Hc].
        -- exfalso. rewrite <- pow2_add in Hc by pow_lia.
           pose proof (pow2_lt (53 + (E + 1074)) 2098 ltac:(pow_lia) ltac:(pow_lia)). pow_lia.
        -- rewrite Hv. reflexivity.
      * destruct (Z.leb_spec (2 ^ 2098) (2 ^ 53 * 2 ^ (E + 1074))) as [Hc|Hc]; [reflexivity|].
        exfalso. rewrite <- pow2_add in Hc by pow_lia.
        pose proof (pow2_le 2098 (53 + (E + 1074)) ltac:(pow_lia) ltac:(pow_lia)). pow_lia.
    + assert (Hd2 : Zdigits2 m2 = 53) by (apply digits_unique; simpl; pow_lia).
      rewrite Hd2.
      replace (Z.max 0 (Z.max (53 + E - 53) (-1074) - E)) with 0 by pow_lia.
      rewrite Z.div_1_r, Z.add_0_r.
      destruct m2 as [|m3|m3] eqn:Em2; try pow_lia.
      pose proof (pow2_pos (E + 1074) ltac:(pow_lia)) as PE.
      destruct (Z.leb_spec E 971) as [Hf|Hf]; simpl SFval.
      * destruct (Z.leb_spec (2 ^ 2098) (Zpos m3 * 2 ^ (E + 1074))) as [Hc|Hc]; [|reflexivity].
        exfalso.
        assert (Zpos m3 * 2 ^ (E + 1074) < 2 ^ 53 * 2 ^ (E + 1074)) by pow_nia.
        rewrite <- pow2_add in H by pow_lia.
        pose proof (pow2_le (53 + (E + 1074)) 2098 ltac:(pow_lia) ltac:(pow_lia)). pow_lia.
      * destruct (Z.leb_spec (2 ^ 2098) (Zpos m3 * 2 ^ (E + 1074))) as [Hc|Hc]; [reflexivity|].
        exfalso.
        assert (2 ^ 52 * 2 ^ (E + 1074) <= Zpos m3 * 2 ^ (E + 1074)) by pow_nia.
        rewrite <- pow2_add in H by pow_lia.
        pose proof (pow2_le 2098 (52 + (E + 1074)) ltac:(pow_lia) ltac:(pow_lia)). pow_lia.
  - (* a subnormal result *)
    assert (HE : E = -1074) by (unfold E; pow_lia).
    assert (Hhi : m / 2 ^ (E - e) < 2 ^ 52).
    { apply Z.div_lt_upper_bound; [pow_lia|]. rewrite <- pow2_add by pow_lia.
      eapply Z.lt_le_trans; [apply Bm|]. apply pow2_le; pow_lia. }
    assert (Hd2 : Zdigits2 m2 <= 53).
    { destruct (Z.eq_dec m2 0) as [->|]; [simpl; pow_lia|].
      pose proof (digits_bounds m2 ltac:(pow_lia)) as [B _].
      destruct (Z_le_gt_dec (Zdigits2 m2) 53) as [|Hgt]; [assumption|].
      pose proof (pow2_le 53 (Zdigits2 m2 - 1) ltac:(pow_lia) ltac:(pow_lia)).
      assert (2 ^ 52 < 2 ^ 53) by (apply pow2_lt; pow_lia). pow_lia. }
    replace (Z.max 0 (Z.max (Zdigits2 m2 + E - 53) (-1074) - E)) with 0 by pow_lia.
    rewrite Z.div_1_r, Z.add_0_r. rewrite HE. change (-1074 + 1074) with 0.
    change (2 ^ 0) with 1. rewrite Z.mul_1_r.
    assert (Hc : (2 ^ 2098 <=? m2) = false).
    { apply Z.leb_gt. assert (2 ^ 52 < 2 ^ 2098) by (apply pow2_lt; pow_lia). pow_lia. }
    rewrite Hc.
    destruct m2 as [|m3|m3]; try pow_lia; simpl; [destruct s; reflexivity|].
    change (-1074 + 1074) with 0. change (2 ^ 0) with 1. rewrite Z.mul_1_r. reflexivity.
Qed.

(** ** The values of the floats *)

Lemma valid_finite_spec (s : bool) (m : positive) (e : Z) :
  valid_binary (S754_finite s m e) = true ->
  -1074 <= e <= 971 /\ Zdigits2 (Zpos m) <= 53 /\ (e = -1074 \/ Zdigits2 (Zpos m) = 53).
Proof.
  unfold SpecFloat.valid_binary, bounded, canonical_mantissa.
  intros H. apply andb_prop in H as [H1 H2]. apply Z.eqb_eq in H1. apply Z.leb_le in H2.
  rewrite fexp64 in H1. change (Zpos (digits2_pos m)) with (Zdigits2 (Zpos m)) in H1.
  change (emax - prec) with 971 in H2. lia.
Qed.

Lemma finite_val_bounds (s : bool) (m : positive) (e : Z) :
  valid_binary (S754_finite s m e) = true ->
  0 < Zpos m * 2 ^ (e + 1074) < 2 ^ 2098.
Proof.
  intros (He & Hd & _)%valid_finite_spec.
  pose proof (pow2_pos (e + 1074) ltac:(lia)) as P.
  pose proof (digits_bounds (Zpos m) ltac:(lia)) as [_ B].
  split; [lia|].
  apply Z.lt_le_trans with (2 ^ 53 * 2 ^ (e + 1074)).
  - apply Z.mul_lt_mono_pos_r; [assumption|].
    eapply Z.lt_le_trans; [exact B|]. apply pow2_le; [|assumption].
    pose proof (digits_pos (Zpos m)). lia.
  - rewrite <- pow2_add by lia. apply pow2_le; lia.
Qed.

Lemma finite_val_lt (m1 m2 : positive) (e1 e2 : Z) (s1 s2 : bool) :
  valid_binary (S754_finite s1 m1 e1) = true ->
  valid_binary (S754_finite s2 m2 e2) = true ->
  e1 < e2 -> Zpos m1 * 2 ^ (e1 + 1074) < Zpos m2 * 2 ^ (e2 + 1074).
Proof.
  intros (He1 & Hd1 & _)%valid_finite_spec (He2 & Hd2 & Hn2)%valid_finite_spec Hlt.
  pose proof (digits_bounds (Zpos m1) ltac:(lia)) as [_ B1].
  pose proof (digits_bounds (Zpos m2) ltac:(lia)) as [B2 _].
  pose proof (digits_pos (Zpos m1) ltac:(lia)) as D1.
  assert (Hd2' : Zdigits2 (Zpos m2) = 53) by lia. rewrite Hd2' in B2.
  change (2 ^ (53 - 1)) with (2 ^ 52) in B2.
  pose proof (pow2_pos (e1 + 1074) ltac:(lia)) as P1.
  pose proof (pow2_pos (e2 + 1074) ltac:(lia)) as P2.
  apply Z.lt_le_trans with (2 ^ 53 * 2 ^ (e1 + 1074)).
  - apply Z.mul_lt_mono_pos_r; [assumption|].
    eapply Z.lt_le_trans; [exact B1|]. apply pow2_le; lia.
  - apply Z.le_trans with (2 ^ 52 * 2 ^ (e2 + 1074)).
    + rewrite <- !pow2_add by lia. apply pow2_le; lia.
    + apply Z.mul_le_mono_nonneg_r; lia.
Qed.

Lemma compare_cont_Eq (m1 m2 : positive) : Pos.compare_cont Eq m1 m2 = (Zpos m1 ?= Zpos m2).
Proof. reflexivity. Qed.

Lemma mul_compare_r (a b p : Z) : 0 < p -> (a * p ?= b * p) = (a ?= b).
Proof.
  intros Hp. destruct (Z.compare_spec a b);
    [subst; apply Z.compare_refl | apply Z.compare_lt_iff; nia | apply Z.compare_gt_iff; nia].
Qed.

Lemma SFcompare_val (x y : spec_float) :
  valid_binary x = true -> valid_binary y = true ->
  SFcompare x y
  = match SFval x, SFval y with
    | Some a, Some b => Some (a ?= b)
    | _, _ => None
    end.
Proof.
  intros Hx Hy.
  assert (Hinf : 2 ^ 2098 < 2 ^ 2100) by (apply pow2_lt; pow_lia).
  assert (Hpos : 0 < 2 ^ 2098) by (apply pow2_pos; pow_lia).
  destruct x as [sx|sx| |sx mx ex], y as [sy|sy| |sy my ey]; try reflexivity;
    try (pose proof (finite_val_bounds _ _ _ Hx) as Bx);
    try (pose proof (finite_val_bounds _ _ _ Hy) as By);
    cbn [SFcompare SFval];
    try (destruct sx); try (destruct sy); cbn [cond_Zopp];
    try (f_equal; symmetry;
         first [apply Z.compare_eq_iff | apply Z.compare_lt_iff | apply Z.compare_gt_iff];
         pow_lia).
  - f_equal. destruct (Z.compare_spec ex ey) as [->|Hlt|Hgt].
    + rewrite compare_cont_Eq.
      rewrite Z.compare_opp.
      rewrite mul_compare_r by (apply pow2_pos; apply valid_finite_spec in Hy; pow_lia).
      rewrite (Z.compare_antisym (Zpos mx) (Zpos my)). reflexivity.
    + pose proof (finite_val_lt _ _ _ _ _ _ Hx Hy Hlt). symmetry. apply Z.compare_gt_iff. pow_lia.
    + pose proof (finite_val_lt _ _ _ _ _ _ Hy Hx ltac:(pow_lia)). symmetry. apply Z.compare_lt_iff. pow_lia.
  - f_equal. destruct (Z.compare_spec ex ey) as [->|Hlt|Hgt].
    + rewrite compare_cont_Eq.
      rewrite mul_compare_r by (apply pow2_pos; apply valid_finite_spec in Hy; pow_lia).
      reflexivity.
    + pose proof (finite_val_lt _ _ _ _ _ _ Hx Hy Hlt). symmetry. apply Z.compare_lt_iff. pow_lia.
    + pose proof (finite_val_lt _ _ _ _ _ _ Hy Hx ltac:(pow_lia)). symmetry. apply Z.compare_gt_iff. pow_lia.
Qed.

Lemma fval_compare (x y : float) (a b : Z) :
  fval x = Some a -> fval y = Some b ->
  PrimFloat.leb x y = (a <=? b) /\ PrimFloat.ltb x y = (a <? b) /\ PrimFloat.eqb x y = (a =? b).
Proof.
  unfold fval. intros Ha Hb.
  rewrite leb_spec, ltb_spec, FloatAxioms.eqb_spec. unfold SFleb, SFltb, SFeqb.
  rewrite (SFcompare_val _ _ (Prim2SF_valid x) (Prim2SF_valid y)), Ha, Hb.
  rewrite (Z.eqb_compare a b). unfold Z.leb, Z.ltb. destruct (a ?= b); repeat split; reflexivity.
Qed.

Lemma fval_nan_l (x y : float) :
  fval x = None -> PrimFloat.leb x y = false /\ PrimFloat.ltb x y = false /\ PrimFloat.eqb x y = false.
Proof.
  unfold fval. intros Ha.
  rewrite leb_spec, ltb_spec, FloatAxioms.eqb_spec. unfold SFleb, SFltb, SFeqb.
  rewrite (SFcompare_val _ _ (Prim2SF_valid x) (Prim2SF_valid y)), Ha. repeat split; reflexivity.
Qed.

Lemma fval_nan_r (x y : float) :
  fval y = None -> PrimFloat.leb x y = false /\ PrimFloat.ltb x y = false /\ PrimFloat.eqb x y = false.
Proof.
  unfold fval. intros Hb.
  rewrite leb_spec, ltb_spec, FloatAxioms.eqb_spec. unfold SFleb, SFltb, SFeqb.
  rewrite (SFcompare_val _ _ (Prim2SF_valid x) (Prim2SF_valid y)), Hb.
  destruct (SFval (Prim2SF x)); repeat split; reflexivity.
Qed.

Lemma leb_fval (x y : float) :
  PrimFloat.leb x y = true <-> exists a b, fval x = Some a /\ fval y = Some b /\ a <= b.
Proof.
  split.
  - intros H. destruct (fval x) as [a|] eqn:Ea; [|rewrite (proj1 (fval_nan_l x y Ea)) in H; discriminate].
    destruct (fval y) as [b|] eqn:Eb; [|rewrite (proj1 (fval_nan_r x y Eb)) in H; discriminate].
    exists a, b. rewrite (proj1 (fval_compare x y a b Ea Eb)) in H. apply Z.leb_le in H. auto.
  - intros (a & b & Ea & Eb & Hle). rewrite (proj1 (fval_compare x y a b Ea Eb)). apply Z.leb_le. exact Hle.
Qed.

Lemma ltb_fval (x y : float) :
  PrimFloat.ltb x y = true <-> exists a b, fval x = Some a /\ fval y = Some b /\ a < b.
Proof.
  split.
  - intros H. destruct (fval x) as [a|] eqn:Ea;
      [|rewrite (proj1 (proj2 (fval_nan_l x y Ea))) in H; discriminate].
    destruct (fval y) as [b|] eqn:Eb;
      [|rewrite (proj1 (proj2 (fval_nan_r x y Eb))) in H; discriminate].
    exists a, b. rewrite (proj1 (proj2 (fval_compare x y a b Ea Eb))) in H.
    apply Z.ltb_lt in H. auto.
  - intros (a & b & Ea & Eb & Hle).
    rewrite (proj1 (proj2 (fval_compare x y a b Ea Eb))). apply Z.ltb_lt. exact Hle.
Qed.

(** ** The values of a product, a sum and a difference *)

Lemma rnd_of_pos (u n : Z) : 0 < n -> rnd u n = rnd_pos u n.
Proof. destruct n; try lia. reflexivity. Qed.

Lemma rnd_cond_Zopp (u n : Z) (s : bool) : 0 < n -> rnd u (cond_Zopp s n) = cond_Zopp s (rnd_pos u n).
Proof.
  intros Hn. destruct s; cbn [cond_Zopp]; [rewrite rnd_opp|]; rewrite rnd_of_pos by assumption;
    reflexivity.
Qed.

Lemma rnd_pos_exact (s : bool) (m : positive) (e : Z) :
  valid_binary (S754_finite s m e) = true ->
  rnd_pos 1074 (Zpos m * 2 ^ (e + 1074)) = Zpos m * 2 ^ (e + 1074).
Proof.
  intros Hv. pose proof (finite_val_bounds _ _ _ Hv) as B.
  apply valid_finite_spec in Hv as (He & Hd & Hc).
  unfold rnd_pos. rewrite log2_mul_pow2 by pow_lia.
  pose proof (digits_log2 (Zpos m) ltac:(pow_lia)) as HD.
  replace (Z.max (Z.log2 (Zpos m) + (e + 1074) + 1 - 53) (1074 - 1074)) with (0 + (e + 1074)) by pow_lia.
  rewrite rne_scale by pow_lia.
  replace (rne (Zpos m) 0) with (Zpos m).
  2:{ unfold rne. change (2 ^ 0) with 1. rewrite Z.div_1_r, Z.mod_1_r. reflexivity. }
  replace (0 + (e + 1074) - (1074 - 1074)) with (e + 1074) by pow_lia.
  destruct (Z.leb_spec (2 ^ 2098) (Zpos m * 2 ^ (e + 1074))); [pow_lia | reflexivity].
Qed.

Lemma rnd_exact (s : bool) (m : positive) (e : Z) :
  valid_binary (S754_finite s m e) = true ->
  rnd 1074 (cond_Zopp s (Zpos m * 2 ^ (e + 1074))) = cond_Zopp s (Zpos m * 2 ^ (e + 1074)).
Proof.
  intros Hv. pose proof (finite_val_bounds _ _ _ Hv) as B.
  rewrite rnd_cond_Zopp by lia. rewrite (rnd_pos_exact s) by assumption. reflexivity.
Qed.

Lemma iter_xO (m d : positive) : Zpos (Pos.iter xO m d) = Zpos m * 2 ^ Zpos d.
Proof.
  change (Pos.iter xO m d) with (shift_pos d m).
  rewrite shift_pos_correct. change (Z.pow_pos 2 d) with (2 ^ Zpos d). lia.
Qed.

Lemma shl_align_fst (m : positive) (e e' : Z) :
  e' <= e -> Zpos (fst (shl_align m e e')) = Zpos m * 2 ^ (e - e').
Proof.
  intros Hle. unfold shl_align. destruct (e' - e) as [|p|p] eqn:E; try lia; cbn [fst].
  - replace (e - e') with 0 by lia. simpl. lia.
  - rewrite iter_xO. f_equal. f_equal. lia.
Qed.

Lemma binary_round_val (s : bool) (m : positive) (e : Z) :
  -1074 <= e ->
  SFval (binary_round prec emax s m e)
  = Some (cond_Zopp s (rnd_pos 1074 (Zpos m * 2 ^ (e + 1074)))).
Proof.
  intros He. unfold binary_round, shl_align.
  change (Zpos (digits2_pos m)) with (Zdigits2 (Zpos m)).
  set (F := fexp prec emax (Zdigits2 (Zpos m) + e)).
  assert (HF : -1074 <= F) by (unfold F; rewrite fexp64; lia).
  destruct (F - e) as [|p|p] eqn:E.
  - rewrite (binary_round_aux_val s (Zpos m) e 1074) by (fold F; lia). reflexivity.
  - rewrite (binary_round_aux_val s (Zpos m) e 1074) by (fold F; lia). reflexivity.
  - assert (Hd : Zdigits2 (Zpos (Pos.iter xO m p)) + F = Zdigits2 (Zpos m) + e).
    { rewrite iter_xO. rewrite !digits_log2 by (try apply Z.mul_pos_pos; try apply pow2_pos; lia).
      rewrite log2_mul_pow2 by lia. lia. }
    rewrite (binary_round_aux_val s (Zpos (Pos.iter xO m p)) F 1074); try lia.
    + rewrite iter_xO. do 3 f_equal. rewrite <- Z.mul_assoc, <- pow2_add by lia.
      f_equal. f_equal. lia.
    + rewrite Hd. fold F. lia.
Qed.

Lemma binary_normalize_val (z e : Z) (szero : bool) :
  -1074 <= e ->
  SFval (binary_normalize prec emax z e szero) = Some (rnd 1074 (z * 2 ^ (e + 1074))).
Proof.
  intros He. pose proof (pow2_pos (e + 1074) ltac:(lia)) as P.
  destruct z as [|m|m]; cbn [binary_normalize].
  - reflexivity.
  - rewrite binary_round_val by assumption. cbn [cond_Zopp].
    rewrite rnd_of_pos by lia. reflexivity.
  - rewrite binary_round_val by assumption. cbn [cond_Zopp].
    replace (Zneg m * 2 ^ (e + 1074)) with (- (Zpos m * 2 ^ (e + 1074))) by lia.
    rewrite rnd_opp, rnd_of_pos by lia. reflexivity.
Qed.

(** A float that is neither NaN nor an infinity. *)
Lemma SFval_finite (x : spec_float) (a : Z) :
  valid_binary x = true -> SFval x = Some a -> - 2 ^ 2098 < a < 2 ^ 2098 ->
  match x with S754_zero _ | S754_finite _ _ _ => True | _ => False end.
Proof.
  intros Hv Ha Hb. destruct x as [s|s| |s m e]; try exact I; try discriminate.
  cbn [SFval] in Ha. injection Ha as <-.
  destruct s; cbn [cond_Zopp] in Hb; pow_lia.
Qed.

Lemma SFadd_val (x y : spec_float) (a b : Z) :
  valid_binary x = true -> valid_binary y = true ->
  SFval x = Some a -> SFval y = Some b ->
  - 2 ^ 2098 < a < 2 ^ 2098 -> - 2 ^ 2098 < b < 2 ^ 2098 ->
  SFval (SF64add x y) = Some (rnd 1074 (a + b)).
Proof.
  intros Hx Hy Ha Hb Ba Bb.
  pose proof (SFval_finite x a Hx Ha Ba) as Fx. pose proof (SFval_finite y b Hy Hb Bb) as Fy.
  destruct x as [sx|sx| |sx mx ex], y as [sy|sy| |sy my ey]; try contradiction;
    cbn [SFval] in Ha, Hb; injection Ha as <-; injection Hb as <-; unfold SF64add; cbn [SFadd].
  - destruct sx, sy; reflexivity.
  - cbn [SFval]. rewrite Z.add_0_l, rnd_exact by assumption. reflexivity.
  - cbn [SFval]. rewrite Z.add_0_r, rnd_exact by assumption. reflexivity.
  - apply valid_finite_spec in Hx as (Hex & _). apply valid_finite_spec in Hy as (Hey & _).
    rewrite binary_normalize_val by lia.
    rewrite !shl_align_fst by lia. do 2 f_equal.
    set (ez := Z.min ex ey).
    assert (Hx' : Zpos mx * 2 ^ (ex + 1074) = Zpos mx * 2 ^ (ex - ez) * 2 ^ (ez + 1074)).
    { rewrite <- Z.mul_assoc, <- pow2_add by (unfold ez; lia). do 2 f_equal. lia. }
    assert (Hy' : Zpos my * 2 ^ (ey + 1074) = Zpos my * 2 ^ (ey - ez) * 2 ^ (ez + 1074)).
    { rewrite <- Z.mul_assoc, <- pow2_add by (unfold ez; lia). do 2 f_equal. lia. }
    rewrite Hx', Hy'. destruct sx, sy; cbn [cond_Zopp]; lia.
Qed.

Lemma SFsub_val (x y : spec_float) (a b : Z) :
  valid_binary x = true -> valid_binary y = true ->
  SFval x = Some a -> SFval y = Some b ->
  - 2 ^ 2098 < a < 2 ^ 2098 -> - 2 ^ 2098 < b < 2 ^ 2098 ->
  SFval (SF64sub x y) = Some (rnd 1074 (a - b)).
Proof.
  intros Hx Hy Ha Hb Ba Bb.
  pose proof (SFval_finite x a Hx Ha Ba) as Fx. pose proof (SFval_finite y b Hy Hb Bb) as Fy.
  destruct x as [sx|sx| |sx mx ex], y as [sy|sy| |sy my ey]; try contradiction;
    cbn [SFval] in Ha, Hb; injection Ha as <-; injection Hb as <-; unfold SF64sub; cbn [SFsub].
  - destruct sx, sy; reflexivity.
  - cbn [SFval]. rewrite Z.sub_0_l.
    replace (- cond_Zopp sy (Zpos my * 2 ^ (ey + 1074)))
      with (cond_Zopp (negb sy) (Zpos my * 2 ^ (ey + 1074))) by (destruct sy; simpl; lia).
    rewrite rnd_exact; [reflexivity|]. exact Hy.
  - cbn [SFval]. rewrite Z.sub_0_r, rnd_exact by assumption. reflexivity.
  - apply valid_finite_spec in Hx as (Hex & _). apply valid_finite_spec in Hy as (Hey & _).
    rewrite binary_normalize_val by lia.
    rewrite !shl_align_fst by lia. do 2 f_equal.
    set (ez := Z.min ex ey).
    assert (Hx' : Zpos mx * 2 ^ (ex + 1074) = Zpos mx * 2 ^ (ex - ez) * 2 ^ (ez + 1074)).
    { rewrite <- Z.mul_assoc, <- pow2_add by (unfold ez; lia). do 2 f_equal. lia. }
    assert (Hy' : Zpos my * 2 ^ (ey + 1074) = Zpos my * 2 ^ (ey - ez) * 2 ^ (ez + 1074)).
    { rewrite <- Z.mul_assoc, <- pow2_add by (unfold ez; lia). do 2 f_equal. lia. }
    rewrite Hx', Hy'. destruct sx, sy; cbn [cond_Zopp]; lia.
Qed.

Lemma SFmul_val (x y : spec_float) (a b : Z) :
  valid_binary x = true -> valid_binary y = true ->
  SFval x = Some a -> SFval y = Some b ->
  - 2 ^ 2098 < a < 2 ^ 2098 -> - 2 ^ 2098 < b < 2 ^ 2098 ->
  SFval (SF64mul x y) = Some (rnd 2148 (a * b)).
Proof.
  intros Hx Hy Ha Hb Ba Bb.
  pose proof (SFval_finite x a Hx Ha Ba) as Fx. pose proof (SFval_finite y b Hy Hb Bb) as Fy.
  destruct x as [sx|sx| |sx mx ex], y as [sy|sy| |sy my ey]; try contradiction;
    cbn [SFval] in Ha, Hb; injection Ha as <-; injection Hb as <-; unfold SF64mul; cbn [SFmul SFval].
  - reflexivity.
  - reflexivity.
  - rewrite Z.mul_0_r. reflexivity.
  - pose proof (finite_val_bounds _ _ _ Hx) as Vx. pose proof (finite_val_bounds _ _ _ Hy) as Vy.
    apply valid_finite_spec in Hx as (Hex & Hdx & Hcx).
    apply valid_finite_spec in Hy as (Hey & Hdy & Hcy).
    pose proof (digits_pos (Zpos mx) ltac:(lia)) as Px.
    pose proof (digits_pos (Zpos my) ltac:(lia)) as Py.
    assert (HD : Zdigits2 (Zpos mx) + Zdigits2 (Zpos my) - 1 <= Zdigits2 (Zpos (mx * my))).
    { rewrite !digits_log2 by lia. rewrite Pos2Z.inj_mul.
      pose proof (Z.log2_mul_below (Zpos mx) (Zpos my)). lia. }
    rewrite (binary_round_aux_val (xorb sx sy) (Zpos (mx * my)) (ex + ey) 2148);
      [| lia | lia | lia | rewrite fexp64; lia].
    f_equal.
    replace (cond_Zopp sx (Zpos mx * 2 ^ (ex + 1074)) * cond_Zopp sy (Zpos my * 2 ^ (ey + 1074)))
      with (cond_Zopp (xorb sx sy) (Zpos (mx * my) * 2 ^ (ex + ey + 2148))).
    2:{ replace (ex + ey + 2148) with ((ex + 1074) + (ey + 1074)) by lia.
        rewrite pow2_add by lia. rewrite Pos2Z.inj_mul.
        destruct sx, sy; cbn [cond_Zopp xorb]; lia. }
    rewrite rnd_cond_Zopp; [reflexivity|].
    apply Z.mul_pos_pos; [lia | apply pow2_pos; lia].
Qed.

(** ** Floats: finiteness, order and the monotonicity of the operations *)

Lemma is_finite_fval (x : float) :
  Binary64.is_finite x = true <-> exists a, fval x = Some a /\ - 2 ^ 2098 < a < 2 ^ 2098.
Proof.
  unfold Binary64.is_finite, fval. pose proof (Prim2SF_valid x) as Hv.
  assert (Hinf : 2 ^ 2098 < 2 ^ 2100) by (apply pow2_lt; pow_lia).
  destruct (Prim2SF x) as [s|s| |s m e]; cbn [SFval].
  - split; [|reflexivity]. intros _. exists 0. split; [reflexivity | pow_lia].
  - split; [discriminate|]. intros (a & [= <-] & B). destruct s; cbn [cond_Zopp] in B; pow_lia.
  - split; [discriminate|]. intros (a & [=] & _).
  - split; [|reflexivity]. intros _. pose proof (finite_val_bounds _ _ _ Hv).
    eexists. split; [reflexivity|]. destruct s; cbn [cond_Zopp]; pow_lia.
Qed.

Lemma between_finite (l u x : float) :
  Binary64.is_finite l = true -> Binary64.is_finite u = true -> between l u x ->
  Binary64.is_finite x = true.
Proof.
  intros (a & Ha & Ba)%is_finite_fval (b & Hb & Bb)%is_finite_fval [H1 H2].
  apply leb_fval in H1 as (a' & v & Ha' & Hv & Hle1).
  apply leb_fval in H2 as (v' & b' & Hv' & Hb' & Hle2).
  apply is_finite_fval. exists v. split; [assumption|]. 
  assert (a' = a) by congruence. assert (b' = b) by congruence. assert (v' = v) by congruence.
  pow_lia.
Qed.

Lemma fval_add (x y : float) (a b : Z) :
  fval x = Some a -> fval y = Some b ->
  - 2 ^ 2098 < a < 2 ^ 2098 -> - 2 ^ 2098 < b < 2 ^ 2098 ->
  fval (x + y) = Some (rnd 1074 (a + b)).
Proof.
  unfold fval. intros. rewrite add_spec. apply SFadd_val; auto using Prim2SF_valid.
Qed.

Lemma fval_sub (x y : float) (a b : Z) :
  fval x = Some a -> fval y = Some b ->
  - 2 ^ 2098 < a < 2 ^ 2098 -> - 2 ^ 2098 < b < 2 ^ 2098 ->
  fval (x - y) = Some (rnd 1074 (a - b)).
Proof.
  unfold fval. intros. rewrite sub_spec. apply SFsub_val; auto using Prim2SF_valid.
Qed.

Lemma fval_mul (x y : float) (a b : Z) :
  fval x = Some a -> fval y = Some b ->
  - 2 ^ 2098 < a < 2 ^ 2098 -> - 2 ^ 2098 < b < 2 ^ 2098 ->
  fval (x * y) = Some (rnd 2148 (a * b)).
Proof.
  unfold fval. intros. rewrite mul_spec. apply SFmul_val; auto using Prim2SF_valid.
Qed.

(** The three values of [l <= x <= u] between finite bounds. *)
Lemma between_fval (l u x : float) :
  Binary64.is_finite l = true -> Binary64.is_finite u = true -> between l u x ->
  exists a v b,
    fval l = Some a /\ fval x = Some v /\ fval u = Some b /\ a <= v <= b
    /\ - 2 ^ 2098 < a /\ b < 2 ^ 2098.
Proof.
  intros (a & Ha & Ba)%is_finite_fval (b & Hb & Bb)%is_finite_fval [H1 H2].
  apply leb_fval in H1 as (a' & v & Ha' & Hv & Hle1).
  apply leb_fval in H2 as (v' & b' & Hv' & Hb' & Hle2).
  assert (a' = a) by congruence. assert (b' = b) by congruence. assert (v' = v) by congruence.
  subst. exists a, v, b. repeat split; try assumption; pow_lia.
Qed.

Lemma add_between (c l u x : float) :
  Binary64.is_finite c = true -> Binary64.is_finite l = true -> Binary64.is_finite u = true ->
  between l u x -> between (c + l) (c + u) (c + x).
Proof.
  intros (k & Hk & Bk)%is_finite_fval Fl Fu Hb.
  destruct (between_fval l u x Fl Fu Hb) as (a & v & b & Ha & Hv & Hb' & Hle & Blo & Bhi).
  split; apply leb_fval.
  - exists (rnd 1074 (k + a)), (rnd 1074 (k + v)).
    split; [apply fval_add; try assumption; pow_lia|].
    split; [apply fval_add; try assumption; pow_lia|]. apply rnd_mono; pow_lia.
  - exists (rnd 1074 (k + v)), (rnd 1074 (k + b)).
    split; [apply fval_add; try assumption; pow_lia|].
    split; [apply fval_add; try assumption; pow_lia|]. apply rnd_mono; pow_lia.
Qed.

Lemma sub_between (c l u x : float) :
  Binary64.is_finite c = true -> Binary64.is_finite l = true -> Binary64.is_finite u = true ->
  between l u x -> between (l - c) (u - c) (x - c).
Proof.
  intros (k & Hk & Bk)%is_finite_fval Fl Fu Hb.
  destruct (between_fval l u x Fl Fu Hb) as (a & v & b & Ha & Hv & Hb' & Hle & Blo & Bhi).
  split; apply leb_fval.
  - exists (rnd 1074 (a - k)), (rnd 1074 (v - k)).
    split; [apply fval_sub; try assumption; pow_lia|].
    split; [apply fval_sub; try assumption; pow_lia|]. apply rnd_mono; pow_lia.
  - exists (rnd 1074 (v - k)), (rnd 1074 (b - k)).
    split; [apply fval_sub; try assumption; pow_lia|].
    split; [apply fval_sub; try assumption; pow_lia|]. apply rnd_mono; pow_lia.
Qed.

Lemma mul_between (c l u x : float) :
  Binary64.is_finite c = true -> PrimFloat.leb 0 c = true ->
  Binary64.is_finite l = true -> Binary64.is_finite u = true ->
  between l u x -> between (c * l) (c * u) (c * x).
Proof.
  intros (k & Hk & Bk)%is_finite_fval Hc Fl Fu Hb.
  apply leb_fval in Hc as (z & k' & Hz & Hk' & Hzk).
  assert (z = 0) by (unfold fval in Hz; simpl in Hz; congruence).
  assert (k' = k) by congruence. subst z k'.
  destruct (between_fval l u x Fl Fu Hb) as (a & v & b & Ha & Hv & Hb' & Hle & Blo & Bhi).
  split; apply leb_fval.
  - exists (rnd 2148 (k * a)), (rnd 2148 (k * v)).
    split; [apply fval_mul; try assumption; pow_lia|].
    split; [apply fval_mul; try assumption; pow_lia|]. apply rnd_mono; [pow_lia | pow_nia].
  - exists (rnd 2148 (k * v)), (rnd 2148 (k * b)).
    split; [apply fval_mul; try assumption; pow_lia|].
    split; [apply fval_mul; try assumption; pow_lia|]. apply rnd_mono; [pow_lia | pow_nia].
Qed.

(** [int(x)] in terms of the value. *)
Lemma trunc_fval (x : float) (a : Z) :
  fval x = Some a -> - 2 ^ 2098 < a < 2 ^ 2098 ->
  Binary64.trunc x = Some (Z.quot a (2 ^ 1074)).
Proof.
  unfold fval, Binary64.trunc. intros Ha Ba. pose proof (Prim2SF_valid x) as Hv.
  pose proof (SFval_finite _ _ Hv Ha Ba) as Hf.
  destruct (Prim2SF x) as [s|s| |s m e]; try contradiction; cbn [SFval] in Ha; injection Ha as <-.
  - reflexivity.
  - apply valid_finite_spec in Hv as (He & _).
    assert (Hq : Zpos m * 2 ^ (e + 1074) / 2 ^ 1074
                 = if 0 <=? e then Zpos m * 2 ^ e else Zpos m / 2 ^ (- e)).
    { destruct (Z.leb_spec 0 e).
      - rewrite (Z.add_comm e), pow2_add, Z.mul_assoc by lia.
        rewrite (Z.mul_comm (Zpos m)), <- Z.mul_assoc, Z.mul_comm.
        apply Z.div_mul. pose proof (pow2_pos 1074). lia.
      - replace (2 ^ 1074) with (2 ^ (- e) * 2 ^ (e + 1074))
          by (rewrite <- pow2_add by lia; f_equal; lia).
        apply Z.div_mul_cancel_r; pose proof (pow2_pos (- e)); pose proof (pow2_pos (e + 1074)); lia. }
    f_equal. pose proof (pow2_pos (e + 1074) ltac:(lia)). pose proof (pow2_pos 1074 ltac:(lia)).
    destruct s; cbn [cond_Zopp].
    + rewrite Z.quot_opp_l by lia. rewrite Z.quot_div_nonneg by lia. rewrite Hq. reflexivity.
    + rewrite Z.quot_div_nonneg by lia. rewrite Hq. reflexivity.
Qed.

Lemma trunc_between (l u x : float) (nl nu : Z) :
  Binary64.is_finite l = true -> Binary64.is_finite u = true -> between l u x ->
  Binary64.trunc l = Some nl -> Binary64.trunc u = Some nu ->
  exists n, Binary64.trunc x = Some n /\ nl <= n <= nu.
Proof.
  intros Fl Fu Hb Hl Hu.
  destruct (between_fval l u x Fl Fu Hb) as (a & v & b & Ha & Hv & Hb' & Hle & Blo & Bhi).
  rewrite (trunc_fval l a) in Hl by (assumption || pow_lia).
  rewrite (trunc_fval u b) in Hu by (assumption || pow_lia).
  injection Hl as <-. injection Hu as <-.
  exists (Z.quot v (2 ^ 1074)). split; [apply trunc_fval; [assumption | pow_lia]|].
  pose proof (pow2_pos 1074 ltac:(pow_lia)).
  split; apply Z.quot_le_mono; pow_lia.
Qed.

End FloatOrder.

(** ** Comparisons, and the gap between a float and the next *)

Section Thresholds.
Local Open Scope float_scope.

Lemma leb_false_ltb (x y : float) (a b : Z) :
  fval x = Some a -> fval y = Some b -> PrimFloat.leb x y = false -> PrimFloat.ltb y x = true.
Proof.
  intros Ha Hb H. rewrite (proj1 (fval_compare x y a b Ha Hb)) in H.
  rewrite (proj1 (proj2 (fval_compare y x b a Hb Ha))).
  apply Z.leb_gt in H. apply Z.ltb_lt. lia.
Qed.

Lemma ltb_leb (x y : float) : PrimFloat.ltb x y = true -> PrimFloat.leb x y = true.
Proof.
  intros (a & b & Ha & Hb & Hlt)%ltb_fval. apply leb_fval. exists a, b. repeat split; auto; lia.
Qed.

(** No float lies strictly between a positive finite float [t] and the
    float [t'] one unit in the last place above it. *)
Lemma float_gap (t t' x : float) (m : positive) (e : Z) :
  Prim2SF t = S754_finite false m e ->
  fval t' = Some (Zpos m * 2 ^ (e + 1074) + 2 ^ (e + 1074))%Z ->
  PrimFloat.ltb t x = true -> PrimFloat.leb t' x = true.
Proof.
  intros Ht Ht' (a & b & Ha & Hb & Hlt)%ltb_fval.
  apply leb_fval. eexists _, b. split; [exact Ht'|]. split; [exact Hb|].
  unfold fval in Ha, Hb. rewrite Ht in Ha. cbn [SFval cond_Zopp] in Ha. injection Ha as <-.
  pose proof (Prim2SF_valid t) as Vt. rewrite Ht in Vt.
  pose proof (Prim2SF_valid x) as Vx.
  pose proof (finite_val_bounds _ _ _ Vt) as Bt.
  assert (Hinf : (2 ^ 2098 < 2 ^ 2100)%Z) by (apply pow2_lt; pow_lia).
  pose proof (valid_finite_spec _ _ _ Vt) as (Het & Hdt & _).
  pose proof (pow2_pos (e + 1074) ltac:(pow_lia)) as Pe.
  destruct (Prim2SF x) as [s|s| |s mx ex]; cbn [SFval] in Hb; try discriminate;
    injection Hb as <-.
  - pow_lia.
  - destruct s; cbn [cond_Zopp] in *; [pow_lia|].
    assert (Zpos m * 2 ^ (e + 1074) + 2 ^ (e + 1074) <= 2 ^ 53 * 2 ^ (e + 1074))%Z.
    { pose proof (digits_bounds (Zpos m) ltac:(pow_lia)) as [_ B].
      assert (2 ^ Zdigits2 (Zpos m) <= 2 ^ 53)%Z
        by (apply pow2_le; [pose proof (digits_pos (Zpos m)); pow_lia | pow_lia]).
      pow_nia. }
    assert (2 ^ 53 * 2 ^ (e + 1074) <= 2 ^ 2098)%Z
      by (rewrite <- pow2_add by pow_lia; apply pow2_le; pow_lia).
    pow_lia.
  - pose proof (finite_val_bounds _ _ _ Vx) as Bx.
    destruct s; cbn [cond_Zopp] in *; [pow_lia|].
    destruct (Z_lt_le_dec ex e) as [Hex|Hex].
    + pose proof (finite_val_lt _ _ _ _ _ _ Vx Vt Hex). pow_lia.
    + assert (Epow : (2 ^ (ex + 1074) = 2 ^ (ex - e) * 2 ^ (e + 1074))%Z)
        by (rewrite <- pow2_add by pow_lia; f_equal; pow_lia).
      rewrite Epow in *.
      pose proof (pow2_pos (ex - e) ltac:(pow_lia)).
      set (G := (2 ^ (e + 1074))%Z) in *. set (P := (2 ^ (ex - e))%Z) in *.
      assert (Zpos m < Zpos mx * P)%Z by (apply (Z.mul_lt_mono_pos_r G); pow_lia).
      assert ((Zpos m + 1) * G <= Zpos mx * P * G)%Z by (apply Z.mul_le_mono_nonneg_r; pow_lia).
      pow_lia.
Qed.


Lemma leb_trans (x y z : float) :
  PrimFloat.leb x y = true -> PrimFloat.leb y z = true -> PrimFloat.leb x z = true.
Proof.
  intros (a & b & Ha & Hb & H1)%leb_fval (b' & c & Hb' & Hc & H2)%leb_fval.
  apply leb_fval. exists a, c. assert (b' = b) by congruence. repeat split; auto; lia.
Qed.

Lemma ltb_not_leb (x y : float) : PrimFloat.ltb x y = true -> PrimFloat.leb y x = false.
Proof.
  intros (a & b & Ha & Hb & Hlt)%ltb_fval.
  rewrite (proj1 (fval_compare y x b a Hb Ha)). apply Z.leb_gt. exact Hlt.
Qed.

Lemma leb_fval_l (x y : float) : PrimFloat.leb x y = true -> exists a, fval x = Some a.
Proof. intros (a & b & Ha & _)%leb_fval. eauto. Qed.

Lemma leb_fval_r (x y : float) : PrimFloat.leb x y = true -> exists b, fval y = Some b.
Proof. intros (a & b & _ & Hb & _)%leb_fval. eauto. Qed.

(** [a + c * (x - k)] stays between its values at the ends of an interval. *)
Lemma line_between (a c k l u x : float) :
  Binary64.is_finite a = true -> Binary64.is_finite c = true -> Binary64.is_finite k = true ->
  PrimFloat.leb 0 c = true ->
  Binary64.is_finite l = true -> Binary64.is_finite u = true ->
  Binary64.is_finite (l - k) = true -> Binary64.is_finite (u - k) = true ->
  Binary64.is_finite (c * (l - k)) = true -> Binary64.is_finite (c * (u - k)) = true ->
  between l u x ->
  between (a + c * (l - k)) (a + c * (u - k)) (a + c * (x - k)).
Proof.
  intros Fa Fc Fk Hc Fl Fu Fl1 Fu1 Fl2 Fu2 Hb.
  apply add_between; try assumption.
  apply mul_between; try assumption.
  apply sub_between; assumption.
Qed.

Lemma py_int_between (l u y : float) (nl nu : Z) :
  Binary64.is_finite l = true -> Binary64.is_finite u = true -> between l u y ->
  Binary64.trunc l = Some nl -> Binary64.trunc u = Some nu ->
  exists n, py_int y = Return n /\ (nl <= n <= nu)%Z.
Proof.
  intros Fl Fu Hb Hl Hu.
  destruct (trunc_between l u y nl nu Fl Fu Hb Hl Hu) as (n & Hn & Hle).
  exists n. unfold py_int. rewrite Hn. auto.
Qed.

End Thresholds.

Ltac by_eval := vm_compute; reflexivity.

Ltac by_score :=
  unfold get_aqi_alert;
  repeat match goal with
  | |- context [(?a <=? ?b)%Z] => destruct (Z.leb_spec a b); try lia
  end;
  reflexivity.

(** ** The bands of [pm25_to_aqi] *)

Section PythonBands.
Variable parse_float : string -> option float.
Local Open Scope float_scope.

(** The score of a value in a part [l <= pm25 <= u] of one of the three
    upper bands lies between the scores at the ends of the part. *)
Lemma band_scores (a c k l u x : float) (nl nu : Z) :
  Binary64.is_finite a = true -> Binary64.is_finite c = true -> Binary64.is_finite k = true ->
  PrimFloat.leb 0 c = true ->
  Binary64.is_finite l = true -> Binary64.is_finite u = true ->
  Binary64.is_finite (l - k) = true -> Binary64.is_finite (u - k) = true ->
  Binary64.is_finite (c * (l - k)) = true -> Binary64.is_finite (c * (u - k)) = true ->
  Binary64.is_finite (a + c * (l - k)) = true -> Binary64.is_finite (a + c * (u - k)) = true ->
  Binary64.trunc (a + c * (l - k)) = Some nl -> Binary64.trunc (a + c * (u - k)) = Some nu ->
  between l u x ->
  exists n, py_int (a + c * (x - k)) = Return n /\ (nl <= n <= nu)%Z.
Proof.
  intros Fa Fc Fk Hc Fl Fu Fl1 Fu1 Fl2 Fu2 Fl3 Fu3 Tl Tu Hb.
  apply (py_int_between (a + c * (l - k)) (a + c * (u - k)) _ nl nu Fl3 Fu3);
    [apply line_between; assumption | exact Tl | exact Tu].
Qed.

Lemma python_bands (pm25 : float) :
  PrimFloat.leb 0 pm25 = true ->
  exists aqi,
    pm25_to_aqi parse_float (PyFloat pm25) = Return aqi
    /\ (0 <= aqi <= 201)%Z
    /\ get_aqi_alert aqi = py_category pm25.
Proof.
  intros H0. destruct (leb_fval_r _ _ H0) as [v Hv].
  assert (Hc : forall c vc, fval c = Some vc -> PrimFloat.leb pm25 c = false ->
                            PrimFloat.ltb c pm25 = true)
    by (intros c vc Hvc; apply (leb_false_ltb pm25 c v vc Hv Hvc)).
  unfold pm25_to_aqi, st_cache_data, py_float, py_category.
  destruct (PrimFloat.leb pm25 12) eqn:E12.
  { (* 0 <= pm25 <= 12 *)
    destruct (py_int_between (50 / 12 * 0) (50 / 12 * 12) (50 / 12 * pm25) 0 50)
      as (n & -> & Hn); [by_eval | by_eval | | by_eval | by_eval |].
    { apply mul_between; [by_eval | by_eval | by_eval | by_eval | split; assumption]. }
    exists n. split; [reflexivity|]. split; [lia|].
    rewrite (leb_trans pm25 12 py_good_max E12 ltac:(by_eval)).
    by_score. }
  assert (L12 : PrimFloat.ltb 12 pm25 = true) by (eapply Hc; [|exact E12]; by_eval).
  destruct (PrimFloat.leb pm25 35.4) eqn:E35.
  { destruct (PrimFloat.leb pm25 py_good_max) eqn:ET1.
    - destruct (band_scores 50 (50 / 23.4) 12.1 12 py_good_max pm25 49 50)
        as (n & -> & Hn); try by_eval.
      { split; [apply ltb_leb; assumption | assumption]. }
      exists n. split; [reflexivity|]. split; [lia|].
      by_score.
    - assert (LT1 : PrimFloat.ltb py_good_max pm25 = true) by (eapply Hc; [|exact ET1]; by_eval).
      apply (float_gap py_good_max 0x1.922d0e5604189p+3 pm25 _ _ ltac:(by_eval) ltac:(by_eval)) in LT1.
      destruct (band_scores 50 (50 / 23.4) 12.1 0x1.922d0e5604189p+3 35.4 pm25 51 99)
        as (n & -> & Hn); try by_eval.
      { split; assumption. }
      exists n. split; [reflexivity|]. split; [lia|].
      rewrite (leb_trans pm25 35.4 py_moderate_max E35 ltac:(by_eval)).
      by_score. }
  assert (L35 : PrimFloat.ltb 35.4 pm25 = true) by (eapply Hc; [|exact E35]; by_eval).
  assert (N1 : PrimFloat.leb pm25 py_good_max = false).
  { destruct (PrimFloat.leb pm25 py_good_max) eqn:E; [|reflexivity].
    rewrite (leb_trans pm25 py_good_max 35.4 E ltac:(by_eval)) in E35. discriminate. }
  rewrite N1.
  destruct (PrimFloat.leb pm25 55.4) eqn:E55.
  { destruct (PrimFloat.leb pm25 py_moderate_max) eqn:ET2.
    - destruct (band_scores 100 (50 / 20) 35.5 35.4 py_moderate_max pm25 99 100)
        as (n & -> & Hn); try by_eval.
      { split; [apply ltb_leb; assumption | assumption]. }
      exists n. split; [reflexivity|]. split; [lia|].
      by_score.
    - assert (LT2 : PrimFloat.ltb py_moderate_max pm25 = true) by (eapply Hc; [|exact ET2]; by_eval).
      apply (float_gap py_moderate_max 0x1.1f33333333333p+5 pm25 _ _ ltac:(by_eval) ltac:(by_eval)) in LT2.
      destruct (band_scores 100 (50 / 20) 35.5 0x1.1f33333333333p+5 55.4 pm25 101 149)
        as (n & -> & Hn); try by_eval.
      { split; assumption. }
      exists n. split; [reflexivity|]. split; [lia|].
      rewrite (leb_trans pm25 55.4 py_sensitive_max E55 ltac:(by_eval)).
      by_score. }
  assert (L55 : PrimFloat.ltb 55.4 pm25 = true) by (eapply Hc; [|exact E55]; by_eval).
  assert (N2 : PrimFloat.leb pm25 py_moderate_max = false).
  { destruct (PrimFloat.leb pm25 py_moderate_max) eqn:E; [|reflexivity].
    rewrite (leb_trans pm25 py_moderate_max 55.4 E ltac:(by_eval)) in E55. discriminate. }
  rewrite N2.
  destruct (PrimFloat.leb pm25 150.4) eqn:E150.
  { destruct (PrimFloat.leb pm25 py_sensitive_max) eqn:ET3.
    - destruct (band_scores 150 (50 / 95) 55.5 55.4 py_sensitive_max pm25 149 150)
        as (n & -> & Hn); try by_eval.
      { split; [apply ltb_leb; assumption | assumption]. }
      exists n. split; [reflexivity|]. split; [lia|].
      by_score.
    - assert (LT3 : PrimFloat.ltb py_sensitive_max pm25 = true) by (eapply Hc; [|exact ET3]; by_eval).
      apply (float_gap py_sensitive_max 0x1.cb33333333330p+5 pm25 _ _ ltac:(by_eval) ltac:(by_eval)) in LT3.
      destruct (band_scores 150 (50 / 95) 55.5 0x1.cb33333333330p+5 150.4 pm25 151 199)
        as (n & -> & Hn); try by_eval.
      { split; assumption. }
      exists n. split; [reflexivity|]. split; [lia|].
      by_score. }
  assert (N3 : PrimFloat.leb pm25 py_sensitive_max = false).
  { destruct (PrimFloat.leb pm25 py_sensitive_max) eqn:E; [|reflexivity].
    rewrite (leb_trans pm25 py_sensitive_max 150.4 E ltac:(by_eval)) in E150. discriminate. }
  rewrite N3. exists 201%Z. split; [reflexivity|]. split; [lia | reflexivity].
Qed.

End PythonBands.


(** ** Infinities, integers and [Math.round] *)

Section FloatIntegers.
Local Open Scope Z_scope.

Lemma add_between_l (c l u x : float) :
  Binary64.is_finite c = true -> Binary64.is_finite l = true -> Binary64.is_finite u = true ->
  between l u x -> between (l + c) (u + c) (x + c).
Proof.
  intros (k & Hk & Bk)%is_finite_fval Fl Fu Hb.
  destruct (between_fval l u x Fl Fu Hb) as (a & v & b & Ha & Hv & Hb' & Hle & Blo & Bhi).
  split; apply leb_fval.
  - exists (rnd 1074 (a + k)), (rnd 1074 (v + k)).
    split; [apply fval_add; try assumption; pow_lia|].
    split; [apply fval_add; try assumption; pow_lia|]. apply rnd_mono; pow_lia.
  - exists (rnd 1074 (v + k)), (rnd 1074 (b + k)).
    split; [apply fval_add; try assumption; pow_lia|].
    split; [apply fval_add; try assumption; pow_lia|]. apply rnd_mono; pow_lia.
Qed.

Lemma fval_opp (x : float) (a : Z) : fval x = Some a -> fval (- x) = Some (- a).
Proof.
  unfold fval. rewrite FloatAxioms.opp_spec. destruct (Prim2SF x) as [s|s| |s m e]; cbn [SFopp SFval];
    intros [= <-]; try reflexivity; destruct s; cbn [negb cond_Zopp]; f_equal; lia.
Qed.

(** The value of a float lies between the values of the infinities, which
    only the infinities have. *)
Lemma fval_range (x : float) (a : Z) :
  fval x = Some a ->
  - 2 ^ 2100 <= a <= 2 ^ 2100
  /\ (a = - 2 ^ 2100 -> x = neg_infinity) /\ (a = 2 ^ 2100 -> x = infinity).
Proof.
  unfold fval. intros Ha. pose proof (Prim2SF_valid x) as Hv.
  assert (Hinf : 2 ^ 2098 < 2 ^ 2100) by (apply pow2_lt; pow_lia).
  assert (Hpos : 0 < 2 ^ 2098) by (apply pow2_pos; pow_lia).
  destruct (Prim2SF x) as [s|s| |s m e] eqn:E; cbn [SFval] in Ha; try discriminate;
    injection Ha as <-.
  - split; [pow_lia|]. split; intros; pow_lia.
  - destruct s; cbn [cond_Zopp].
    + split; [pow_lia|]. split; [|intros; pow_lia]. intros _. apply Prim2SF_inj. rewrite E. reflexivity.
    + split; [pow_lia|]. split; [intros; pow_lia|]. intros _. apply Prim2SF_inj. rewrite E. reflexivity.
  - pose proof (finite_val_bounds _ _ _ Hv). destruct s; cbn [cond_Zopp]; split; try pow_lia;
      split; intros; pow_lia.
Qed.

Lemma leb_neg_infinity (x : float) : PrimFloat.leb x neg_infinity = true -> x = neg_infinity.
Proof.
  intros (a & b & Ha & Hb & Hle)%leb_fval.
  unfold fval in Hb. change (Prim2SF neg_infinity) with (S754_infinity true) in Hb.
  cbn [SFval cond_Zopp] in Hb. injection Hb as <-.
  destruct (fval_range x a Ha) as (Hr & Hn & _). apply Hn. pow_lia.
Qed.

Lemma leb_infinity (x : float) : PrimFloat.leb infinity x = true -> x = infinity.
Proof.
  intros (a & b & Ha & Hb & Hle)%leb_fval.
  unfold fval in Ha. change (Prim2SF infinity) with (S754_infinity false) in Ha.
  cbn [SFval cond_Zopp] in Ha. injection Ha as <-.
  destruct (fval_range x b Hb) as (Hr & _ & Hp). apply Hp. pow_lia.
Qed.

(** A float that is not NaN is finite or one of the infinities. *)
Lemma not_nan_cases (x : float) (a : Z) :
  fval x = Some a -> Binary64.is_finite x = true \/ x = neg_infinity \/ x = infinity.
Proof.
  intros Ha. destruct (fval_range x a Ha) as (Hr & Hn & Hp).
  destruct (Z.eq_dec a (- 2 ^ 2100)) as [E1|N1]; [right; left; exact (Hn E1)|].
  destruct (Z.eq_dec a (2 ^ 2100)) as [E2|N2]; [right; right; exact (Hp E2)|].
  left. unfold Binary64.is_finite. unfold fval in Ha.
  destruct (Prim2SF x) as [s|s| |s m e].
  - reflexivity.
  - cbn [SFval] in Ha. injection Ha as Ha. destruct s; cbn [cond_Zopp] in Ha; congruence.
  - discriminate Ha.
  - reflexivity.
Qed.

Lemma finite_le_max (x : float) :
  Binary64.is_finite x = true -> between (- max_float) max_float x.
Proof.
  intros Hf. unfold Binary64.is_finite in Hf. pose proof (Prim2SF_valid x) as Hv.
  assert (Hx : exists a, fval x = Some a
                         /\ - (9007199254740991 * 2 ^ (971 + 1074)) <= a
                            <= 9007199254740991 * 2 ^ (971 + 1074)).
  { assert (P : 0 < 2 ^ (971 + 1074)) by (apply pow2_pos; pow_lia).
    unfold fval. destruct (Prim2SF x) as [s|s| |s m e].
    - exists 0. split; [reflexivity | pow_lia].
    - discriminate Hf.
    - discriminate Hf.
    - eexists. split; [reflexivity|].
      pose proof (valid_finite_spec _ _ _ Hv) as (He & Hd & _).
      pose proof (digits_bounds (Zpos m) ltac:(pow_lia)) as [_ B].
      assert (2 ^ Zdigits2 (Zpos m) <= 2 ^ 53)
        by (apply pow2_le; [pose proof (digits_pos (Zpos m)); pow_lia | pow_lia]).
      assert (2 ^ 53 = 9007199254740992) by reflexivity.
      assert (2 ^ (e + 1074) <= 2 ^ (971 + 1074)) by (apply pow2_le; pow_lia).
      pose proof (pow2_pos (e + 1074) ltac:(pow_lia)).
      assert (Zpos m * 2 ^ (e + 1074) <= 9007199254740991 * 2 ^ (971 + 1074))
        by (apply Z.mul_le_mono_nonneg; pow_lia).
      destruct s; cbn [cond_Zopp]; pow_lia. }
  destruct Hx as (a & Ha & Hlo & Hhi).
  assert (Hmax : fval max_float = Some (9007199254740991 * 2 ^ (971 + 1074))).
  { unfold fval. change (Prim2SF max_float) with (S754_finite false 9007199254740991 971).
    reflexivity. }
  pose proof (fval_opp _ _ Hmax) as Hmin.
  split; apply leb_fval; eauto 6.
Qed.


(** ** Integers as floats, and [Math.round] *)

Lemma rnd_pos_int (k : Z) : 0 < k <= 2 ^ 53 -> rnd_pos 1074 (k * 2 ^ 1074) = k * 2 ^ 1074.
Proof.
  intros Hk. unfold rnd_pos. rewrite log2_mul_pow2 by pow_lia.
  pose proof (Z.log2_nonneg k) as L0.
  assert (L53 : Z.log2 k <= 53).
  { destruct (Z.eq_dec k (2 ^ 53)) as [->|]; [rewrite Z.log2_pow2; pow_lia|].
    assert (Z.log2 k < 53); [|pow_lia]. apply Z.log2_lt_pow2; pow_lia. }
  replace (Z.max (Z.log2 k + 1074 + 1 - 53) (1074 - 1074)) with (Z.log2 k + 1022) by pow_lia.
  set (q := Z.log2 k + 1022).
  assert (Hj : exists j, k * 2 ^ 1074 = j * 2 ^ q /\ 0 < j).
  { destruct (Z_le_gt_dec (Z.log2 k) 52) as [Hle|Hgt].
    - exists (k * 2 ^ (52 - Z.log2 k)). split.
      + rewrite <- Z.mul_assoc, <- pow2_add by (unfold q; pow_lia). do 2 f_equal. unfold q. pow_lia.
      + apply Z.mul_pos_pos; [pow_lia | apply pow2_pos; pow_lia].
    - assert (k = 2 ^ 53).
      { pose proof (log2_bounds k ltac:(pow_lia)) as [B _].
        replace (Z.log2 k) with 53 in B by pow_lia. pow_lia. }
      subst k. exists (2 ^ 52). split; [|apply pow2_pos; pow_lia].
      rewrite <- !pow2_add by (unfold q; pow_lia). f_equal; unfold q; rewrite Z.log2_pow2; pow_lia. }
  destruct Hj as (j & Ej & Hj).
  assert (Hq : 0 <= q) by (unfold q; pow_lia).
  assert (Hrne : rne (k * 2 ^ 1074) q = j).
  { rewrite Ej. replace (rne (j * 2 ^ q) q) with (rne (j * 2 ^ q) (0 + q)) by (f_equal; pow_lia).
    rewrite rne_scale by pow_lia.
    unfold rne. change (2 ^ 0) with 1. rewrite Z.div_1_r, Z.mod_1_r. reflexivity. }
  rewrite Hrne. replace (q - (1074 - 1074)) with q by pow_lia. rewrite <- Ej.
  assert (k * 2 ^ 1074 < 2 ^ 2098).
  { apply Z.le_lt_trans with (2 ^ 53 * 2 ^ 1074).
    - apply Z.mul_le_mono_nonneg_r; [apply Z.lt_le_incl, pow2_pos; pow_lia | pow_lia].
    - rewrite <- pow2_add by pow_lia. apply pow2_lt; pow_lia. }
  destruct (Z.leb_spec (2 ^ 2098) (k * 2 ^ 1074)); [pow_lia | reflexivity].
Qed.

Lemma fval_of_Z (r : Z) : - 2 ^ 53 <= r <= 2 ^ 53 -> fval (Binary64.of_Z r) = Some (r * 2 ^ 1074).
Proof.
  intros Hr. unfold Binary64.of_Z.
  assert (P53 : 2 ^ 53 < Uint63.wB) by reflexivity.
  assert (Ha : fval (of_uint63 (Uint63.of_Z (Z.abs r))) = Some (Z.abs r * 2 ^ 1074)).
  { unfold fval. rewrite of_uint63_spec, Uint63.of_Z_spec.
    rewrite Z.mod_small by pow_lia.
    rewrite binary_normalize_val by pow_lia. change (0 + 1074) with 1074.
    destruct (Z.eq_dec r 0) as [->|Hn]; [reflexivity|].
    rewrite rnd_of_pos by (pose proof (pow2_pos 1074); pow_nia).
    rewrite rnd_pos_int by pow_lia. reflexivity. }
  destruct (Z.ltb_spec r 0).
  - rewrite (fval_opp _ _ Ha). f_equal. pow_lia.
  - rewrite Ha. f_equal. f_equal. pow_lia.
Qed.

Lemma Math_round_fval (x : float) (a : Z) :
  fval x = Some a -> - 2 ^ 2098 < a < 2 ^ 2098 ->
  fval (JS.Math_round x) = Some ((2 * a + 2 ^ 1074) / 2 ^ 1075 * 2 ^ 1074).
Proof.
  intros Ha Ba. unfold JS.Math_round. pose proof (Prim2SF_valid x) as Hv.
  pose proof (SFval_finite _ _ Hv Ha Ba) as Hf.
  assert (P : 0 < 2 ^ 1074) by (apply pow2_pos; pow_lia).
  assert (P' : 2 ^ 1075 = 2 * 2 ^ 1074) by (change 1075 with (1 + 1074); rewrite pow2_add by pow_lia; reflexivity).
  assert (Hhalf : forall k, (2 * (k * 2 ^ 1074) + 2 ^ 1074) / 2 ^ 1075 = k).
  { intros k. rewrite P'. replace (2 * (k * 2 ^ 1074) + 2 ^ 1074) with ((2 * k + 1) * 2 ^ 1074) by pow_lia.
    rewrite Z.div_mul_cancel_r by pow_lia.
    symmetry. apply (Z.div_unique _ 2 k 1); pow_lia. }
  unfold fval in Ha. destruct (Prim2SF x) as [s|s| |s m e] eqn:E; try contradiction;
    cbn [SFval] in Ha; injection Ha as <-.
  - unfold fval. rewrite E. cbn [SFval]. pose proof (Hhalf 0) as H0.
    rewrite Z.mul_0_l in H0. rewrite H0. reflexivity.
  - pose proof (valid_finite_spec _ _ _ Hv) as (He & Hd & _).
    destruct (Z.leb_spec 0 e) as [Hpos|Hneg].
    + unfold fval. rewrite E. cbn [SFval]. f_equal.
      replace (cond_Zopp s (Zpos m * 2 ^ (e + 1074)))
        with (cond_Zopp s (Zpos m * 2 ^ e) * 2 ^ 1074)
        by (rewrite pow2_add by pow_lia; destruct s; cbn [cond_Zopp]; pow_lia).
      rewrite Hhalf. reflexivity.
    + set (n := if s then Z.neg m else Z.pos m).
      assert (En : cond_Zopp s (Zpos m * 2 ^ (e + 1074)) = n * 2 ^ (e + 1074))
        by (destruct s; cbn [cond_Zopp]; subst n; pow_lia).
      rewrite En.
      assert (Pe : 0 < 2 ^ (e + 1074)) by (apply pow2_pos; pow_lia).
      assert (Pn : 0 < 2 ^ (- e)) by (apply pow2_pos; pow_lia).
      assert (Er : (2 * (n * 2 ^ (e + 1074)) + 2 ^ 1074) / 2 ^ 1075
                   = (2 * n + 2 ^ (- e)) / 2 ^ (- e + 1)).
      { replace (2 ^ 1074) with (2 ^ (- e) * 2 ^ (e + 1074))
          by (rewrite <- pow2_add by pow_lia; f_equal; pow_lia).
        replace (2 ^ 1075) with (2 ^ (- e + 1) * 2 ^ (e + 1074))
          by (rewrite <- pow2_add by pow_lia; f_equal; pow_lia).
        replace (2 * (n * 2 ^ (e + 1074)) + 2 ^ (- e) * 2 ^ (e + 1074))
          with ((2 * n + 2 ^ (- e)) * 2 ^ (e + 1074)) by pow_lia.
        apply Z.div_mul_cancel_r; [pose proof (pow2_pos (- e + 1)); pow_lia | pow_lia]. }
      rewrite Er. set (r := (2 * n + 2 ^ (- e)) / 2 ^ (- e + 1)).
      assert (Hr : - 2 ^ 53 <= r <= 2 ^ 53).
      { pose proof (digits_bounds (Zpos m) ltac:(pow_lia)) as [_ B].
        assert (2 ^ Zdigits2 (Zpos m) <= 2 ^ 53)
          by (apply pow2_le; [pose proof (digits_pos (Zpos m)); pow_lia | pow_lia]).
        assert (Hn : - 2 ^ 53 < n < 2 ^ 53) by (subst n; destruct s; pow_lia).
        assert (E1 : 2 ^ (- e + 1) = 2 * 2 ^ (- e))
          by (rewrite pow2_add by pow_lia; change (2 ^ 1) with 2; pow_lia).
        assert (2 <= 2 ^ (- e)) by (change 2 with (2 ^ 1) at 1; apply pow2_le; pow_lia).
        subst r. rewrite E1. split.
        - apply Z.div_le_lower_bound; [pow_lia|]. pow_nia.
        - apply Z.div_le_upper_bound; [pow_lia|]. pow_nia. }
      destruct (Z.eqb_spec r 0) as [E0|N0].
      * rewrite E0. destruct s; reflexivity.
      * apply fval_of_Z. exact Hr.
Qed.

Lemma round_between (l u x : float) :
  Binary64.is_finite l = true -> Binary64.is_finite u = true -> between l u x ->
  between (JS.Math_round l) (JS.Math_round u) (JS.Math_round x).
Proof.
  intros Fl Fu Hb.
  destruct (between_fval l u x Fl Fu Hb) as (a & v & b & Ha & Hv & Hb' & Hle & Blo & Bhi).
  assert (P : 0 < 2 ^ 1075) by (apply pow2_pos; pow_lia).
  assert (P' : 0 < 2 ^ 1074) by (apply pow2_pos; pow_lia).
  apply is_finite_fval in Fl as (a' & Ha' & Ba'). apply is_finite_fval in Fu as (b' & Hb'' & Bb').
  assert (a' = a) by congruence. assert (b' = b) by congruence. subst a' b'.
  split; apply leb_fval.
  - eexists _, _. split; [apply Math_round_fval; [eassumption | pow_lia]|].
    split; [apply Math_round_fval; [eassumption | pow_lia]|].
    apply Z.mul_le_mono_nonneg_r; [pow_lia|]. apply Z.div_le_mono; pow_lia.
  - eexists _, _. split; [apply Math_round_fval; [eassumption | pow_lia]|].
    split; [apply Math_round_fval; [eassumption | pow_lia]|].
    apply Z.mul_le_mono_nonneg_r; [pow_lia|]. apply Z.div_le_mono; pow_lia.
Qed.

End FloatIntegers.

Section Gap.
Local Open Scope float_scope.

Lemma float_gap_neg (t t' x : float) (m : positive) (e : Z) :
  Prim2SF t = S754_finite true m e -> (2 ^ 52 < Zpos m)%Z ->
  fval t' = Some (- (Zpos m * 2 ^ (e + 1074)) + 2 ^ (e + 1074))%Z ->
  PrimFloat.ltb t x = true -> PrimFloat.leb t' x = true.
Proof.
  intros Ht Hm Ht' (a & b & Ha & Hb & Hlt)%ltb_fval.
  apply leb_fval. eexists _, b. split; [exact Ht'|]. split; [exact Hb|].
  unfold fval in Ha, Hb. rewrite Ht in Ha. cbn [SFval cond_Zopp] in Ha. injection Ha as <-.
  pose proof (Prim2SF_valid t) as Vt. rewrite Ht in Vt.
  pose proof (Prim2SF_valid x) as Vx.
  pose proof (finite_val_bounds _ _ _ Vt) as Bt.
  assert (Hinf : (2 ^ 2098 < 2 ^ 2100)%Z) by (apply pow2_lt; pow_lia).
  pose proof (valid_finite_spec _ _ _ Vt) as (Het & Hdt & _).
  pose proof (pow2_pos (e + 1074) ltac:(pow_lia)) as Pe.
  set (G := (2 ^ (e + 1074))%Z) in *.
  assert (HG : (G <= Zpos m * G)%Z) by pow_nia.
  destruct (Prim2SF x) as [s|s| |s mx ex]; cbn [SFval] in Hb; try discriminate;
    injection Hb as <-.
  - pow_lia.
  - destruct s; cbn [cond_Zopp] in *; pow_lia.
  - pose proof (finite_val_bounds _ _ _ Vx) as Bx.
    destruct s; cbn [cond_Zopp] in *; [|pow_lia].
    pose proof (valid_finite_spec _ _ _ Vx) as (Hex & Hdx & _).
    destruct (Z_lt_le_dec e ex) as [Hgt|Hle].
    + pose proof (finite_val_lt _ _ _ _ _ _ Vt Vx Hgt). fold G in H. pow_lia.
    + destruct (Z.eq_dec ex e) as [->|Hne].
      * fold G in Hlt |- *. assert (Zpos mx < Zpos m)%Z by pow_nia. pow_nia.
      * pose proof (digits_bounds (Zpos mx) ltac:(pow_lia)) as [_ B].
        assert (2 ^ Zdigits2 (Zpos mx) <= 2 ^ 53)%Z
          by (apply pow2_le; [pose proof (digits_pos (Zpos mx)); pow_lia | pow_lia]).
        pose proof (pow2_pos (ex + 1074) ltac:(pow_lia)) as Px.
        assert (Zpos mx * 2 ^ (ex + 1074) <= 2 ^ 53 * 2 ^ (ex + 1074))%Z
          by (apply Z.mul_le_mono_nonneg_r; pow_lia).
        assert (2 ^ 53 * 2 ^ (ex + 1074) <= 2 ^ 52 * G)%Z.
        { unfold G. rewrite <- !pow2_add by pow_lia. apply pow2_le; pow_lia. }
        assert (2 ^ 52 * G <= (Zpos m - 1) * G)%Z by (apply Z.mul_le_mono_nonneg_r; pow_lia).
        pow_lia.
Qed.

Lemma ltb_leb_trans (x y z : float) :
  PrimFloat.ltb x y = true -> PrimFloat.leb y z = true -> PrimFloat.ltb x z = true.
Proof.
  intros (a & b & Ha & Hb & H1)%ltb_fval (b' & c & Hb' & Hc & H2)%leb_fval.
  apply ltb_fval. exists a, c. assert (b' = b) by congruence. repeat split; auto; lia.
Qed.

End Gap.

(** ** Negative values, and the bands of the script *)

Section ScriptBands.
Variable parse_float : string -> option float.
Local Open Scope float_scope.

Lemma python_overflow (pm25 : float) :
  (PrimFloat.leb pm25 py_overflow_max = true ->
   pm25_to_aqi parse_float (PyFloat pm25) = Raise OverflowError)
  /\ (PrimFloat.ltb py_overflow_max pm25 = true -> PrimFloat.leb pm25 0 = true ->
      exists aqi, pm25_to_aqi parse_float (PyFloat pm25) = Return aqi
                  /\ (aqi <= 0)%Z /\ get_aqi_alert aqi = Good).
Proof.
  split.
  - intros Hle. destruct (leb_fval_l _ _ Hle) as [v Hv].
    assert (E12 : PrimFloat.leb pm25 12 = true) by (apply (leb_trans _ _ _ Hle); by_eval).
    unfold pm25_to_aqi, st_cache_data, py_float. rewrite E12.
    destruct (not_nan_cases pm25 v Hv) as [Hf | [-> | ->]].
    + assert (Hb : between (- max_float) py_overflow_max pm25)
        by (split; [apply finite_le_max; assumption | assumption]).
      apply (mul_between (50 / 12)) in Hb; [|by_eval..].
      destruct Hb as [_ Hb].
      replace (50 / 12 * py_overflow_max) with neg_infinity in Hb by by_eval.
      apply leb_neg_infinity in Hb. rewrite Hb. reflexivity.
    + reflexivity.
    + vm_compute in Hle. discriminate.
  - intros Hlt H0.
    apply (float_gap_neg py_overflow_max (-0x1.eb851eb851eb7p+1021) pm25 _ _
             ltac:(by_eval) ltac:(reflexivity) ltac:(by_eval)) in Hlt.
    assert (E12 : PrimFloat.leb pm25 12 = true) by (apply (leb_trans _ _ _ H0); by_eval).
    unfold pm25_to_aqi, st_cache_data, py_float. rewrite E12.
    edestruct (py_int_between (50 / 12 * (-0x1.eb851eb851eb7p+1021)) (50 / 12 * 0)
                 (50 / 12 * pm25)) as (n & -> & Hn); [by_eval | by_eval | | by_eval | by_eval |].
    { apply mul_between; [by_eval | by_eval | by_eval | by_eval | split; assumption]. }
    exists n. split; [reflexivity|]. split; [lia|]. by_score.
Qed.

(** The category of a score between two scores of one category. *)
Lemma alert_of_between (lo hi y : float) (c : alert) :
  between lo hi y -> JS.alert_of lo = c -> JS.alert_of hi = c -> JS.alert_of y = c.
Proof.
  intros [H1 H2].
  apply leb_fval in H1 as (a & v & Ha & Hv & Hav).
  apply leb_fval in H2 as (v' & b & Hv' & Hb & Hvb).
  assert (v' = v) by congruence. subst v'.
  assert (F50 : exists k, fval 50 = Some k) by (eexists; reflexivity).
  assert (F100 : exists k, fval 100 = Some k) by (eexists; reflexivity).
  assert (F150 : exists k, fval 150 = Some k) by (eexists; reflexivity).
  destruct F50 as [k1 K1], F100 as [k2 K2], F150 as [k3 K3].
  unfold JS.alert_of.
  rewrite !(proj1 (fval_compare lo _ _ _ Ha K1)), !(proj1 (fval_compare lo _ _ _ Ha K2)),
    !(proj1 (fval_compare lo _ _ _ Ha K3)).
  rewrite !(proj1 (fval_compare hi _ _ _ Hb K1)), !(proj1 (fval_compare hi _ _ _ Hb K2)),
    !(proj1 (fval_compare hi _ _ _ Hb K3)).
  rewrite !(proj1 (fval_compare y _ _ _ Hv K1)), !(proj1 (fval_compare y _ _ _ Hv K2)),
    !(proj1 (fval_compare y _ _ _ Hv K3)).
  clear Ha Hb Hv K1 K2 K3.
  destruct (Z.leb_spec a k1), (Z.leb_spec a k2), (Z.leb_spec a k3),
    (Z.leb_spec b k1), (Z.leb_spec b k2), (Z.leb_spec b k3);
    intros <-; try discriminate; intros _;
    destruct (Z.leb_spec v k1), (Z.leb_spec v k2), (Z.leb_spec v k3); try reflexivity; lia.
Qed.

Lemma js_line_between (a c k l u x : float) :
  Binary64.is_finite a = true -> Binary64.is_finite c = true -> Binary64.is_finite k = true ->
  PrimFloat.leb 0 c = true ->
  Binary64.is_finite l = true -> Binary64.is_finite u = true ->
  Binary64.is_finite (l - k) = true -> Binary64.is_finite (u - k) = true ->
  Binary64.is_finite (c * (l - k)) = true -> Binary64.is_finite (c * (u - k)) = true ->
  Binary64.is_finite (a + c * (l - k)) = true -> Binary64.is_finite (a + c * (u - k)) = true ->
  between l u x ->
  between (JS.Math_round (a + c * (l - k))) (JS.Math_round (a + c * (u - k)))
          (JS.Math_round (a + c * (x - k))).
Proof.
  intros Fa Fc Fk Hc Fl Fu Fl1 Fu1 Fl2 Fu2 Fl3 Fu3 Hb.
  apply round_between; [assumption | assumption |]. apply line_between; assumption.
Qed.

Lemma between_widen (lo hi lo' hi' y : float) :
  between lo hi y -> PrimFloat.leb lo' lo = true -> PrimFloat.leb hi hi' = true ->
  between lo' hi' y.
Proof. intros [H1 H2] Hlo Hhi. split; eapply leb_trans; eassumption. Qed.

Lemma js_bands (pm25 : float) :
  PrimFloat.leb 0 pm25 = true ->
  between 0 201 (JS.aqi pm25)
  /\ JS.alert_of (JS.aqi pm25) = js_category pm25.
Proof.
  intros H0. destruct (leb_fval_r _ _ H0) as [v Hv].
  assert (Hc : forall c vc, fval c = Some vc -> PrimFloat.leb pm25 c = false ->
                            PrimFloat.ltb c pm25 = true)
    by (intros c vc Hvc; apply (leb_false_ltb pm25 c v vc Hv Hvc)).
  unfold JS.aqi, js_category.
  destruct (PrimFloat.leb pm25 12) eqn:E12.
  { assert (Hb : between (JS.Math_round (50 / 12 * 0)) (JS.Math_round (50 / 12 * 12))
                         (JS.Math_round (50 / 12 * pm25))).
    { apply round_between; [by_eval | by_eval |].
      apply mul_between; [by_eval | by_eval | by_eval | by_eval | split; assumption]. }
    split; [apply (between_widen _ _ _ _ _ Hb); by_eval|].
    rewrite (alert_of_between _ _ _ Good Hb ltac:(by_eval) ltac:(by_eval)).
    rewrite (leb_trans pm25 12 js_good_max E12 ltac:(by_eval)). reflexivity. }
  assert (L12 : PrimFloat.ltb 12 pm25 = true) by (eapply Hc; [|exact E12]; by_eval).
  destruct (PrimFloat.leb pm25 35.4) eqn:E35.
  { destruct (PrimFloat.leb pm25 js_good_max) eqn:ET1.
    - assert (Hb := js_line_between 50 (50 / 23.4) 12.1 12 js_good_max pm25
                      ltac:(by_eval) ltac:(by_eval) ltac:(by_eval) ltac:(by_eval) ltac:(by_eval) ltac:(by_eval)
                      ltac:(by_eval) ltac:(by_eval) ltac:(by_eval) ltac:(by_eval) ltac:(by_eval) ltac:(by_eval)
                      (conj (ltb_leb _ _ L12) ET1)).
      split; [apply (between_widen _ _ _ _ _ Hb); by_eval|].
      apply (alert_of_between _ _ _ Good Hb); by_eval.
    - assert (LT1 : PrimFloat.ltb js_good_max pm25 = true) by (eapply Hc; [|exact ET1]; by_eval).
      apply (float_gap js_good_max 0x1.8ab020c49ba5ep+3 pm25 _ _ ltac:(by_eval) ltac:(by_eval)) in LT1.
      assert (Hb := js_line_between 50 (50 / 23.4) 12.1 0x1.8ab020c49ba5ep+3 35.4 pm25
                      ltac:(by_eval) ltac:(by_eval) ltac:(by_eval) ltac:(by_eval) ltac:(by_eval) ltac:(by_eval)
                      ltac:(by_eval) ltac:(by_eval) ltac:(by_eval) ltac:(by_eval) ltac:(by_eval) ltac:(by_eval)
                      (conj LT1 E35)).
      split; [apply (between_widen _ _ _ _ _ Hb); by_eval|].
      rewrite (leb_trans pm25 35.4 js_moderate_max E35 ltac:(by_eval)).
      apply (alert_of_between _ _ _ Moderate Hb); by_eval. }
  assert (L35 : PrimFloat.ltb 35.4 pm25 = true) by (eapply Hc; [|exact E35]; by_eval).
  assert (N1 : PrimFloat.leb pm25 js_good_max = false).
  { destruct (PrimFloat.leb pm25 js_good_max) eqn:E; [|reflexivity].
    rewrite (leb_trans pm25 js_good_max 35.4 E ltac:(by_eval)) in E35. discriminate. }
  rewrite N1.
  destruct (PrimFloat.leb pm25 55.4) eqn:E55.
  { destruct (PrimFloat.leb pm25 js_moderate_max) eqn:ET2.
    - assert (Hb := js_line_between 100 (50 / 20) 35.5 35.4 js_moderate_max pm25
                      ltac:(by_eval) ltac:(by_eval) ltac:(by_eval) ltac:(by_eval) ltac:(by_eval) ltac:(by_eval)
                      ltac:(by_eval) ltac:(by_eval) ltac:(by_eval) ltac:(by_eval) ltac:(by_eval) ltac:(by_eval)
                      (conj (ltb_leb _ _ L35) ET2)).
      split; [apply (between_widen _ _ _ _ _ Hb); by_eval|].
      apply (alert_of_between _ _ _ Moderate Hb); by_eval.
    - assert (LT2 : PrimFloat.ltb js_moderate_max pm25 = true) by (eapply Hc; [|exact ET2]; by_eval).
      apply (float_gap js_moderate_max 0x1.1d9999999999ap+5 pm25 _ _ ltac:(by_eval) ltac:(by_eval)) in LT2.
      assert (Hb := js_line_between 100 (50 / 20) 35.5 0x1.1d9999999999ap+5 55.4 pm25
                      ltac:(by_eval) ltac:(by_eval) ltac:(by_eval) ltac:(by_eval) ltac:(by_eval) ltac:(by_eval)
                      ltac:(by_eval) ltac:(by_eval) ltac:(by_eval) ltac:(by_eval) ltac:(by_eval) ltac:(by_eval)
                      (conj LT2 E55)).
      split; [apply (between_widen _ _ _ _ _ Hb); by_eval|].
      rewrite (leb_trans pm25 55.4 js_sensitive_max E55 ltac:(by_eval)).
      apply (alert_of_between _ _ _ UnhealthySensitive Hb); by_eval. }
  assert (L55 : PrimFloat.ltb 55.4 pm25 = true) by (eapply Hc; [|exact E55]; by_eval).
  assert (N2 : PrimFloat.leb pm25 js_moderate_max = false).
  { destruct (PrimFloat.leb pm25 js_moderate_max) eqn:E; [|reflexivity].
    rewrite (leb_trans pm25 js_moderate_max 55.4 E ltac:(by_eval)) in E55. discriminate. }
  rewrite N2.
  destruct (PrimFloat.leb pm25 150.4) eqn:E150.
  { destruct (PrimFloat.leb pm25 js_sensitive_max) eqn:ET3.
    - assert (Hb := js_line_between 150 (50 / 95) 55.5 55.4 js_sensitive_max pm25
                      ltac:(by_eval) ltac:(by_eval) ltac:(by_eval) ltac:(by_eval) ltac:(by_eval) ltac:(by_eval)
                      ltac:(by_eval) ltac:(by_eval) ltac:(by_eval) ltac:(by_eval) ltac:(by_eval) ltac:(by_eval)
                      (conj (ltb_leb _ _ L55) ET3)).
      split; [apply (between_widen _ _ _ _ _ Hb); by_eval|].
      apply (alert_of_between _ _ _ UnhealthySensitive Hb); by_eval.
    - assert (LT3 : PrimFloat.ltb js_sensitive_max pm25 = true) by (eapply Hc; [|exact ET3]; by_eval).
      apply (float_gap js_sensitive_max 0x1.c399999999996p+5 pm25 _ _ ltac:(by_eval) ltac:(by_eval)) in LT3.
      assert (Hb := js_line_between 150 (50 / 95) 55.5 0x1.c399999999996p+5 150.4 pm25
                      ltac:(by_eval) ltac:(by_eval) ltac:(by_eval) ltac:(by_eval) ltac:(by_eval) ltac:(by_eval)
                      ltac:(by_eval) ltac:(by_eval) ltac:(by_eval) ltac:(by_eval) ltac:(by_eval) ltac:(by_eval)
                      (conj LT3 E150)).
      split; [apply (between_widen _ _ _ _ _ Hb); by_eval|].
      apply (alert_of_between _ _ _ Unhealthy Hb); by_eval. }
  assert (N3 : PrimFloat.leb pm25 js_sensitive_max = false).
  { destruct (PrimFloat.leb pm25 js_sensitive_max) eqn:E; [|reflexivity].
    rewrite (leb_trans pm25 js_sensitive_max 150.4 E ltac:(by_eval)) in E150. discriminate. }
  rewrite N3. split; [split; by_eval | by_eval].
Qed.

End ScriptBands.

Section Disagree.
Variable parse_float : string -> option float.
Local Open Scope float_scope.

Lemma categories_compare (pm25 : float) (v : Z) :
  fval pm25 = Some v ->
  (py_category pm25 = js_category pm25 <-> categories_differ pm25 = false).
Proof.
  intros Hv.
  assert (O1 : PrimFloat.ltb js_good_max py_good_max = true) by by_eval.
  assert (O2 : PrimFloat.ltb py_good_max js_moderate_max = true) by by_eval.
  assert (O3 : PrimFloat.ltb js_moderate_max py_moderate_max = true) by by_eval.
  assert (O4 : PrimFloat.ltb py_moderate_max js_sensitive_max = true) by by_eval.
  assert (O5 : PrimFloat.ltb js_sensitive_max py_sensitive_max = true) by by_eval.
  apply ltb_fval in O1 as (j1 & t1 & J1 & T1 & L1).
  apply ltb_fval in O2 as (t1' & j2 & T1' & J2 & L2).
  apply ltb_fval in O3 as (j2' & t2 & J2' & T2 & L3).
  apply ltb_fval in O4 as (t2' & j3 & T2' & J3 & L4).
  apply ltb_fval in O5 as (j3' & t3 & J3' & T3 & L5).
  assert (t1' = t1) by congruence. assert (j2' = j2) by congruence.
  assert (t2' = t2) by congruence. assert (j3' = j3) by congruence. subst.
  unfold py_category, js_category, categories_differ.
  rewrite (proj1 (fval_compare pm25 _ _ _ Hv T1)), (proj1 (fval_compare pm25 _ _ _ Hv T2)),
    (proj1 (fval_compare pm25 _ _ _ Hv T3)), (proj1 (fval_compare pm25 _ _ _ Hv J1)),
    (proj1 (fval_compare pm25 _ _ _ Hv J2)), (proj1 (fval_compare pm25 _ _ _ Hv J3)).
  rewrite (proj1 (proj2 (fval_compare _ pm25 _ _ J1 Hv))),
    (proj1 (proj2 (fval_compare _ pm25 _ _ J2 Hv))),
    (proj1 (proj2 (fval_compare _ pm25 _ _ J3 Hv))).
  clear - L1 L2 L3 L4 L5.
  destruct (Z.leb_spec v t1), (Z.leb_spec v t2), (Z.leb_spec v t3),
    (Z.leb_spec v j1), (Z.leb_spec v j2), (Z.leb_spec v j3),
    (Z.ltb_spec j1 v), (Z.ltb_spec j2 v), (Z.ltb_spec j3 v);
    try lia; simpl; split; intros; congruence.
Qed.

End Disagree.

(** ** The contour levels and the layouts of [create_map] *)

Section NaN.
Local Open Scope float_scope.

Lemma is_nan_fval (x : float) : is_nan x = false <-> exists v, fval x = Some v.
Proof.
  unfold is_nan. split.
  - intros H. apply negb_false_iff in H.
    destruct (fval x) as [v|] eqn:E; [eauto|].
    rewrite (proj2 (proj2 (fval_nan_l x x E))) in H. discriminate.
  - intros [v Hv]. rewrite (proj2 (proj2 (fval_compare x x v v Hv Hv))).
    rewrite Z.eqb_refl. reflexivity.
Qed.

Lemma np_not_nan_spec (a : list (list float)) :
  Forall (fun v => is_nan v = false) (np_not_nan a).
Proof.
  unfold np_not_nan. apply List.Forall_forall. intros v Hv.
  apply filter_In in Hv as [_ Hv]. apply negb_true_iff in Hv. exact Hv.
Qed.

Lemma np_all_isnan_false (a : list (list float)) :
  np_all_isnan a = false -> np_not_nan a <> [].
Proof.
  unfold np_all_isnan, np_not_nan. induction a as [|row a IH]; [discriminate|].
  cbn [forallb concat]. intros H. apply andb_false_iff in H as [H|H].
  - rewrite List.filter_app. intros Heq. apply app_eq_nil in Heq as [Heq _].
    clear IH. induction row as [|v row IHr]; [discriminate|].
    cbn [forallb List.filter] in *. destruct (is_nan v); cbn [negb] in *; [|discriminate].
    apply IHr; assumption.
  - rewrite List.filter_app. intros Heq. apply app_eq_nil in Heq as [_ Heq].
    apply IH; assumption.
Qed.

Lemma np_max_not_nan (l : list float) (m : float) :
  Forall (fun v => is_nan v = false) l -> np_max l = Some m -> is_nan m = false.
Proof.
  destruct l as [|x rest]; [discriminate|]. cbn [np_max]. intros Hall [= <-].
  inversion Hall as [|? ? Hx Hrest]; subst. clear Hall.
  revert x Hx. induction Hrest as [|y rest Hy Hrest IH]; intros x Hx; [exact Hx|].
  cbn [fold_left]. apply IH. destruct (PrimFloat.leb y x || is_nan x); assumption.
Qed.

(** The last level of the contour plot lies above 55.4. *)
Lemma max_value_above (m : float) :
  is_nan m = false -> PrimFloat.ltb 55.4 (py_max m 55.4 + 1) = true.
Proof.
  intros Hm. apply is_nan_fval in Hm as [v Hv].
  set (a := py_max m 55.4).
  assert (Ha : PrimFloat.leb 55.4 a = true).
  { subst a. unfold py_max. destruct (PrimFloat.ltb m 55.4) eqn:E; [by_eval|].
    assert (F : exists k, fval 55.4 = Some k) by (eexists; reflexivity). destruct F as [k Hk].
    rewrite (proj1 (proj2 (fval_compare m _ v k Hv Hk))) in E.
    rewrite (proj1 (fval_compare _ m k v Hk Hv)).
    apply Z.ltb_ge in E. apply Z.leb_le. exact E. }
  clearbody a. destruct (leb_fval_r _ _ Ha) as [w Hw].
  destruct (not_nan_cases a w Hw) as [Hf | [-> | ->]].
  - assert (Hb : between 55.4 max_float a)
      by (split; [assumption | apply finite_le_max; assumption]).
    apply (add_between_l 1) in Hb; [|by_eval..].
    apply (ltb_leb_trans _ (55.4 + 1)); [by_eval | apply Hb].
  - vm_compute in Ha. discriminate.
  - by_eval.
Qed.

End NaN.

Section CreateMapFacts.
Variable contourf_accepts :
  list (list float) -> list (list float) -> list (list float) -> list float -> bool.

Lemma create_map_cases (grid_lon grid_lat grid_values : option (list (list float)))
    (data : list station_row) (bbox : float * float * float * float) (m : folium_map) :
  create_map contourf_accepts grid_lon grid_lat grid_values data bbox = Some m ->
  map_markers m = match data with
                  | [] => [Marker (27.7, 85.3)%float "No data available"]
                  | _ => station_markers data
                  end
  /\ match map_layout m with
     | DefaultMap =>
         data = [] \/ grid_lon = None \/ grid_values = None
         \/ exists gv, grid_values = Some gv /\ np_all_isnan gv = true
     | StationsOnly => False
     | Contours levels _ =>
         data <> [] /\ strictly_increasing levels = true
         /\ exists glon glat gv mx,
              grid_lon = Some glon /\ grid_lat = Some glat /\ grid_values = Some gv
              /\ np_all_isnan gv = false
              /\ np_max (np_not_nan gv) = Some mx
              /\ levels = [0; 12; 35.4; 55.4; py_max mx 55.4 + 1]%float
              /\ contourf_accepts glon glat gv levels = true
     end
  /\ map_fit m = (let '(bbox0, bbox1, bbox2, bbox3) := bbox in
                  ((bbox1, bbox0), (bbox3, bbox2))).
Proof.
  unfold create_map. destruct bbox as [[[bbox0 bbox1] bbox2] bbox3].
  destruct data as [|row data].
  { intros [= <-]. simpl. split; [reflexivity|]. split; [auto | reflexivity]. }
  destruct grid_lon as [glon|]; [|intros [= <-]; simpl; split; [reflexivity|]; split; [auto | reflexivity]].
  destruct grid_values as [gv|]; [|intros [= <-]; simpl; split; [reflexivity|]; split; [auto | reflexivity]].
  destruct (np_all_isnan gv) eqn:Eall.
  { intros [= <-]. simpl. split; [reflexivity|]. split; [|reflexivity].
    right. right. right. eauto. }
  destruct grid_lat as [glat|]; [|discriminate].
  pose proof (np_all_isnan_false gv Eall) as Hne.
  destruct (np_not_nan gv) as [|v0 vs] eqn:Evalid; [congruence|].
  cbn [length Nat.eqb Nat.ltb Nat.leb].
  destruct (np_max (v0 :: vs)) as [mx|] eqn:Emax; [|discriminate].
  cbn [mbind option_bind].
  destruct (contourf_accepts glon glat gv _) eqn:Eacc; [|discriminate].
  destruct (np_min (concat glon)) as [lon_min|]; [|discriminate].
  destruct (np_max (concat glon)) as [lon_max|]; [|discriminate].
  destruct (np_min (concat glat)) as [lat_min|]; [|discriminate].
  destruct (np_max (concat glat)) as [lat_max|]; [|discriminate].
  cbn [mbind option_bind]. intros [= <-]. cbn [map_markers map_layout].
  split; [reflexivity|]. split; [|reflexivity]. split; [discriminate|].
  assert (Hmx : is_nan mx = false).
  { apply (np_max_not_nan (v0 :: vs)); [|assumption].
    rewrite <- Evalid. apply np_not_nan_spec. }
  split.
  - cbn [strictly_increasing]. rewrite (max_value_above mx Hmx). reflexivity.
  - exists glon, glat, gv, mx. rewrite Evalid. repeat split; try reflexivity; assumption.
Qed.

End CreateMapFacts.

Lemma get_alert_get_color (aqi : Z) :
  get_alert aqi = get_aqi_alert aqi /\ get_color aqi = color_of_alert (get_aqi_alert aqi).
Proof.
  unfold get_alert, get_color, get_aqi_alert.
  destruct (aqi <=? 50)%Z; [split; reflexivity|].
  destruct (aqi <=? 100)%Z; [split; reflexivity|].
  destruct (aqi <=? 150)%Z; split; reflexivity.
Qed.

(** ** The frame of [fetch_latest_pm25] *)

Section Fetch.

Lemma dropna_spec (results : list measurement) (row : station_row) :
  In row
    (omap (fun '(lat, lon, value, datetime) =>
             if isna lat || isna lon || isna value then None
             else
               lat ← lat; lon ← lon; value ← value; datetime ← datetime;
               Some (StationRow lat lon value datetime None None))
          (map (fun x =>
                  (c ← m_coordinates x; c.1, c ← m_coordinates x; c.2, m_value x,
                   d ← m_datetime x; d))
               results)) ->
  (exists x, In x results /\ complete_row x row)
  /\ is_nan (row_lat row) = false /\ is_nan (row_lon row) = false
  /\ is_nan (row_value row) = false.
Proof.
  intros Hin. apply list_elem_of_In in Hin. apply list_elem_of_omap in Hin as (c & Hc & Hrow).
  apply list_elem_of_In in Hc. apply in_map_iff in Hc as (x & <- & Hx).
  destruct (m_coordinates x) as [[lat lon]|] eqn:Ec; cbn [mbind option_bind fst snd] in Hrow;
    [|discriminate].
  destruct lat as [lat|]; [|discriminate]. destruct lon as [lon|]; cbn [isna] in Hrow.
  2:{ rewrite orb_true_r in Hrow. discriminate. }
  destruct (m_value x) as [value|] eqn:Ev; cbn [isna] in Hrow.
  2:{ rewrite orb_true_r in Hrow. discriminate. }
  destruct (is_nan lat) eqn:E1; [discriminate|].
  destruct (is_nan lon) eqn:E2; [discriminate|].
  destruct (is_nan value) eqn:E3; [discriminate|].
  cbn [orb mbind option_bind] in Hrow.
  destruct (m_datetime x) as [[datetime|]|] eqn:Ed; cbn [mbind option_bind] in Hrow;
    try discriminate.
  injection Hrow as <-. cbn.
  split; [|auto]. exists x. split; [assumption|]. unfold complete_row. cbn. auto.
Qed.

Lemma fetch_rows_spec (bbox : option (float * float * float * float)) (r : response)
    (row : station_row) :
  In row (fetch_latest_pm25 bbox r) ->
  (exists results x, r = Body (Some results) /\ In x results /\ complete_row x row)
  /\ is_nan (row_lat row) = false /\ is_nan (row_lon row) = false
  /\ is_nan (row_value row) = false
  /\ match bbox with
     | Some bbox => inside bbox row
     | None => True
     end.
Proof.
  unfold fetch_latest_pm25. destruct r as [|[results|]]; [intros [] | | intros []].
  destruct results as [|x0 results]; [intros []|].
  set (rs := x0 :: results). clearbody rs.
  destruct bbox as [[[[min_lon min_lat] max_lon] max_lat]|].
  - intros Hin. apply filter_In in Hin as [Hin Hbox].
    apply dropna_spec in Hin as ((x & Hx & Hc) & Hn).
    split; [eauto|]. repeat (split; [apply Hn|]).
    apply andb_prop in Hbox as [Hbox H4]. apply andb_prop in Hbox as [Hbox H3].
    apply andb_prop in Hbox as [H1 H2]. cbn. unfold between. auto.
  - intros Hin. apply dropna_spec in Hin as ((x & Hx & Hc) & Hn).
    split; [eauto|]. repeat (split; [apply Hn|]). exact I.
Qed.

End Fetch.

(** ** The grid resolution of the script *)

Section ResolutionFacts.
Local Open Scope R_scope.

Lemma INR_literal (n : nat) : INR n = IZR (Z.of_nat n).
Proof. apply INR_IZR_INZ. Qed.

Lemma grid_resolution_exact (b0 b1 b2 b3 : R) :
  let span := Rmax (b2 - b0) (b3 - b1) in
  grid_resolution (num := exact_real) (b0, b1, b2, b3)
  = if Rlt_dec span 1 then 5 / 1000 else if Rlt_dec span 5 then 2 / 100 else 5 / 100.
Proof.
  unfold grid_resolution, decimal.
  cbn [num_sub num_ltb num_div num_of_nat num_one exact_real].
  rewrite !INR_literal.
  change (Z.of_nat 5) with 5%Z. change (Z.of_nat 1000) with 1000%Z.
  change (Z.of_nat 2) with 2%Z. change (Z.of_nat 100) with 100%Z.
  unfold Exact.ltb, Rmax.
  destruct (Rlt_dec (b2 - b0) (b3 - b1)), (Rle_dec (b2 - b0) (b3 - b1)); try lra.
  - destruct (Rlt_dec (b3 - b1) 1); [reflexivity|]. destruct (Rlt_dec (b3 - b1) 5); reflexivity.
  - assert (E : b3 - b1 = b2 - b0) by lra. rewrite E.
    destruct (Rlt_dec (b2 - b0) 1); [reflexivity|]. destruct (Rlt_dec (b2 - b0) 5); reflexivity.
  - destruct (Rlt_dec (b2 - b0) 1); [reflexivity|]. destruct (Rlt_dec (b2 - b0) 5); reflexivity.
Qed.

(** The number of steps of a half-open range. *)
Lemma half_open_steps_length (start stop step : R) (l : list R) :
  0 < step -> start < stop -> half_open_steps start stop step l ->
  (INR (length l) - 1) * step < stop - start.
Proof.
  intros Hstep Hlt [Hsteps _]. destruct (length l) as [|n] eqn:E.
  - simpl. nra.
  - destruct (lookup_lt_is_Some_2 l n ltac:(lia)) as [x Hx].
    destruct (Hsteps n x Hx) as [-> [_ Hhi]]. rewrite S_INR. lra.
Qed.

Lemma grid_size (data : list (sample R)) (b0 b1 b2 b3 r power : R) :
  (3 <= length data)%nat -> 0 < r ->
  Forall (fun s => b0 <= lon s <= b2 /\ b1 <= lat s <= b3) data ->
  exists grid_lon grid_lat grid_values rows cols,
    interpolate_idw data r power = Grid grid_lon grid_lat grid_values
    /\ has_shape rows cols grid_lon /\ has_shape rows cols grid_lat
    /\ has_shape rows cols grid_values
    /\ (INR cols - 1) * r < b2 - b0 + 2 / 10
    /\ (INR rows - 1) * r < b3 - b1 + 2 / 10.
Proof.
  intros (first & rest & -> & Hlen)%gate_passed Hr Hin.
  destruct (arange_exact (envelope first rest).1.1.1 (envelope first rest).1.1.2 r Hr)
    as (lons & Hlons & Hsteps_lon).
  destruct (arange_exact (envelope first rest).1.2 (envelope first rest).2 r Hr)
    as (lats & Hlats & Hsteps_lat).
  destruct (interpolate_idw_grid first rest r power lons lats Hlen Hlons Hlats)
    as (gv & Heq & Hshape & _).
  exists (meshgrid lons lats).1, (meshgrid lons lats).2, gv, (length lats), (length lons).
  split; [exact Heq|]. split; [apply meshgrid_shape|]. split; [apply meshgrid_shape|].
  split; [exact Hshape|].
  destruct (series_min_spec (lon first) (map lon rest)) as [Hlo_in Hlo].
  destruct (series_max_spec (lon first) (map lon rest)) as [Hhi_in Hhi].
  destruct (series_min_spec (lat first) (map lat rest)) as [Hlo_in' Hlo'].
  destruct (series_max_spec (lat first) (map lat rest)) as [Hhi_in' Hhi'].
  assert (Hbox : forall x, In x (lon first :: map lon rest) -> b0 <= x <= b2).
  { intros x Hx. change (lon first :: map lon rest) with (map lon (first :: rest)) in Hx.
    apply in_map_iff in Hx as (s & <- & Hs). rewrite List.Forall_forall in Hin.
    apply (Hin s Hs). }
  assert (Hbox' : forall x, In x (lat first :: map lat rest) -> b1 <= x <= b3).
  { intros x Hx. change (lat first :: map lat rest) with (map lat (first :: rest)) in Hx.
    apply in_map_iff in Hx as (s & <- & Hs). rewrite List.Forall_forall in Hin.
    apply (Hin s Hs). }
  pose proof (Hbox _ Hlo_in) as B1. pose proof (Hbox _ Hhi_in) as B2.
  pose proof (Hbox' _ Hlo_in') as B3. pose proof (Hbox' _ Hhi_in') as B4.
  rewrite List.Forall_forall in Hlo, Hhi, Hlo', Hhi'.
  pose proof (Hlo _ Hhi_in) as O1. pose proof (Hlo' _ Hhi_in') as O2.
  unfold envelope in Hsteps_lon, Hsteps_lat. simpl in Hsteps_lon, Hsteps_lat.
  split.
  - apply half_open_steps_length in Hsteps_lon; lra.
  - apply half_open_steps_length in Hsteps_lat; lra.
Qed.

Lemma INR_le_of_lt (n k : nat) : INR n - 1 < INR k -> (n <= k)%nat.
Proof.
  intros H. destruct (Nat.le_gt_cases n k) as [|Hgt]; [assumption|]. exfalso.
  assert (Hle : (S k <= n)%nat) by lia. apply le_INR in Hle. rewrite S_INR in Hle. lra.
Qed.

End ResolutionFacts.

(** ** The size of the grid *)

(** In exact real arithmetic, with the resolution that the script chooses
    for a bounding box (0.005 where the longer side of the box is below 1
    degree, 0.02 where it is below 5, else 0.05) and at least three
    stations that lie in the box, [interpolate_idw] returns a grid, and
    along each axis the grid extends over less than the side of the box
    plus the two margins of 0.1: it has at most 240 rows and 240 columns
    for a box below 1 degree, at most 260 for a box below 5 degrees. *)
Theorem grid_nodes_bounded_exact (data : list (sample R)) (b0 b1 b2 b3 power : R) :
  3 <= length data ->
  Forall (fun s => (b0 <= lon s <= b2)%R /\ (b1 <= lat s <= b3)%R) data ->
  exists grid_lon grid_lat grid_values rows cols,
    interpolate_idw data (grid_resolution (b0, b1, b2, b3)) power
    = Grid grid_lon grid_lat grid_values
    /\ has_shape rows cols grid_lon /\ has_shape rows cols grid_lat
    /\ has_shape rows cols grid_values
    /\ ((Rmax (b2 - b0) (b3 - b1) < 1)%R -> rows <= 240 /\ cols <= 240)
    /\ ((Rmax (b2 - b0) (b3 - b1) < 5)%R -> rows <= 260 /\ cols <= 260)
    /\ ((INR cols - 1) * grid_resolution (b0, b1, b2, b3) < b2 - b0 + 2 / 10)%R
    /\ ((INR rows - 1) * grid_resolution (b0, b1, b2, b3) < b3 - b1 + 2 / 10)%R.
Proof.
  intros Hlen Hin.
  pose proof (grid_resolution_exact b0 b1 b2 b3) as Hr. cbv zeta in Hr.
  set (r := grid_resolution (b0, b1, b2, b3)) in *.
  assert (Hpos : (0 < r)%R).
  { rewrite Hr. destruct (Rlt_dec _ 1); [lra|]. destruct (Rlt_dec _ 5); lra. }
  destruct (grid_size data b0 b1 b2 b3 r power Hlen Hpos Hin)
    as (grid_lon & grid_lat & grid_values & rows & cols & Heq & S1 & S2 & S3 & Hc & Hrw).
  exists grid_lon, grid_lat, grid_values, rows, cols.
  do 4 (split; [assumption|]).
  assert (Hspan : (b2 - b0 <= Rmax (b2 - b0) (b3 - b1) /\ b3 - b1 <= Rmax (b2 - b0) (b3 - b1))%R)
    by (split; [apply Rmax_l | apply Rmax_r]).
  assert (H240 : INR 240 = 240%R) by (rewrite INR_literal; reflexivity).
  assert (H260 : INR 260 = 260%R) by (rewrite INR_literal; reflexivity).
  assert (Hr0 : (0 <= INR rows)%R) by apply pos_INR.
  assert (Hc0 : (0 <= INR cols)%R) by apply pos_INR.
  split; [|split; [|split]].
  - intros Hs. destruct (Rlt_dec _ 1) as [_|]; [|lra].
    split; apply INR_le_of_lt; rewrite H240; rewrite Hr in Hc, Hrw; lra.
  - intros Hs. destruct (Rlt_dec _ 1) as [Hs1|Hs1].
    + assert (H : rows <= 240 /\ cols <= 240)
        by (split; apply INR_le_of_lt; rewrite H240; rewrite Hr in Hc, Hrw; lra).
      destruct H. split; apply Nat.le_trans with 240; try assumption; repeat constructor.
    + destruct (Rlt_dec _ 5) as [_|]; [|lra].
      split; apply INR_le_of_lt; rewrite H260; rewrite Hr in Hc, Hrw; lra.
  - exact Hc.
  - exact Hrw.
Qed.

Lemma grid_nodes_bounded_witness :
  3 <= length demo_box_stations
  /\ Forall (fun s => (0 <= lon s <= 8 / 10)%R /\ (0 <= lat s <= 4 / 10)%R) demo_box_stations
  /\ exists grid_lon grid_lat grid_values rows cols,
       interpolate_idw demo_box_stations (grid_resolution (0, 0, 8 / 10, 4 / 10)%R) 2%R
       = Grid grid_lon grid_lat grid_values
       /\ has_shape rows cols grid_lon /\ has_shape rows cols grid_lat
       /\ has_shape rows cols grid_values
       /\ ((Rmax (8 / 10 - 0) (4 / 10 - 0) < 1)%R -> rows <= 240 /\ cols <= 240)
       /\ ((Rmax (8 / 10 - 0) (4 / 10 - 0) < 5)%R -> rows <= 260 /\ cols <= 260)
       /\ ((INR cols - 1) * grid_resolution (0, 0, 8 / 10, 4 / 10) < 8 / 10 - 0 + 2 / 10)%R
       /\ ((INR rows - 1) * grid_resolution (0, 0, 8 / 10, 4 / 10) < 4 / 10 - 0 + 2 / 10)%R.
Proof.
  assert (H1 : 3 <= length demo_box_stations) by (simpl; lia).
  assert (H2 : Forall (fun s => (0 <= lon s <= 8 / 10)%R /\ (0 <= lat s <= 4 / 10)%R)
                      demo_box_stations)
    by (repeat constructor; simpl; lra).
  split; [exact H1|]. split; [exact H2|].
  exact (grid_nodes_bounded_exact demo_box_stations 0 0 (8 / 10) (4 / 10) 2 H1 H2).
Defined.

(** ** The click handler below three stations *)

(** The click handler has no three-station gate. With one or two stations
    the Python estimators return their sentinels (NaN, the None triple),
    while the script, which [app.py] adds to the map whenever the frame is
    not empty, computes an estimate: in exact arithmetic it lies between
    the least and the greatest station value, and with one station it is
    the value of that station, wherever the click is. *)
Theorem click_handler_has_no_gate_exact (stations : list (sample R)) (lat_ lng : R) :
  1 <= length stations < 3 ->
  (forall power, interpolate_idw_point stations lng lat_ power = NoEstimate)
  /\ (forall grid_resolution power, interpolate_idw stations grid_resolution power = NoGrid)
  /\ (forall lo hi, Forall (fun s => (lo <= value s <= hi)%R) stations ->
        (lo <= js_pm25 stations lat_ lng <= hi)%R)
  /\ (forall s, stations = [s] -> js_pm25 stations lat_ lng = value s).
Proof.
  intros Hlen.
  assert (Hne : stations <> []) by (intros ->; simpl in Hlen; lia).
  assert (Hgate : (length stations <? 3)%nat = true) by (apply Nat.ltb_lt; lia).
  split; [|split; [|split]].
  - intros power. unfold interpolate_idw_point. destruct stations; [reflexivity|].
    rewrite Hgate. reflexivity.
  - intros r power. unfold interpolate_idw. destruct stations; [reflexivity|].
    rewrite Hgate. reflexivity.
  - intros lo hi Hv. rewrite js_pm25_is_idw_value by (left; lia).
    apply idw_value_bounds; assumption.
  - intros s ->. rewrite js_pm25_is_idw_value by (left; simpl; lia).
    assert (H : (value s <= idw_value [s] lng lat_ two <= value s)%R).
    { apply idw_value_bounds; [discriminate|]. constructor; [lra | constructor]. }
    lra.
Qed.

Lemma click_handler_witness :
  1 <= length two_stations_exact < 3
  /\ (forall power,
        interpolate_idw_point two_stations_exact (1 / 2)%R 0%R power = NoEstimate)
  /\ (forall grid_resolution power,
        interpolate_idw two_stations_exact grid_resolution power = NoGrid)
  /\ (forall lo hi, Forall (fun s => (lo <= value s <= hi)%R) two_stations_exact ->
        (lo <= js_pm25 two_stations_exact 0%R (1 / 2)%R <= hi)%R)
  /\ (forall s, two_stations_exact = [s] -> js_pm25 two_stations_exact 0%R (1 / 2)%R = value s).
Proof.
  assert (H : 1 <= length two_stations_exact < 3) by (simpl; lia).
  split; [exact H|].
  exact (click_handler_has_no_gate_exact two_stations_exact 0%R (1 / 2)%R H).
Defined.

(** ** The session state *)

Section SessionFacts.
Variable parse_float : string -> option float.
Variable contourf_accepts :
  list (list float) -> list (list float) -> list (list float) -> list float -> bool.

Lemma region_resolution (name : string) (bbox : float * float * float * float) :
  region_bbox name = Some bbox -> grid_resolution (num := binary64) bbox = 0.005%float.
Proof.
  unfold region_bbox, REGIONS. cbn [List.find fst snd].
  repeat (destruct (String.eqb _ name); [intros [= <-]; vm_compute; reflexivity|]).
  discriminate.
Qed.

Lemma with_aqi_spec (data data' : list station_row) :
  with_aqi parse_float data = Some data' ->
  Forall2 (fun row row' =>
             row_lat row' = row_lat row /\ row_lon row' = row_lon row
             /\ row_value row' = row_value row /\ row_datetime row' = row_datetime row
             /\ row_station_name row' = row_station_name row
             /\ exists aqi, row_aqi row' = Some aqi
                            /\ pm25_to_aqi parse_float (PyFloat (row_value row)) = Return aqi)
          data data'.
Proof.
  unfold with_aqi. intros H. apply mapM_Some_1 in H.
  induction H as [|row row' data data' Hrow _ IH]; constructor; [|exact IH].
  destruct (pm25_to_aqi parse_float (PyFloat (row_value row))) as [aqi|]; [|discriminate].
  injection Hrow as <-. cbn. repeat split; eauto.
Qed.


Lemma session_ok_state (st st' : SessionState.t) :
  SessionState.map st' = SessionState.map st ->
  SessionState.data st' = SessionState.data st ->
  SessionState.grid_lon st' = SessionState.grid_lon st ->
  SessionState.grid_lat st' = SessionState.grid_lat st ->
  SessionState.grid_values st' = SessionState.grid_values st ->
  session_ok parse_float contourf_accepts st -> session_ok parse_float contourf_accepts st'.
Proof. unfold session_ok. intros -> -> -> -> ->. trivial. Qed.

Lemma refresh_spec (st st' : SessionState.t) (region : string)
    (bbox : float * float * float * float) (now' : float) (r : response) (shown : list message) :
  region_bbox region = Some bbox ->
  refresh parse_float contourf_accepts st bbox 0.005%float now' r = (st', shown) ->
  (st' = st /\ shown <> [InsufficientWarning] /\ shown <> [InterpolatedSuccess])
  \/ (session_ok parse_float contourf_accepts st'
      /\ SessionState.map st' <> None
      /\ SessionState.last_update st' = now'
      /\ SessionState.selected_region st' = SessionState.selected_region st
      /\ (shown = [InsufficientWarning] \/ shown = [InterpolatedSuccess])).
Proof.
  intros Hbox. unfold refresh.
  destruct (fetch_latest_pm25 (Some bbox) r) as [|row0 rows] eqn:Efetch.
  { intros [= <- <-]. left. repeat split; discriminate. }
  set (data := row0 :: rows) in *.
  destruct (with_aqi parse_float data) as [data'|] eqn:Eaqi.
  2:{ intros [= <- <-]. left. repeat split; discriminate. }
  pose proof (with_aqi_spec _ _ Eaqi) as Hrows.
  assert (Hfetch : forall row, In row data ->
            is_nan (row_lat row) = false /\ is_nan (row_lon row) = false
            /\ is_nan (row_value row) = false /\ row_station_name row = None
            /\ inside bbox row).
  { intros row Hrow. rewrite <- Efetch in Hrow.
    destruct (fetch_rows_spec _ _ _ Hrow) as ((rs & x & _ & _ & Hc) & H1 & H2 & H3 & H4).
    repeat (split; [assumption|]). split; [apply Hc | assumption]. }
  assert (Hne : data' <> []).
  { intros ->. inversion Hrows. }
  assert (Hstored : Forall (stored_row parse_float) data' /\ Forall (inside bbox) data').
  { clear - Hrows Hfetch. induction Hrows as [|row row' l l' H _ IH].
    - split; constructor.
    - destruct IH as [IH1 IH2]; [intros; apply Hfetch; right; assumption|].
      destruct (Hfetch row ltac:(left; reflexivity)) as (N1 & N2 & N3 & N4 & Hin).
      destruct H as (E1 & E2 & E3 & E4 & E5 & aqi & Ea & Hs).
      split; constructor; try assumption.
      + unfold stored_row. rewrite E1, E2, E3, E5. eauto 10.
      + destruct bbox as [[[a b] c] d]. unfold inside in *. rewrite E1, E2. exact Hin. }
  destruct Hstored as [Hstored Hinside].
  destruct (interpolate_idw (map row_sample data') 0.005%float 2%float) eqn:Eidw;
    [| |intros [= <- <-]; left; repeat split; discriminate].
  - cbn [grid_triple].
    destruct (create_map contourf_accepts None None None data' bbox) as [m|] eqn:Emap.
    2:{ intros [= <- <-]. left. repeat split; discriminate. }
    intros [= <- <-]. right.
    pose proof (create_map_cases _ _ _ _ _ _ _ Emap) as [Hmk _].
    split; [|repeat split; try discriminate; auto].
    unfold session_ok. cbn. split; [assumption|]. split; [assumption|].
    split; [destruct data'; [congruence | reflexivity]|].
    split; [destruct data'; [congruence | exact Hmk]|].
    exists region, bbox. rewrite Eidw. cbn [grid_triple]. auto.
  - cbn [grid_triple].
    destruct (create_map contourf_accepts (Some grid_lon) (Some grid_lat)
                (Some (map (map cell_float) grid_values)) data' bbox) as [m|] eqn:Emap.
    2:{ intros [= <- <-]. left.
        destruct (np_all_isnan _); repeat split; discriminate. }
    intros [= <- <-]. right.
    pose proof (create_map_cases _ _ _ _ _ _ _ Emap) as [Hmk _].
    split; [|repeat split; try discriminate; destruct (np_all_isnan _); auto].
    unfold session_ok. cbn. split; [assumption|]. split; [assumption|].
    split; [destruct data'; [congruence | reflexivity]|].
    split; [destruct data'; [congruence | exact Hmk]|].
    exists region, bbox. rewrite Eidw. cbn [grid_triple]. auto.
Qed.

Lemma run_script_ok (st : option SessionState.t) (selected_region : string) (now now' : float)
    (r : response) (st' : SessionState.t) (shown : list message) :
  (forall s, st = Some s -> session_ok parse_float contourf_accepts s) ->
  run_script parse_float contourf_accepts st selected_region now now' r = Some (st', shown) ->
  session_ok parse_float contourf_accepts st'.
Proof.
  intros Hok. unfold run_script.
  destruct (region_bbox selected_region) as [bbox|] eqn:Ebox; [|discriminate].
  cbn [mbind option_bind]. rewrite (region_resolution _ _ Ebox).
  set (s0 := default (new_session) st).
  assert (H0 : session_ok parse_float contourf_accepts s0).
  { subst s0. destruct st as [s|]; [apply Hok; reflexivity|].
    unfold session_ok. cbn. auto. }
  match goal with
  | |- context [if ?c then ?a else s0] => set (s1 := if c then a else s0)
  end.
  assert (H1 : session_ok parse_float contourf_accepts s1).
  { subst s1.
    match goal with
    | |- context [if ?c then _ else _] => destruct c
    end; [|assumption].
    eapply session_ok_state; [..|exact H0]; reflexivity. }
  clearbody s1. destruct (PrimFloat.ltb _ _).
  - intros [= Href]. destruct (refresh_spec _ _ _ _ _ _ _ Ebox Href) as [[-> _]|[Hs _]]; assumption.
  - intros [= <- <-]. assumption.
Qed.

End SessionFacts.

Section Reachable.
Variable parse_float : string -> option float.
Variable contourf_accepts :
  list (list float) -> list (list float) -> list (list float) -> list float -> bool.

Lemma reachable_session_ok (st : SessionState.t) :
  reachable parse_float contourf_accepts (Some st) ->
  session_ok parse_float contourf_accepts st.
Proof.
  intros H. remember (Some st) as o eqn:Eo. revert st Eo.
  induction H as [|st0 region now now' r st' shown Hreach IH Hrun|st0 Hreach IH];
    intros st Eo.
  - discriminate.
  - injection Eo as <-. eapply run_script_ok; [|exact Hrun].
    intros s ->. apply IH. reflexivity.
  - injection Eo as <-. eapply session_ok_state; [..|apply IH; reflexivity]; reflexivity.
Qed.

End Reachable.

Lemma float_sub_0_r (x : float) : (x - 0)%float = x.
Proof.
  apply Prim2SF_inj. rewrite sub_spec. change (Prim2SF 0) with (S754_zero false).
  destruct (Prim2SF x) as [[|]|[|]| |s m e]; reflexivity.
Qed.

Section Stale.
Variable parse_float : string -> option float.
Variable contourf_accepts :
  list (list float) -> list (list float) -> list (list float) -> list float -> bool.

(** When the region is changed and the refresh for the new region finds no
    station (the request fails, or no complete entry of the response lies
    in the box), the run shows the error "No data available" and leaves
    the map, the frame and the grid of the previous region in the session
    state, under the name of the new region: the page goes on showing the
    map of the previous region. [last_update] stays 0, so that every later
    run whose clock reads more than 300 enters the refresh again. *)
Theorem failed_update_keeps_previous_map (st : SessionState.t) (selected_region : string)
    (bbox : float * float * float * float) (now now' : float) (r : response) :
  region_bbox selected_region = Some bbox ->
  SessionState.selected_region st <> Some selected_region ->
  PrimFloat.ltb REFRESH_INTERVAL now = true ->
  fetch_latest_pm25 (Some bbox) r = [] ->
  exists st',
    run_script parse_float contourf_accepts (Some st) selected_region now now' r
    = Some (st', [NoDataError])
    /\ SessionState.selected_region st' = Some selected_region
    /\ SessionState.last_update st' = 0%float
    /\ SessionState.map st' = SessionState.map st
    /\ SessionState.data st' = SessionState.data st
    /\ SessionState.grid_lon st' = SessionState.grid_lon st
    /\ SessionState.grid_lat st' = SessionState.grid_lat st
    /\ SessionState.grid_values st' = SessionState.grid_values st
    /\ forall later later' r',
         PrimFloat.ltb REFRESH_INTERVAL later = true ->
         run_script parse_float contourf_accepts (Some st') selected_region later later' r'
         = Some (refresh parse_float contourf_accepts st' bbox 0.005%float later' r').
Proof.
  intros Hbox Hsel Hnow Hfetch.
  eexists. split; [|split; [|split; [|split; [|split; [|split; [|split; [|split]]]]]]].
  - unfold run_script. rewrite Hbox. cbn [mbind option_bind].
    change (default new_session (Some st)) with st.
    rewrite (region_resolution _ _ Hbox).
    assert (Hc : match SessionState.selected_region st with
                 | Some name => negb (String.eqb name selected_region)
                 | None => true
                 end = true).
    { destruct (SessionState.selected_region st) as [name|]; [|reflexivity].
      destruct (String.eqb_spec name selected_region) as [->|]; [congruence | reflexivity]. }
    rewrite Hc. cbn [SessionState.last_update]. rewrite float_sub_0_r, Hnow.
    unfold refresh. rewrite Hfetch. reflexivity.
  - reflexivity.
  - reflexivity.
  - reflexivity.
  - reflexivity.
  - reflexivity.
  - reflexivity.
  - reflexivity.
  - intros later later' r' Hlater. unfold run_script. rewrite Hbox.
    cbn [mbind option_bind].
    match goal with
    | |- context [default new_session (Some ?x)] =>
        change (default new_session (Some x)) with x
    end.
    cbn [SessionState.selected_region].
    rewrite (region_resolution _ _ Hbox). rewrite String.eqb_refl. cbn [negb].
    cbn [SessionState.last_update]. rewrite float_sub_0_r, Hlater. reflexivity.
Qed.

End Stale.

Lemma failed_update_witness :
  region_bbox "Delhi, India" = Some (76.8, 28.4, 77.4, 28.9)%float
  /\ SessionState.selected_region demo_session <> Some "Delhi, India"%string
  /\ PrimFloat.ltb REFRESH_INTERVAL 1714565000 = true
  /\ fetch_latest_pm25 (Some (76.8, 28.4, 77.4, 28.9)%float) demo_response = []
  /\ exists st',
       run_script (fun _ => None) (fun _ _ _ _ => true) (Some demo_session) "Delhi, India"
                  1714565000 1714565001 demo_response
       = Some (st', [NoDataError])
       /\ SessionState.selected_region st' = Some "Delhi, India"%string
       /\ SessionState.last_update st' = 0%float
       /\ SessionState.map st' = SessionState.map demo_session
       /\ SessionState.data st' = SessionState.data demo_session
       /\ SessionState.grid_lon st' = SessionState.grid_lon demo_session
       /\ SessionState.grid_lat st' = SessionState.grid_lat demo_session
       /\ SessionState.grid_values st' = SessionState.grid_values demo_session
       /\ forall later later' r',
            PrimFloat.ltb REFRESH_INTERVAL later = true ->
            run_script (fun _ => None) (fun _ _ _ _ => true) (Some st') "Delhi, India"
                       later later' r'
            = Some (refresh (fun _ => None) (fun _ _ _ _ => true) st'
                            (76.8, 28.4, 77.4, 28.9)%float 0.005%float later' r').
Proof.
  assert (H1 : region_bbox "Delhi, India" = Some (76.8, 28.4, 77.4, 28.9)%float)
    by reflexivity.
  assert (H2 : SessionState.selected_region demo_session <> Some "Delhi, India"%string)
    by (vm_compute; discriminate).
  assert (H3 : PrimFloat.ltb REFRESH_INTERVAL 1714565000 = true) by reflexivity.
  assert (H4 : fetch_latest_pm25 (Some (76.8, 28.4, 77.4, 28.9)%float) demo_response = [])
    by reflexivity.
  split; [exact H1|]. split; [exact H2|]. split; [exact H3|]. split; [exact H4|].
  exact (failed_update_keeps_previous_map (fun _ => None) (fun _ _ _ _ => true) demo_session
           "Delhi, India" _ 1714565000 1714565001 demo_response H1 H2 H3 H4).
Defined.

(** ** The weighted average: units and order *)

Section AverageFacts.
Local Open Scope R_scope.

Lemma idw_weights_map (data : list (sample R)) (qlon qlat power : R) :
  idw_weights data qlon qlat power = map (weight_of qlon qlat power) data.
Proof. unfold idw_weights, idw_dists. rewrite !map_map. reflexivity. Qed.

Lemma idw_value_sums (data : list (sample R)) (qlon qlat power : R) :
  idw_value data qlon qlat power
  = np_sum (num := exact_real) (map (fun s => weight_of qlon qlat power s * value s) data)
    / np_sum (num := exact_real) (map (weight_of qlon qlat power) data).
Proof.
  unfold idw_value. rewrite idw_weights_map. f_equal.
  f_equal. induction data as [|s data IH]; [reflexivity|]. simpl. f_equal. exact IH.
Qed.

Lemma np_sum_perm (l l' : list R) :
  Permutation l l' -> np_sum (num := exact_real) l = np_sum (num := exact_real) l'.
Proof.
  induction 1 as [|x l l' _ IH|x y l|l l' l'' _ IH1 _ IH2].
  - reflexivity.
  - rewrite !np_sum_cons, IH. reflexivity.
  - rewrite !np_sum_cons. lra.
  - congruence.
Qed.

Lemma np_sum_affine (w v : sample R -> R) (a b : R) (data : list (sample R)) :
  np_sum (num := exact_real) (map (fun s => w s * (a * v s + b)) data)
  = a * np_sum (num := exact_real) (map (fun s => w s * v s) data)
    + b * np_sum (num := exact_real) (map w data).
Proof.
  induction data as [|s data IH]; [simpl; rewrite np_sum_nil; lra|].
  cbn [map]. rewrite !np_sum_cons, IH. lra.
Qed.

Lemma weights_sum_pos (data : list (sample R)) (qlon qlat power : R) :
  data <> [] -> 0 < np_sum (num := exact_real) (map (weight_of qlon qlat power) data).
Proof.
  intros Hne. rewrite <- idw_weights_map. apply np_sum_pos; [|apply idw_weights_pos].
  rewrite idw_weights_map. destruct data; [congruence | discriminate].
Qed.

Lemma idw_value_rescale (data : list (sample R)) (qlon qlat power a b : R) :
  data <> [] ->
  idw_value (map (rescale a b) data) qlon qlat power = a * idw_value data qlon qlat power + b.
Proof.
  intros Hne. rewrite !idw_value_sums, !map_map.
  change (fun x => weight_of qlon qlat power (rescale a b x)) with (weight_of qlon qlat power).
  change (fun x => weight_of qlon qlat power (rescale a b x) * value (rescale a b x))
    with (fun s => weight_of qlon qlat power s * (a * value s + b)).
  rewrite np_sum_affine. pose proof (weights_sum_pos data qlon qlat power Hne). field. lra.
Qed.

Lemma idw_value_perm (data data' : list (sample R)) (qlon qlat power : R) :
  Permutation data data' -> idw_value data qlon qlat power = idw_value data' qlon qlat power.
Proof.
  intros Hp. rewrite !idw_value_sums.
  f_equal; apply np_sum_perm, Permutation_map; assumption.
Qed.

End AverageFacts.

(** In exact real arithmetic, behind the three-sample gate, the point
    estimate follows a change of unit of the values (the samples with the
    values [a * v + b] give [a * estimate + b]) and does not depend on the
    order of the samples. *)
Theorem estimate_units_and_order_exact (data : list (sample R)) (qlon qlat power : R) :
  3 <= length data ->
  (forall a b,
     interpolate_idw_point (map (rescale a b) data) qlon qlat power
     = Estimate (a * idw_value data qlon qlat power + b)%R)
  /\ (forall data', Permutation data data' ->
        interpolate_idw_point data' qlon qlat power
        = interpolate_idw_point data qlon qlat power)
  /\ interpolate_idw_point data qlon qlat power = Estimate (idw_value data qlon qlat power).
Proof.
  intros Hlen. assert (Hne : data <> []) by (intros ->; simpl in Hlen; lia).
  split; [|split].
  - intros a b. rewrite interpolate_idw_point_eq. rewrite length_map.
    pass_gate. rewrite idw_value_rescale by assumption. reflexivity.
  - intros data' Hp. rewrite !interpolate_idw_point_eq.
    rewrite <- (Permutation_length Hp). pass_gate.
    rewrite (idw_value_perm _ _ _ _ _ Hp). reflexivity.
  - rewrite interpolate_idw_point_eq. pass_gate. reflexivity.
Qed.

Lemma estimate_units_and_order_witness :
  3 <= length demo_box_stations
  /\ (forall a b,
        interpolate_idw_point (map (rescale a b) demo_box_stations) (1 / 10)%R (1 / 10)%R 2%R
        = Estimate (a * idw_value demo_box_stations (1 / 10)%R (1 / 10)%R 2%R + b)%R)
  /\ (forall data', Permutation demo_box_stations data' ->
        interpolate_idw_point data' (1 / 10)%R (1 / 10)%R 2%R
        = interpolate_idw_point demo_box_stations (1 / 10)%R (1 / 10)%R 2%R)
  /\ interpolate_idw_point demo_box_stations (1 / 10)%R (1 / 10)%R 2%R
     = Estimate (idw_value demo_box_stations (1 / 10)%R (1 / 10)%R 2%R).
Proof.
  assert (H : 3 <= length demo_box_stations) by (simpl; lia).
  split; [exact H|].
  exact (estimate_units_and_order_exact demo_box_stations (1 / 10)%R (1 / 10)%R 2%R H).
Defined.

(** ** The markers of the stored map *)

Section Stored.
Variable parse_float : string -> option float.
Variable contourf_accepts :
  list (list float) -> list (list float) -> list (list float) -> list float -> bool.
Local Open Scope float_scope.

(** The category of the score of a value that is scored at all. *)
Lemma scored_category (pm25 : float) (aqi : Z) :
  is_nan pm25 = false ->
  pm25_to_aqi parse_float (PyFloat pm25) = Return aqi ->
  get_aqi_alert aqi = py_category pm25.
Proof.
  intros [v Hv]%is_nan_fval Hret.
  destruct (PrimFloat.leb 0 pm25) eqn:E0.
  - destruct (python_bands parse_float pm25 E0) as (aqi' & Haqi & _ & Hcat).
    rewrite Hret in Haqi. injection Haqi as <-. exact Hcat.
  - assert (L0 : PrimFloat.ltb pm25 0 = true)
      by (eapply (leb_false_ltb 0 pm25); [reflexivity | exact Hv | exact E0]).
    apply ltb_leb in L0.
    destruct (python_overflow parse_float pm25) as [Hraise Hneg].
    destruct (PrimFloat.leb pm25 py_overflow_max) eqn:Eo.
    + rewrite (Hraise eq_refl) in Hret. discriminate.
    + assert (Lo : PrimFloat.ltb py_overflow_max pm25 = true)
        by (eapply (leb_false_ltb pm25 py_overflow_max); [exact Hv | by_eval | exact Eo]).
      destruct (Hneg Lo L0) as (aqi' & Haqi & _ & Hgood).
      rewrite Hret in Haqi. injection Haqi as <-. rewrite Hgood.
      unfold py_category. rewrite (leb_trans pm25 0 py_good_max L0 ltac:(by_eval)).
      reflexivity.
Qed.

(** In every session state that runs of the script lead to, the stored map
    has one circle marker per row of the stored frame, in the order of the
    frame, at the coordinates of the station. Its popup names it "Unknown
    Station" (the frame has no name column) and carries the score that
    [pm25_to_aqi] gives for the value of the station; its colour and its
    alert are those of the category of that value: Good up to
    12.567999999999998, Moderate up to 35.89999999999999, Unhealthy for
    Sensitive up to 57.39999999999997, Unhealthy above and for NaN. *)
Theorem station_markers_follow_the_score (st : SessionState.t) (m : page_map) :
  reachable parse_float contourf_accepts (Some st) ->
  SessionState.map st = Some m ->
  map_markers (base_map m) = station_markers (SessionState.data st)
  /\ Forall2 (fun row mk =>
                exists aqi,
                  pm25_to_aqi parse_float (PyFloat (row_value row)) = Return aqi
                  /\ mk = CircleMarker (row_lat row, row_lon row) 6
                            (color_of_alert (py_category (row_value row)))
                            (StationPopup "Unknown Station" aqi (row_value row)
                               (py_category (row_value row))
                               (row_lat row) (row_lon row) (row_datetime row)))
             (SessionState.data st) (map_markers (base_map m)).
Proof.
  intros Hreach Hm.
  pose proof (reachable_session_ok parse_float contourf_accepts st Hreach) as Hok.
  unfold session_ok in Hok. rewrite Hm in Hok.
  destruct Hok as (_ & Hrows & _ & Hmk & _).
  split; [exact Hmk|]. rewrite Hmk. clear Hmk. unfold station_markers.
  induction Hrows as [|row rows Hrow _ IH]; [constructor|].
  cbn [map]. constructor; [|exact IH].
  destruct Hrow as ((aqi & Ha & Hs) & Hname & _ & _ & Hnan).
  exists aqi. split; [exact Hs|]. rewrite Ha, Hname. unfold from_option, Datatypes.id.
  destruct (get_alert_get_color aqi) as [-> ->].
  rewrite (scored_category _ _ Hnan Hs). reflexivity.
Qed.

End Stored.

Lemma station_markers_witness :
  reachable (fun _ => None) (fun _ _ _ _ => true) (Some demo_session)
  /\ SessionState.map demo_session = Some demo_page
  /\ map_markers (base_map demo_page) = station_markers (SessionState.data demo_session)
  /\ Forall2 (fun row mk =>
                exists aqi,
                  pm25_to_aqi (fun _ => None) (PyFloat (row_value row)) = Return aqi
                  /\ mk = CircleMarker (row_lat row, row_lon row) 6
                            (color_of_alert (py_category (row_value row)))
                            (StationPopup "Unknown Station" aqi (row_value row)
                               (py_category (row_value row))
                               (row_lat row) (row_lon row) (row_datetime row)))
             (SessionState.data demo_session) (map_markers (base_map demo_page)).
Proof.
  assert (Hreach : reachable (fun _ => None) (fun _ _ _ _ => true) (Some demo_session)).
  { apply (reachable_run _ _ None "London, UK" 1714564800 1714564801 demo_response
             demo_session [InterpolatedSuccess] (reachable_new _ _)).
    vm_compute. reflexivity. }
  assert (E : SessionState.map demo_session = Some demo_page) by (vm_compute; reflexivity).
  split; [exact Hreach|]. split; [exact E|].
  exact (station_markers_follow_the_score (fun _ => None) (fun _ _ _ _ => true)
           demo_session demo_page Hreach E).
Defined.

(** ** The classifiers on every float *)

(** For every float [pm25 >= 0], infinity included, [pm25_to_aqi] returns
    a score between 0 and 201, and [get_aqi_alert] reports that score as
    Good for [pm25] up to 12.567999999999998, as Moderate up to
    35.89999999999999, as Unhealthy for Sensitive up to 57.39999999999997
    and as Unhealthy above: the categories do not change at the
    breakpoints 12, 35.4 and 55.4 of the branches. *)
Theorem pm25_category_python (parse_float : string -> option float) (pm25 : float) :
  PrimFloat.leb 0 pm25 = true ->
  exists aqi,
    pm25_to_aqi parse_float (PyFloat pm25) = Return aqi
    /\ (0 <= aqi <= 201)%Z
    /\ get_aqi_alert aqi = py_category pm25.
Proof. apply python_bands. Qed.

Lemma pm25_category_python_witness :
  PrimFloat.leb 0 12.5 = true
  /\ exists aqi,
       pm25_to_aqi (fun _ => None) (PyFloat 12.5) = Return aqi
       /\ (0 <= aqi <= 201)%Z
       /\ get_aqi_alert aqi = py_category 12.5.
Proof.
  split; [reflexivity|].
  apply (pm25_category_python (fun _ => None) 12.5). reflexivity.
Defined.

(** On the floats [pm25 <= 0] the score is not clamped: [pm25_to_aqi]
    returns a score that is at most 0, which [get_aqi_alert] reports as
    Good, down to about -4.31e307; from there on, minus infinity
    included, the product [(50 / 12) * pm25] is infinite and [int] raises
    OverflowError, which the function does not catch. *)
Theorem pm25_negative_python (parse_float : string -> option float) (pm25 : float) :
  PrimFloat.leb pm25 0 = true ->
  if PrimFloat.leb pm25 py_overflow_max
  then pm25_to_aqi parse_float (PyFloat pm25) = Raise OverflowError
  else exists aqi,
         pm25_to_aqi parse_float (PyFloat pm25) = Return aqi
         /\ (aqi <= 0)%Z /\ get_aqi_alert aqi = Good.
Proof.
  intros H0. destruct (python_overflow parse_float pm25) as [Hraise Hneg].
  destruct (PrimFloat.leb pm25 py_overflow_max) eqn:Eo; [apply Hraise; reflexivity|].
  apply Hneg; [|exact H0].
  destruct (leb_fval_l _ _ H0) as [v Hv].
  eapply (leb_false_ltb pm25 py_overflow_max); [exact Hv | reflexivity | exact Eo].
Qed.

Lemma pm25_negative_python_witness :
  (PrimFloat.leb neg_infinity 0 = true
   /\ pm25_to_aqi (fun _ => None) (PyFloat neg_infinity) = Raise OverflowError)
  /\ (PrimFloat.leb (-999) 0 = true
      /\ exists aqi,
           pm25_to_aqi (fun _ => None) (PyFloat (-999)) = Return aqi
           /\ (aqi <= 0)%Z /\ get_aqi_alert aqi = Good).
Proof.
  split; (split; [reflexivity|]).
  - apply (pm25_negative_python (fun _ => None) neg_infinity). reflexivity.
  - apply (pm25_negative_python (fun _ => None) (-999)%float). reflexivity.
Defined.

(** For every float [pm25 >= 0] the embedded script computes a score
    between 0 and 201 and reports it as Good for [pm25] up to
    12.333999999999998, as Moderate up to 35.699999999999996, as
    Unhealthy for Sensitive up to 56.44999999999997 and as Unhealthy
    above. *)
Theorem pm25_category_js (pm25 : float) :
  PrimFloat.leb 0 pm25 = true ->
  between 0 201 (JS.aqi pm25)
  /\ JS.alert_of (JS.aqi pm25) = js_category pm25.
Proof. apply js_bands. Qed.

Lemma pm25_category_js_witness :
  PrimFloat.leb 0 12.5 = true
  /\ between 0 201 (JS.aqi 12.5)
  /\ JS.alert_of (JS.aqi 12.5) = js_category 12.5.
Proof.
  split; [reflexivity|]. apply (pm25_category_js 12.5). reflexivity.
Defined.

(** For every float [pm25 >= 0], the station marker (Python) and the
    click popup (script) name the same category for [pm25] unless [pm25]
    lies in one of three intervals: above 12.333999999999998 up to
    12.567999999999998, above 35.699999999999996 up to 35.89999999999999,
    above 56.44999999999997 up to 57.39999999999997. *)
Theorem classifiers_disagree_on_three_intervals (parse_float : string -> option float)
    (pm25 : float) :
  PrimFloat.leb 0 pm25 = true ->
  exists aqi,
    pm25_to_aqi parse_float (PyFloat pm25) = Return aqi
    /\ (get_aqi_alert aqi = JS.alert_of (JS.aqi pm25) <-> categories_differ pm25 = false).
Proof.
  intros H0. destruct (python_bands parse_float pm25 H0) as (aqi & Hret & _ & Hpy).
  destruct (js_bands pm25 H0) as [_ Hjs].
  destruct (leb_fval_r _ _ H0) as [v Hv].
  exists aqi. split; [exact Hret|]. rewrite Hpy, Hjs.
  apply (categories_compare pm25 v Hv).
Qed.

Lemma classifiers_disagree_witness :
  PrimFloat.leb 0 12.5 = true
  /\ exists aqi,
       pm25_to_aqi (fun _ => None) (PyFloat 12.5) = Return aqi
       /\ (get_aqi_alert aqi = JS.alert_of (JS.aqi 12.5) <-> categories_differ 12.5 = false).
Proof.
  split; [reflexivity|].
  apply (classifiers_disagree_on_three_intervals (fun _ => None) 12.5). reflexivity.
Defined.

(** ** The map *)

Section CreateMapTheorems.
Variable contourf_accepts :
  list (list float) -> list (list float) -> list (list float) -> list float -> bool.

(** Whenever [create_map] returns a map, it is the default map or the map
    with the contour image, never the map of its second fallback (line
    84, "no valid interpolated data"): a grid that passes the test of
    line 24 has a cell that is not NaN. It is the default map exactly
    when the frame is empty, a grid is None or every cell is NaN. In each
    case the map is fitted to the bounding box and has one marker per row
    of the frame, or the one marker "No data available" for an empty
    frame. *)
Theorem create_map_second_fallback_is_dead
    (grid_lon grid_lat grid_values : option (list (list float)))
    (data : list station_row) (bbox : float * float * float * float) (m : folium_map) :
  create_map contourf_accepts grid_lon grid_lat grid_values data bbox = Some m ->
  map_layout m <> StationsOnly
  /\ (map_layout m = DefaultMap <->
      data = [] \/ grid_lon = None \/ grid_values = None
      \/ exists gv, grid_values = Some gv /\ np_all_isnan gv = true)
  /\ map_markers m = match data with
                     | [] => [Marker (27.7, 85.3)%float "No data available"]
                     | _ => station_markers data
                     end
  /\ map_fit m = (let '(bbox0, bbox1, bbox2, bbox3) := bbox in
                  ((bbox1, bbox0), (bbox3, bbox2))).
Proof.
  intros Hmap. destruct (create_map_cases _ _ _ _ _ _ _ Hmap) as (Hmk & Hlay & Hfit).
  split; [|split; [|split; assumption]].
  - intros E. rewrite E in Hlay. exact Hlay.
  - split.
    + intros E. rewrite E in Hlay. exact Hlay.
    + intros Hdef. destruct (map_layout m) as [| |levels b]; [reflexivity | contradiction |].
      destruct Hlay as (Hne & _ & glon & glat & gv & mx & E1 & _ & E3 & Hall & _).
      destruct Hdef as [H | [H | [H | (gv' & H & Hall')]]]; try congruence.
Qed.

(** Whenever [create_map] draws contours, the five levels it passes to
    [contourf] are strictly increasing, as [contourf] requires: they are
    0, 12, 35.4, 55.4 and one more than the greater of 55.4 and the
    greatest cell of the grid that is not NaN. *)
Theorem contour_levels_strictly_increasing
    (grid_lon grid_lat grid_values : option (list (list float)))
    (data : list station_row) (bbox : float * float * float * float) (m : folium_map)
    (levels : list float) (img_bounds : (float * float) * (float * float)) :
  create_map contourf_accepts grid_lon grid_lat grid_values data bbox = Some m ->
  map_layout m = Contours levels img_bounds ->
  strictly_increasing levels = true
  /\ exists gv mx,
       grid_values = Some gv
       /\ np_max (np_not_nan gv) = Some mx
       /\ levels = [0; 12; 35.4; 55.4; py_max mx 55.4 + 1]%float.
Proof.
  intros Hmap E. destruct (create_map_cases _ _ _ _ _ _ _ Hmap) as (_ & Hlay & _).
  rewrite E in Hlay.
  destruct Hlay as (_ & Hinc & _ & _ & gv & mx & _ & _ & E3 & _ & Hmx & Hlev & _).
  split; [exact Hinc|]. exists gv, mx. auto.
Qed.

End CreateMapTheorems.

Lemma create_map_second_fallback_witness :
  create_map (fun _ _ _ _ => true) (Some demo_grid_lon) (Some demo_grid_lat)
             (Some demo_grid_values) demo_rows demo_bbox = Some demo_map
  /\ map_layout demo_map <> StationsOnly
  /\ (map_layout demo_map = DefaultMap <->
      demo_rows = [] \/ Some demo_grid_lon = None \/ Some demo_grid_values = None
      \/ exists gv, Some demo_grid_values = Some gv /\ np_all_isnan gv = true)
  /\ map_markers demo_map = station_markers demo_rows
  /\ map_fit demo_map = ((0, 0), (1, 1))%float.
Proof.
  assert (H : create_map (fun _ _ _ _ => true) (Some demo_grid_lon) (Some demo_grid_lat)
                         (Some demo_grid_values) demo_rows demo_bbox = Some demo_map)
    by (vm_compute; reflexivity).
  split; [exact H|].
  exact (create_map_second_fallback_is_dead _ _ _ _ _ _ _ H).
Defined.

Lemma contour_levels_witness :
  create_map (fun _ _ _ _ => true) (Some demo_grid_lon) (Some demo_grid_lat)
             (Some demo_grid_values) demo_rows demo_bbox = Some demo_map
  /\ map_layout demo_map
     = Contours [0; 12; 35.4; 55.4; 61]%float ((0, 0), (1, 1))%float
  /\ strictly_increasing [0; 12; 35.4; 55.4; 61]%float = true
  /\ exists gv mx,
       Some demo_grid_values = Some gv
       /\ np_max (np_not_nan gv) = Some mx
       /\ [0; 12; 35.4; 55.4; 61]%float = [0; 12; 35.4; 55.4; py_max mx 55.4 + 1]%float.
Proof.
  assert (H : create_map (fun _ _ _ _ => true) (Some demo_grid_lon) (Some demo_grid_lat)
                         (Some demo_grid_values) demo_rows demo_bbox = Some demo_map)
    by (vm_compute; reflexivity).
  assert (E : map_layout demo_map
              = Contours [0; 12; 35.4; 55.4; 61]%float ((0, 0), (1, 1))%float)
    by (vm_compute; reflexivity).
  split; [exact H|]. split; [exact E|].
  exact (contour_levels_strictly_increasing _ _ _ _ _ _ _ _ _ H E).
Defined.

(** ** The request *)

Lemma fetch_rows_complete (bbox : option (float * float * float * float))
    (results : list measurement) (x : measurement) (row : station_row) :
  In x results -> complete_row x row ->
  is_nan (row_lat row) = false -> is_nan (row_lon row) = false ->
  is_nan (row_value row) = false ->
  match bbox with
  | Some bbox => inside bbox row
  | None => True
  end ->
  In row (fetch_latest_pm25 bbox (Body (Some results))).
Proof.
  intros Hx (Hc & Hv & Hd & Ha & Hn) N1 N2 N3 Hbox.
  unfold fetch_latest_pm25. destruct results as [|x0 results]; [destruct Hx|].
  set (rs := x0 :: results) in *. clearbody rs.
  match goal with
  | |- In row match bbox with
              | Some _ => _
              | None => ?df
              end => assert (Hin : In row df)
  end.
  { apply list_elem_of_In, list_elem_of_omap.
    eexists. split; [apply list_elem_of_In, in_map; exact Hx|].
    cbn beta. rewrite Hc, Hv, Hd. cbn [mbind option_bind fst snd isna].
    rewrite N1, N2, N3. cbn [orb mbind option_bind].
    destruct row; cbn in *; subst; reflexivity. }
  destruct bbox as [[[[min_lon min_lat] max_lon] max_lat]|]; [|exact Hin].
  apply filter_In. split; [exact Hin|].
  destruct Hbox as [[H1 H2] [H3 H4]]. rewrite H1, H2, H3, H4. reflexivity.
Qed.

(** [fetch_latest_pm25] returns an empty frame when the request fails and
    when the body has no results. Otherwise the rows of its frame are
    exactly those of the entries of the response that have both
    coordinates, a value and a time, none of them missing or NaN, and
    that lie in the bounding box, its border included, when one is
    given; the rows have no ['aqi'] and no ['station_name'] column. *)
Theorem fetched_rows_are_the_complete_entries_in_the_box
    (bbox : option (float * float * float * float)) (r : response) (row : station_row) :
  In row (fetch_latest_pm25 bbox r) <->
  exists results x,
    r = Body (Some results) /\ In x results /\ complete_row x row
    /\ is_nan (row_lat row) = false /\ is_nan (row_lon row) = false
    /\ is_nan (row_value row) = false
    /\ match bbox with
       | Some bbox => inside bbox row
       | None => True
       end.
Proof.
  split.
  - intros Hin. destruct (fetch_rows_spec _ _ _ Hin) as ((rs & x & -> & Hx & Hc) & Hn).
    exists rs, x. auto.
  - intros (rs & x & -> & Hx & Hc & N1 & N2 & N3 & Hbox).
    eapply fetch_rows_complete; eassumption.
Qed.

(** ** The session *)

(** Whatever regions were selected, whatever the clock and the API
    answered and however often the button was pressed: the session state
    either holds no map, no data and no grid, or it holds a map together
    with the frame and the grid it was built from. The frame is not
    empty, its rows are scored by [pm25_to_aqi] and lie in the box of one
    of the regions, the grid is the one [interpolate_idw] gives for the
    frame at resolution 0.005 and power 2, the click handler carries the
    stations of the frame. *)
Theorem session_state_invariant (parse_float : string -> option float)
    (contourf_accepts :
       list (list float) -> list (list float) -> list (list float) -> list float -> bool)
    (st : SessionState.t) :
  reachable parse_float contourf_accepts (Some st) ->
  session_ok parse_float contourf_accepts st.
Proof. apply reachable_session_ok. Qed.

Lemma session_state_invariant_witness :
  reachable (fun _ => None) (fun _ _ _ _ => true) (Some demo_session)
  /\ session_ok (fun _ => None) (fun _ _ _ _ => true) demo_session.
Proof.
  assert (Hreach : reachable (fun _ => None) (fun _ _ _ _ => true) (Some demo_session)).
  { apply (reachable_run _ _ None "London, UK" 1714564800 1714564801 demo_response
             demo_session [InterpolatedSuccess] (reachable_new _ _)).
    vm_compute. reflexivity. }
  split; [exact Hreach|].
  exact (session_state_invariant _ _ demo_session Hreach).
Defined.
